(** * NicLink: a ChessNut Air board driven against a lichess game

    Shallow embedding of the board codec ([niclink/bluetooth/__main__.py]),
    of the board manager ([niclink/driver.py]) and of the move submission of
    a lichess game ([lichess/__main__.py]), with the properties stated about
    them. *)

From Stdlib Require Import String Ascii List ZArith Lia Bool Arith PeanoNat.
From Stdlib Require Import DecimalString.
Import ListNotations.

Local Open Scope string_scope.
Local Open Scope nat_scope.

(** ** Python values shared by the modules *)

(** The exceptions the embedded code raises or lets through: those of
    [niclink.nl_exceptions] and the built-in ones. *)
Inductive exn : Type :=
| NoMove (msg : string)
| IllegalMove (msg : string)
| NoNicLinkFen (msg : string)
| ExitNicLink (msg : string)
| NicLinkGameOver (msg : string)
| ValueError (msg : string)
| IndexError
| KeyError.

(** Outcome of a call: a returned value or a raised exception. *)
Inductive result (A : Type) : Type :=
| Ret (a : A)
| Raise (e : exn).
Arguments Ret {A} a.
Arguments Raise {A} e.

Definition rbind {A B : Type} (r : result A) (k : A -> result B) : result B :=
  match r with
  | Ret a => k a
  | Raise e => Raise e
  end.

(** [str(n)] for a non-negative integer. *)
Definition py_str_nat (n : nat) : string :=
  NilEmpty.string_of_uint (Nat.to_uint n).

(** [s[:n]] and [s[n:]] on a [str], for [n >= 0]. *)
Definition py_prefix (n : nat) (s : string) : string := substring 0 n s.
Definition py_suffix (n : nat) (s : string) : string :=
  substring n (String.length s - n) s.

(** ** The bluetooth codec: [niclink/bluetooth] *)
Module Bluetooth.

(** [MASKLOW = 0b00001111] *)
Definition MASKLOW : Z := 15.

(** [convertDict]; a missing key is Python's [KeyError]. *)
Definition convertDict (code : Z) : result string :=
  match code with
  | 0%Z => Ret " "
  | 1%Z => Ret "q"
  | 2%Z => Ret "k"
  | 3%Z => Ret "b"
  | 4%Z => Ret "p"
  | 5%Z => Ret "n"
  | 6%Z => Ret "R"
  | 7%Z => Ret "P"
  | 8%Z => Ret "r"
  | 9%Z => Ret "B"
  | 10%Z => Ret "N"
  | 11%Z => Ret "Q"
  | 12%Z => Ret "K"
  | _ => Raise KeyError
  end.

Definition fen_constructor (preceding_empty : nat) (piece_code : Z)
  : result string :=
  if preceding_empty =? 0 then convertDict piece_code
  else rbind (convertDict piece_code)
         (fun p => Ret (py_str_nat preceding_empty ++ p)).

(** One square of the inner loop of [board_fen]: the two copies of the
    [if s == 0: ... else: ...] block, on the pair [(FEN, c)]. *)
Definition square_step (s : Z) (st : string * nat) : result (string * nat) :=
  let '(FEN, c) := st in
  if (s =? 0)%Z then
    let c := c + 1 in
    if c =? 8 then Ret (FEN ++ "8", c) else Ret (FEN, c)
  else
    rbind (fen_constructor c s) (fun t => Ret (FEN ++ t, 0)).

(** Body of [for b in row]: high nibble first, then the low nibble. *)
Definition byte_step (b : Z) (st : string * nat) : result (string * nat) :=
  rbind (square_step (Z.shiftr b 4) st)
        (square_step (Z.land b MASKLOW)).

Fixpoint row_loop (row : list Z) (st : string * nat)
  : result (string * nat) :=
  match row with
  | [] => Ret st
  | b :: row' => rbind (byte_step b st) (row_loop row')
  end.

(** [data[i:j]] on [bytes]. *)
Definition py_slice {A : Type} (i j : nat) (data : list A) : list A :=
  firstn (j - i) (skipn i data).

(** Body of [for counterColum in range(0, 8)]. *)
Definition column_step (data : list Z) (counterColum : nat) (FEN : string)
  : result string :=
  let row := rev (py_slice (counterColum * 4) (counterColum * 4 + 4) data) in
  rbind (row_loop row (FEN, 0))
        (fun st =>
           let FEN := fst st in
           if negb (counterColum =? 8) then Ret (FEN ++ "/") else Ret FEN).

Fixpoint column_loop (data : list Z) (cols : list nat) (FEN : string)
  : result string :=
  match cols with
  | [] => Ret FEN
  | k :: cols' => rbind (column_step data k FEN) (column_loop data cols')
  end.

Definition board_fen (data : list Z) : result string :=
  column_loop data (seq 0 8) "".

(** The snapshot [board_fen] is called on at the end of the module:
    the standard starting position. *)
Definition module_self_test_data : list Z :=
  [ 88; 35; 49; 133;  68; 68; 68; 68;  0; 0; 0; 0;  0; 0; 0; 0;
    0; 0; 0; 0;  0; 0; 0; 0;  119; 119; 119; 119;  166; 201; 155; 106 ]%Z.

(** The same position after the e2 pawn went to e4. *)
Definition after_e2e4_data : list Z :=
  [ 88; 35; 49; 133;  68; 68; 68; 68;  0; 0; 0; 0;  0; 0; 0; 0;
    0; 112; 0; 0;  0; 0; 0; 0;  119; 7; 119; 119;  166; 201; 155; 106 ]%Z.

(** A valid snapshot: 32 bytes, every nibble a key of [convertDict]. *)
Definition valid_byte (b : Z) : bool :=
  ((0 <=? b) && (b <? 256) && (Z.shiftr b 4 <=? 12)
   && (Z.land b MASKLOW <=? 12))%Z.

Definition valid_snapshot (data : list Z) : bool :=
  (List.length data =? 32) && forallb valid_byte data.

(** *** What the specification asks of a piece placement *)

Fixpoint split_on (sep : ascii) (acc : string) (s : string) : list string :=
  match s with
  | EmptyString => [acc]
  | String c s' =>
      if Ascii.eqb c sep then acc :: split_on sep "" s'
      else split_on sep (acc ++ String c "") s'
  end.

(** Squares covered by one character of a rank segment. *)
Definition squares_of_char (c : ascii) : nat :=
  let n := nat_of_ascii c in
  if (49 <=? n) && (n <=? 56) then n - 48 else 1.

Fixpoint squares_of_segment (s : string) : nat :=
  match s with
  | EmptyString => 0
  | String c s' => squares_of_char c + squares_of_segment s'
  end.

(** Exactly 8 segments between the delimiters, none after the last, each
    covering 8 squares. *)
Definition spec_placement_ok (fen : string) : bool :=
  let segs := split_on "/"%char "" fen in
  (List.length segs =? 8) && forallb (fun s => squares_of_segment s =? 8) segs.

(** *** [leds]: the frame that lights the occupied squares *)

(** [set_bit(v, index, x)] *)
Definition set_bit (v : Z) (index : nat) (x : bool) : Z :=
  let mask := Z.shiftl 1 (Z.of_nat index) in
  let v := Z.land v (Z.lnot mask) in
  if x then Z.lor v mask else v.

(** [s.isalnum()] on a [str] of ASCII characters. *)
Definition char_isalnum (c : ascii) : bool :=
  let n := nat_of_ascii c in
  ((48 <=? n) && (n <=? 57)) || ((65 <=? n) && (n <=? 90))
  || ((97 <=? n) && (n <=? 122)).

Fixpoint all_alnum (s : string) : bool :=
  match s with
  | EmptyString => true
  | String c s' => char_isalnum c && all_alnum s'
  end.

Definition isalnum (s : string) : bool :=
  match s with
  | EmptyString => false
  | _ => all_alnum s
  end.

Fixpoint replace_at {A : Type} (i : nat) (x : A) (l : list A) : list A :=
  match l, i with
  | [], _ => []
  | _ :: l', 0 => x :: l'
  | y :: l', S i' => y :: replace_at i' x l'
  end.

(** [led[i]] and [led[i] = v] on a [bytearray], for [i >= 0]. *)
Definition bytearray_getitem (led : list Z) (i : nat) : result Z :=
  match nth_error led i with
  | Some v => Ret v
  | None => Raise IndexError
  end.

Definition bytearray_setitem (led : list Z) (i : nat) (v : Z)
  : result (list Z) :=
  if i <? List.length led then
    if ((0 <=? v) && (v <? 256))%Z then Ret (replace_at i v led)
    else Raise (ValueError "byte must be in range(0, 256)")
  else Raise IndexError.

(** The [if n.isalnum(): v = set_bit(v, index, 1); led[...] = v] block of
    [leds], on the pair [(v, led)]. *)
Definition light_if_piece (counterColum index : nat) (n : string)
           (st : Z * list Z) : result (Z * list Z) :=
  let '(v, led) := st in
  if isalnum n then
    let v := set_bit v index true in
    rbind (bytearray_setitem led (counterColum + 2) v)
          (fun led => Ret (v, led))
  else Ret (v, led).

(** Body of [for counter, b in enumerate(row)]. *)
Definition leds_byte (counterColum counter : nat) (b : Z) (led : list Z)
  : result (list Z) :=
  rbind (bytearray_getitem led (counterColum + 2)) (fun v =>
  rbind (convertDict (Z.land b MASKLOW)) (fun n1 =>
  rbind (light_if_piece counterColum (counter * 2) n1 (v, led)) (fun st =>
  rbind (convertDict (Z.shiftr b 4)) (fun n2 =>
  rbind (light_if_piece counterColum (counter * 2 + 1) n2 st) (fun st =>
  Ret (snd st)))))).

Fixpoint leds_row (counterColum counter : nat) (row : list Z) (led : list Z)
  : result (list Z) :=
  match row with
  | [] => Ret led
  | b :: row' =>
      rbind (leds_byte counterColum counter b led)
            (leds_row counterColum (S counter) row')
  end.

Fixpoint leds_columns (data : list Z) (cols : list nat) (led : list Z)
  : result (list Z) :=
  match cols with
  | [] => Ret led
  | k :: cols' =>
      rbind (leds_row k 0 (py_slice (k * 4) (k * 4 + 4) data) led)
            (leds_columns data cols')
  end.

(** [leds(data)]: the frame handed to [CLIENT.write_gatt_char]. *)
Definition leds (data : list Z) : result (list Z) :=
  leds_columns data (seq 0 8) [10; 8; 1; 0; 0; 0; 0; 0; 0; 0]%Z.

(** *** What a snapshot holds *)

(** A byte both nibbles of which are keys of [convertDict]. *)
Definition decodable (b : Z) : bool :=
  ((0 <=? Z.shiftr b 4) && (Z.shiftr b 4 <=? 12)
   && (Z.land b MASKLOW <=? 12))%Z.

(** The value of the square number [i] of a snapshot, in the order of the
    board: h8 is 0, g8 is 1, a1 is 63. *)
Definition square_code (data : list Z) (i : nat) : Z :=
  let b := nth (i / 2) data 0%Z in
  if Nat.even i then Z.land b MASKLOW else Z.shiftr b 4.

Definition occupied (data : list Z) (i : nat) : bool :=
  negb (square_code data i =? 0)%Z.

(** The values of the squares of the rank number [k] (rank 8 is 0), from
    file a to file h. *)
Definition rank_squares (data : list Z) (k : nat) : list Z :=
  map (fun f => square_code data (k * 8 + (7 - f))) (seq 0 8).

(** The letter of a piece value. *)
Definition symbol (code : Z) : string :=
  match convertDict code with
  | Ret s => s
  | Raise _ => ""
  end.

(** Run-length encoding of the squares of a rank after [c] empty squares,
    without the empty squares that end it. *)
Fixpoint rle (squares : list Z) (c : nat) : string :=
  match squares with
  | [] => ""
  | s :: squares' =>
      if (s =? 0)%Z then rle squares' (c + 1)
      else (if c =? 0 then "" else py_str_nat c) ++ symbol s ++ rle squares' 0
  end.

(** The segment of a rank: "8" when it is empty. *)
Definition encode_rank (squares : list Z) : string :=
  if forallb (fun s => (s =? 0)%Z) squares then "8" else rle squares 0.

(** A [bytes] object: every element is in [range(256)]. *)
Definition is_bytes (data : list Z) : bool :=
  forallb (fun b => ((0 <=? b) && (b <? 256))%Z) data.

(** The two squares of a byte, in the order [board_fen] takes them. *)
Definition nibbles (b : Z) : list Z := [Z.shiftr b 4; Z.land b MASKLOW].

(** [square_step] over a list of squares. *)
Fixpoint squares_loop (squares : list Z) (st : string * nat)
  : result (string * nat) :=
  match squares with
  | [] => Ret st
  | s :: squares' => rbind (square_step s st) (squares_loop squares')
  end.

(** [v] after the block of [leds] for one square: the bit of the square is
    set when a piece stands on it. *)
Definition light (v : Z) (index : nat) (piece : bool) : Z :=
  if piece then set_bit v index true else v.

(** The byte of a row of the frame, from the value [v] it has before the
    bytes [row] are gone through, the first of them being number [counter]
    of the row. *)
Fixpoint row_value (v : Z) (counter : nat) (row : list Z) : Z :=
  match row with
  | [] => v
  | b :: row' =>
      row_value
        (light (light v (counter * 2) (negb (Z.land b MASKLOW =? 0)%Z))
               (counter * 2 + 1) (negb (Z.shiftr b 4 =? 0)%Z))
        (S counter) row'
  end.

End Bluetooth.

(** ** The rules engine the manager is written against: [chess] *)

(** [chess.Piece]: a piece type and a colour ([chess.WHITE] is [True]). *)
Inductive PieceType : Type := PAWN | KNIGHT | BISHOP | ROOK | QUEEN | KING.

Record Piece : Type := mkPiece { piece_type : PieceType; color : bool }.

Definition PieceType_eqb (a b : PieceType) : bool :=
  match a, b with
  | PAWN, PAWN | KNIGHT, KNIGHT | BISHOP, BISHOP
  | ROOK, ROOK | QUEEN, QUEEN | KING, KING => true
  | _, _ => false
  end.

Definition Piece_eqb (p q : Piece) : bool :=
  PieceType_eqb (piece_type p) (piece_type q) && Bool.eqb (color p) (color q).

(** [p != q] on [Optional[chess.Piece]]. *)
Definition piece_ne (p q : option Piece) : bool :=
  match p, q with
  | None, None => false
  | Some a, Some b => negb (Piece_eqb a b)
  | _, _ => true
  end.

(** The part of [chess.Board] and [chess.Move] the manager calls.  The
    library is not part of the repository: the manager is embedded over any
    implementation of this interface in which [pop] undoes [push] and
    pushing a popped move back restores the board. *)
Class ChessEngine : Type := {
  Board : Type;
  Move : Type;
  (** [chess.Board()] *)
  new_board : Board;
  (** [chess.Board(fen)]; [None] stands for the [ValueError] raised on a
      fen that cannot be read *)
  board_of_fen : string -> option Board;
  (** [board.set_board_fen(fen)], with [None] as above *)
  set_board_fen : Board -> string -> option Board;
  (** [board.board_fen()] *)
  board_fen : Board -> string;
  (** [str(board)] *)
  board_str : Board -> string;
  (** [board.piece_at(square)], squares numbered from a1 = 0 to h8 = 63 *)
  piece_at : Board -> nat -> option Piece;
  (** [board.turn] *)
  turn : Board -> bool;
  (** [list(board.legal_moves)] *)
  legal_moves : Board -> list Move;
  (** [board.push(move)] *)
  push : Move -> Board -> Board;
  (** [board.pop()]; [None] stands for the [IndexError] of an empty stack *)
  pop : Board -> option (Move * Board);
  (** [move.uci()] *)
  uci : Move -> string;
  is_checkmate : Board -> bool;
  is_stalemate : Board -> bool;
  is_insufficient_material : Board -> bool;
  is_fivefold_repetition : Board -> bool;
  is_seventyfive_moves : Board -> bool;
  pop_push : forall (m : Move) (b : Board), pop (push m b) = Some (m, b);
  push_pop : forall (b b' : Board) (m : Move),
      pop b = Some (m, b') -> push m b' = b
}.

(** ** Helper functions of [niclink/driver.py] *)
Module Leds.

(** A led map: the numpy array of eight [str_] rows. *)
Definition led_map : Type := list string.

Definition zeros : string := "00000000".

(** [ZEROS], of dtype [<U8]. *)
Definition ZEROS : led_map := repeat zeros 8.

Definition FILES : list ascii :=
  ["a"; "b"; "c"; "d"; "e"; "f"; "g"; "h"]%char.

(** [s[i]] on a [str], for [i >= 0]. *)
Definition py_getitem (s : string) (i : nat) : result ascii :=
  match String.get i s with
  | Some c => Ret c
  | None => Raise IndexError
  end.

(** [int(c)] on a one-character [str]. *)
Definition py_int_of_char (c : ascii) : result Z :=
  let n := nat_of_ascii c in
  if (48 <=? n) && (n <=? 57) then Ret (Z.of_nat (n - 48))
  else Raise (ValueError "invalid literal for int() with base 10").

(** The [while file_num < 8] search of [square_cords] and [set_led]. *)
Fixpoint file_search (letter : ascii) (files : list ascii) (file_num : nat)
  : bool * nat :=
  match files with
  | [] => (false, file_num)
  | f :: files' =>
      if Ascii.eqb letter f then (true, file_num)
      else file_search letter files' (S file_num)
  end.

Definition square_cords (square : string) : result (nat * Z) :=
  rbind (py_getitem square 1) (fun d =>
  rbind (py_int_of_char d) (fun n =>
  let rank := (n - 1)%Z in
  rbind (py_getitem square 0) (fun letter =>
  let '(found, file_num) := file_search letter FILES 0 in
  if negb found then
    Raise (ValueError (String letter " is not a valid file"))
  else Ret (file_num, rank)))).

Fixpoint list_set {A : Type} (i : nat) (x : A) (l : list A) : list A :=
  match l, i with
  | [], _ => []
  | _ :: l', 0 => x :: l'
  | y :: l', S i' => y :: list_set i' x l'
  end.

(** Position denoted by an index [i] into a sequence of length [n]:
    negative indices count from the end. *)
Definition py_index (n : nat) (i : Z) : result nat :=
  if ((0 <=? i) && (i <? Z.of_nat n))%Z then Ret (Z.to_nat i)
  else if ((- Z.of_nat n <=? i) && (i <? 0))%Z
       then Ret (Z.to_nat (i + Z.of_nat n))
       else Raise IndexError.

(** [arr[i] = s] on an array of dtype [<U8]: numpy keeps the first eight
    characters of [s]. *)
Definition np_setitem_U8 (arr : led_map) (i : Z) (s : string)
  : result led_map :=
  rbind (py_index (List.length arr) i)
        (fun k => Ret (list_set k (substring 0 8 s) arr)).

(** [l[i] = x] on a Python list, for [i >= 0]. *)
Definition py_list_setitem {A : Type} (l : list A) (i : nat) (x : A)
  : result (list A) :=
  if i <? List.length l then Ret (list_set i x l) else Raise IndexError.

(** [zeros[:x] + "1" + zeros[x:]] *)
Definition one_at (x : nat) : string :=
  py_prefix x zeros ++ "1" ++ py_suffix x zeros.

(** [build_led_map_for_move] once both squares are located. *)
Definition led_map_for_cords (s1_cords s2_cords : nat * Z)
  : result led_map :=
  let led_map := ZEROS in
  if negb (snd s1_cords =? snd s2_cords)%Z then
    rbind (np_setitem_U8 led_map (snd s1_cords) (one_at (fst s1_cords)))
          (fun led_map =>
             np_setitem_U8 led_map (snd s2_cords) (one_at (fst s2_cords)))
  else
    let rank := list_ascii_of_string zeros in
    rbind (py_list_setitem rank (fst s1_cords) "1"%char) (fun rank =>
    rbind (py_list_setitem rank (fst s2_cords) "1"%char) (fun rank =>
    let rank_str := string_of_list_ascii rank in
    np_setitem_U8 led_map (snd s1_cords) rank_str)).

Definition build_led_map_for_move (move : string) : result led_map :=
  let s1 := py_prefix 2 move in
  let s2 := py_suffix 2 move in
  rbind (square_cords s1) (fun s1_cords =>
  rbind (square_cords s2) (fun s2_cords =>
  led_map_for_cords s1_cords s2_cords)).

(** [chess.parse_square]: position of the name in [chess.SQUARE_NAMES]. *)
Definition parse_square (square : string) : result nat :=
  match square with
  | String f (String r EmptyString) =>
      let fi := nat_of_ascii f in
      let ri := nat_of_ascii r in
      if (97 <=? fi) && (fi <=? 104) && (49 <=? ri) && (ri <=? 56)
      then Ret ((ri - 49) * 8 + (fi - 97))
      else Raise (ValueError "invalid square name")
  | _ => Raise (ValueError "invalid square name")
  end.

(** *** Moves in coordinate notation *)

Definition is_file (c : ascii) : bool :=
  (97 <=? nat_of_ascii c) && (nat_of_ascii c <=? 104).
Definition is_rank (c : ascii) : bool :=
  (49 <=? nat_of_ascii c) && (nat_of_ascii c <=? 56).
Definition is_promotion (s : string) : bool :=
  match s with
  | "" | "q" | "r" | "b" | "n" => true
  | _ => false
  end.

(** A well-formed move: two squares and an optional promotion piece. *)
Definition is_uci (move : string) : bool :=
  match move with
  | String f1 (String r1 (String f2 (String r2 promo))) =>
      is_file f1 && is_rank r1 && is_file f2 && is_rank r2
      && is_promotion promo
  | _ => false
  end.

(** File and rank (0 based) of the square written [f], [r]. *)
Definition file_of (f : ascii) : nat := nat_of_ascii f - 97.
Definition rank_of (r : ascii) : nat := nat_of_ascii r - 49.

(** Origin and destination of a move, as (file, rank). *)
Definition origin (move : string) : nat * nat :=
  match move with
  | String f1 (String r1 _) => (file_of f1, rank_of r1)
  | _ => (0, 0)
  end.
Definition destination (move : string) : nat * nat :=
  match move with
  | String _ (String _ (String f2 (String r2 _))) => (file_of f2, rank_of r2)
  | _ => (0, 0)
  end.

(** The character of a led map for the square at [file], [rank]. *)
Definition led_at (m : led_map) (file rank : nat) : option ascii :=
  match nth_error m rank with
  | Some row => String.get file row
  | None => None
  end.

(** *** The led map a move asks for *)

(** Is the square at [file], [rank] one of the two squares [c1], [c2]. *)
Definition lit (c1 c2 : nat * nat) (file rank : nat) : bool :=
  ((file =? fst c1) && (rank =? snd c1))
  || ((file =? fst c2) && (rank =? snd c2)).

Definition led_char (on : bool) : ascii := if on then "1"%char else "0"%char.

(** Eight rows of eight characters, "1" on the two squares and "0"
    elsewhere. *)
Definition led_map_ok (c1 c2 : nat * nat) (m : led_map) : bool :=
  (List.length m =? 8)
  && forallb (fun row => String.length row =? 8) m
  && forallb (fun rank =>
       forallb (fun file =>
         match led_at m file rank with
         | Some c => Ascii.eqb c (led_char (lit c1 c2 file rank))
         | None => false
         end) (seq 0 8)) (seq 0 8).

(** [led_map_for_cords] checked on every pair of squares of the board. *)
Definition all_cords_ok : bool :=
  forallb (fun f1 => forallb (fun r1 =>
  forallb (fun f2 => forallb (fun r2 =>
    match led_map_for_cords (f1, Z.of_nat r1) (f2, Z.of_nat r2) with
    | Ret m => led_map_ok (f1, r1) (f2, r2) m
    | Raise _ => false
    end) (seq 0 8)) (seq 0 8)) (seq 0 8)) (seq 0 8).

(** *** Squares by name, and [set_led] *)

(** The name of the square at [file], [rank] (0 based): a1 is at 0, 0. *)
Definition square_of (file rank : nat) : string :=
  String (ascii_of_nat (97 + file)) (String (ascii_of_nat (49 + rank)) "").

(** A call of [nl_interface.set_led]. *)
Inductive led_call : Type :=
| SetLed (row col : Z) (status : bool).

(** [NicLinkManager.set_led(square, status)]: the call it makes on the
    board interface. *)
Definition set_led (square : string) (status : bool) : result led_call :=
  rbind (py_getitem square 0) (fun letter =>
  let '(found, file_num) := file_search letter FILES 0 in
  rbind (py_getitem square 1) (fun d =>
  rbind (py_int_of_char d) (fun n =>
  let num := (n - 1)%Z in
  if negb found then
    Raise (ValueError (String d " is not a valid file"))
  else Ret (SetLed (7 - num) (7 - Z.of_nat file_num) status)))).

(** A decimal digit. *)
Definition is_digit (c : ascii) : bool :=
  (48 <=? nat_of_ascii c) && (nat_of_ascii c <=? 57).

End Leds.

(** ** The board manager: [NicLinkManager] of [niclink/driver.py]

    The methods are embedded in a state and exception monad over the fields
    they use.  The board interface [_niclink] and the events set by other
    threads are given from outside, as a [World].  Calls of the logger and
    [print] are left out, except for the arguments of a logging call that
    read the board or can raise; [with self.lock] is transparent, the
    methods being run one at a time. *)
Module Driver.
Import Leds.

(** Durations handed to [time.sleep]. *)
Inductive delay : Type :=
| refresh_delay        (* [self.refresh_delay] *)
| NO_MOVE_DELAY.       (* 0.03 *)

(** What the manager does to the outside, in the order it does it. *)
Inductive effect : Type :=
| Sleep (d : delay)
| SetAllLeds (m : led_map)     (* [nl_interface.set_all_leds] *)
| LightsOut.                   (* [nl_interface.lights_out] *)

(** What the manager observes of the outside: the fen the board interface
    hands out and the two [threading.Event]s other threads set.  Each
    observation and each sleep takes one instant. *)
Record World : Type := {
  nl_get_fen : nat -> option string;
  game_over_is_set : nat -> bool;
  kill_switch_is_set : nat -> bool
}.

(** [bool | str], the type of what [check_for_move] returns. *)
Inductive bool_or_str : Type :=
| PyFalse
| PyStr (s : string).

(** Truth value of a [str]. *)
Definition str_truthy (s : string) : bool :=
  negb (String.eqb s "").

Definition truthy (v : bool_or_str) : bool :=
  match v with
  | PyFalse => false
  | PyStr s => str_truthy s
  end.

(** The two operands of [new_fen != self.game_board.board_fen]: a [str]
    and a bound method. *)
Inductive py_operand {B : Type} : Type :=
| OpStr (s : string)
| OpBoundMethod (self : B) (name : string).
Arguments py_operand B : clear implicits.

(** [!=] between them: a [str] is never equal to a method object. *)
Definition py_ne {B : Type} (x y : py_operand B) : bool :=
  match x, y with
  | OpStr a, OpStr b => negb (String.eqb a b)
  | _, _ => true
  end.

(** [sub in s] on [str]. *)
Definition py_in (sub s : string) : bool :=
  match index 0 sub s with
  | Some _ => true
  | None => false
  end.

Definition newline : string := String (ascii_of_nat 10) "".

(** The outcome of reading a fen with the rules engine. *)
Definition or_ValueError {A : Type} (o : option A) : result A :=
  match o with
  | Some a => Ret a
  | None => Raise (ValueError "invalid fen")
  end.

Section Manager.
Context {engine : ChessEngine}.
Variable world : World.

(** The fields of the manager the embedded methods read or write;
    [now] counts the instants elapsed and [effects] lists what was done
    to the outside, latest first. *)
Record NicLinkManager : Type := {
  game_board : Board;
  last_move : option string;
  now : nat;
  effects : list effect
}.

Definition M (A : Type) : Type :=
  NicLinkManager -> result A * NicLinkManager.

Definition ret {A : Type} (a : A) : M A := fun st => (Ret a, st).
Definition raise {A : Type} (e : exn) : M A := fun st => (Raise e, st).
Definition bind {A B : Type} (m : M A) (k : A -> M B) : M B :=
  fun st =>
    match m st with
    | (Ret a, st') => k a st'
    | (Raise e, st') => (Raise e, st')
    end.
Definition lift {A : Type} (r : result A) : M A := fun st => (r, st).

Notation "x <- m ;; k" := (bind m (fun x => k))
  (at level 61, m at next level, right associativity).
Notation "m ;;; k" := (bind m (fun _ => k))
  (at level 61, right associativity).

(** [try: m except IllegalMove ...: handler] *)
Definition catch_IllegalMove {A : Type} (m : M A) (handler : string -> M A)
  : M A :=
  fun st =>
    match m st with
    | (Raise (IllegalMove msg), st') => handler msg st'
    | other => other
    end.

Definition tick (st : NicLinkManager) : NicLinkManager :=
  {| game_board := game_board st; last_move := last_move st;
     now := S (now st); effects := effects st |}.

Definition emit (e : effect) (st : NicLinkManager) : NicLinkManager :=
  {| game_board := game_board st; last_move := last_move st;
     now := now st; effects := e :: effects st |}.

Definition get_game_board : M Board := fun st => (Ret (game_board st), st).
Definition get_last_move_field : M (option string) :=
  fun st => (Ret (last_move st), st).

Definition with_game_board (b : Board) (st : NicLinkManager)
  : NicLinkManager :=
  {| game_board := b; last_move := last_move st;
     now := now st; effects := effects st |}.

Definition with_last_move (m : option string) (st : NicLinkManager)
  : NicLinkManager :=
  {| game_board := game_board st; last_move := m;
     now := now st; effects := effects st |}.

(** [self.game_board = b], also the in-place [push] and [pop]. *)
Definition put_game_board (b : Board) : M unit :=
  fun st => (Ret tt, with_game_board b st).

(** [self.last_move = m] *)
Definition put_last_move (m : option string) : M unit :=
  fun st => (Ret tt, with_last_move m st).

(** [self.nl_interface.get_fen()] *)
Definition nl_interface_get_fen : M (option string) :=
  fun st => (Ret (nl_get_fen world (now st)), tick st).

(** [self.game_over.is_set()] and [self.kill_switch.is_set()] *)
Definition game_over_set : M bool :=
  fun st => (Ret (game_over_is_set world (now st)), tick st).
Definition kill_switch_set : M bool :=
  fun st => (Ret (kill_switch_is_set world (now st)), tick st).

(** [time.sleep(d)] *)
Definition sleep (d : delay) : M unit :=
  fun st => (Ret tt, tick (emit (Sleep d) st)).

Definition set_all_leds (light_board : led_map) : M unit :=
  fun st => (Ret tt, emit (SetAllLeds light_board) st).

Definition turn_off_all_leds : M unit :=
  fun st => (Ret tt, emit LightsOut st).

Definition set_move_leds (move : string) : M unit :=
  move_led_map <- lift (build_led_map_for_move move) ;;
  set_all_leds move_led_map.

Definition get_fen : M string :=
  fen <- nl_interface_get_fen ;;
  match fen with
  | Some fen => ret fen
  | None => raise (NoNicLinkFen "No fen got from board")
  end.

Definition put_board_fen_on_board (fen : string) : M Board :=
  lift (or_ValueError (set_board_fen new_board fen)).

Definition square_in_last_move (square : string) : M bool :=
  lm <- get_last_move_field ;;
  match lm with
  | Some lm => if str_truthy lm then ret (py_in square lm) else ret false
  | None => ret false
  end.

(** The squares [show_board_diff] visits, in order:
    [for n in range(0, 8)], [for a in range(ord("a"), ord("h"))]. *)
Definition diff_loop_squares : list (nat * nat) :=
  list_prod (seq 0 8) (seq 97 (104 - 97)).

(** [square = chr(a) + str(n + 1)] *)
Definition square_name (na : nat * nat) : string :=
  let '(n, a) := na in
  String (ascii_of_nat a) (py_str_nat (n + 1)).

(** Body of the inner loop of [show_board_diff] on
    [(diff, diff_squares, diff_map)]. *)
Definition diff_step (board1 board2 : Board) (na : nat * nat)
           (acc : bool * list string * led_map)
  : M (bool * list string * led_map) :=
  let '(diff, diff_squares, diff_map) := acc in
  let square := square_name na in
  py_square <- lift (parse_square square) ;;
  if piece_ne (piece_at board1 py_square) (piece_at board2 py_square) then
    in_last <- square_in_last_move square ;;
    let diff := if negb in_last then true else diff in
    diff_cords <- lift (square_cords square) ;;
    let diff_squares := (diff_squares ++ [square])%list in
    diff_map <- lift (np_setitem_U8 diff_map (snd diff_cords)
                                    (one_at (fst diff_cords))) ;;
    ret (diff, diff_squares, diff_map)
  else ret (diff, diff_squares, diff_map).

Fixpoint diff_loop (board1 board2 : Board) (squares : list (nat * nat))
         (acc : bool * list string * led_map)
  : M (bool * list string * led_map) :=
  match squares with
  | [] => ret acc
  | na :: squares' =>
      acc <- diff_step board1 board2 na acc ;;
      diff_loop board1 board2 squares' acc
  end.

Definition show_board_diff (board1 board2 : Board) : M bool :=
  acc <- diff_loop board1 board2 diff_loop_squares (false, [], ZEROS) ;;
  let '(diff, diff_squares, diff_map) := acc in
  (if diff then set_all_leds diff_map
   else
     lm <- get_last_move_field ;;
     match lm with
     | Some lm => set_move_leds lm
     | None => ret tt
     end) ;;;
  ret diff.

(** The brute-force loop of [find_move_from_fen_change] over
    [legal_moves], on [tmp_board]. *)
Fixpoint find_move_loop (moves : list Move) (tmp_board : Board)
         (new_fen : string) : result (option string) :=
  match moves with
  | [] => Ret None
  | move :: moves' =>
      let tmp_board := push move tmp_board in
      if String.eqb (board_fen tmp_board) new_fen then
        Ret (Some (uci move))
      else
        match pop tmp_board with
        | Some (_, tmp_board) => find_move_loop moves' tmp_board new_fen
        | None => Raise IndexError
        end
  end.

Definition illegal_move_message (error_board game_board : Board)
  : string :=
  "Board we see:" ++ newline ++ board_str error_board ++ newline
  ++ "is not a possible  result from a legal move on:" ++ newline
  ++ board_str game_board ++ newline.

Definition find_move_from_fen_change (new_fen : string) : M string :=
  gb <- get_game_board ;;
  let old_fen := board_fen gb in
  if String.eqb new_fen old_fen then raise (NoMove "No fen difference")
  else
    let legal_moves := legal_moves gb in
    let tmp_board := gb in
    (* the arguments of the [logger.debug] call *)
    seen <- get_fen ;;
    put_board_fen_on_board seen ;;;
    found <- lift (find_move_loop legal_moves tmp_board new_fen) ;;
    match found with
    | Some move => ret move
    | None =>
        error_board <- lift (or_ValueError (set_board_fen new_board new_fen)) ;;
        gb <- get_game_board ;;
        show_board_diff error_board gb ;;;
        raise (IllegalMove (illegal_move_message error_board gb))
    end.

(** The [try: ... except IndexError:] block of [check_for_move]: [true]
    when it returned [False] from inside. *)
Definition debounce (new_fen : string) : M bool :=
  gb <- get_game_board ;;
  match pop gb with
  | Some (last_move, gb') =>
      put_game_board gb' ;;;
      if String.eqb new_fen (board_fen gb') then
        put_game_board (push last_move gb') ;;;
        sleep refresh_delay ;;;
        ret true
      else
        put_game_board (push last_move gb') ;;;
        ret false
  | None => ret false
  end.

(** The branch of [check_for_move] under
    [if new_fen != self.game_board.board_fen:]. *)
Definition on_change (new_fen : string) : M bool_or_str :=
  over <- game_over_set ;;
  if over then ret PyFalse
  else
    catch_IllegalMove
      (move <- find_move_from_fen_change new_fen ;;
       put_last_move (Some move) ;;;
       lm <- get_last_move_field ;;
       match lm with
       | Some m => ret (PyStr m)
       | None => ret PyFalse
       end)
      (fun _ =>
         current_board <- lift (or_ValueError (board_of_fen new_fen)) ;;
         gb <- get_game_board ;;
         show_board_diff current_board gb ;;;
         sleep refresh_delay ;;;
         ret PyFalse).

(** Its [else] branch. *)
Definition on_no_change : M bool_or_str :=
  turn_off_all_leds ;;;
  sleep refresh_delay ;;;
  ret PyFalse.

Definition check_for_move : M bool_or_str :=
  new_fen <- nl_interface_get_fen ;;
  match new_fen with
  | None => raise (ValueError "No fen from chessboard")
  | Some new_fen =>
      returned <- debounce new_fen ;;
      if returned then ret PyFalse
      else
        gb <- get_game_board ;;
        if py_ne (OpStr new_fen) (OpBoundMethod gb "board_fen")
        then on_change new_fen
        else on_no_change
  end.

Definition get_last_move : M string :=
  lm <- get_last_move_field ;;
  match lm with
  | None => raise (ValueError "ERROR: last move is None")
  | Some m => ret m
  end.

(** How one round of the [while] loop of [await_move] ends. *)
Inductive round_end : Type :=
| Return (v : option string)
| Continue (attempts : nat).

(** [try: m except NoMove: h1 except IllegalMove as err: h2] *)
Definition catch_NoMove_IllegalMove {A : Type} (m : M A)
           (on_NoMove : M A) (on_IllegalMove : string -> M A) : M A :=
  fun st =>
    match m st with
    | (Raise (NoMove _), st') => on_NoMove st'
    | (Raise (IllegalMove msg), st') => on_IllegalMove msg st'
    | other => other
    end.

(** [f"in await_move():\nkill_switch.is_set: {k}"] *)
Definition exit_message (k : bool) : string :=
  "in await_move():" ++ newline ++ "kill_switch.is_set: "
  ++ (if k then "True" else "False").

(** One test of [while not self.kill_switch.is_set()] and, if it
    passes, one run of the loop body. *)
Definition await_move_round (attempts : nat) : M round_end :=
  killed <- kill_switch_set ;;
  if killed then
    k <- kill_switch_set ;;
    raise (ExitNicLink (exit_message k))
  else
    game_over_set ;;;          (* argument of [logger.debug] *)
    catch_NoMove_IllegalMove
      (over <- game_over_set ;;
       if over then ret (Return None)
       else
         moved <- check_for_move ;;
         (if truthy moved then
            move <- get_last_move ;;
            if str_truthy move then ret (Return (Some move))
            else ret (Continue attempts)
          else ret (Continue attempts)))
      (sleep NO_MOVE_DELAY ;;; ret (Continue (attempts + 1)))
      (fun _ => sleep NO_MOVE_DELAY ;;; ret (Continue (attempts + 1))).

(** [await_move], polling at most [fuel] rounds; [None] when the loop
    is still running after them. *)
Fixpoint await_move_loop (fuel attempts : nat) (st : NicLinkManager)
  : option (result (option string) * NicLinkManager) :=
  match fuel with
  | 0 => None
  | S fuel' =>
      match await_move_round attempts st with
      | (Ret (Return v), st') => Some (Ret v, st')
      | (Ret (Continue attempts'), st') => await_move_loop fuel' attempts' st'
      | (Raise e, st') => Some (Raise e, st')
      end
  end.

Definition await_move (fuel : nat) (st : NicLinkManager)
  : option (result (option string) * NicLinkManager) :=
  await_move_loop fuel 0 st.

(** [dict | bool], the type of what [is_game_over] returns. *)
Inductive game_over_result : Type :=
| NotOver                                              (* [False] *)
| Over (over : bool) (winner : bool) (reason : string).

Definition is_game_over : M game_over_result :=
  gb <- get_game_board ;;
  if is_checkmate gb then ret (Over true (turn gb) "checkmate")
  else if is_stalemate gb then ret (Over true false "Is a stalemate")
  else if is_insufficient_material gb then
    ret (Over true false "Is insufficient material")
  else if is_fivefold_repetition gb then
    ret (Over true false "Is fivefold repetition.")
  else if is_seventyfive_moves gb then
    ret (Over true false
           ("A game is automatically drawn if the half-move clock"
            ++ " since a capture or pawn move is equal to or greater"
            ++ " than 150. Other means to end a game take precedence."))
  else ret NotOver.

(** *** Notions the properties are stated with *)

(** A manager with last move [lm] that has done nothing yet, and a
    manager that has done [es] more. *)
Definition base (lm : option string) : NicLinkManager :=
  {| game_board := new_board; last_move := lm; now := 0; effects := [] |}.

Definition extend (st : NicLinkManager) (es : list effect)
  : NicLinkManager :=
  {| game_board := game_board st; last_move := last_move st;
     now := now st; effects := (es ++ effects st)%list |}.

(** A computation that only reads the last move and lights leds: it
    returns what it returns on [base] and extends the manager by what
    it does there. *)
Definition framed {A : Type} (m : M A) : Prop :=
  forall st : NicLinkManager,
    m st = (fst (m (base (last_move st))),
            extend st (effects (snd (m (base (last_move st)))))).

(** What [show_board_diff] returns and does to the leds when the last
    move is [lm]. *)
Definition diff_outcome (lm : option string) (board1 board2 : Board)
  : result bool * list effect :=
  let '(r, st) := show_board_diff board1 board2 (base lm) in
  (r, effects st).

(** The manager after [n] calls of [check_for_move], whatever each of
    them returned or raised. *)
Fixpoint poll (n : nat) (st : NicLinkManager) : NicLinkManager :=
  match n with
  | 0 => st
  | S n' => poll n' (snd (check_for_move st))
  end.

(** The last move is absent or a well-formed move. *)
Definition valid_last_move (lm : option string) : bool :=
  match lm with
  | None => true
  | Some m => is_uci m
  end.

(** The errors of the board interface and of the rules engine, which
    the manager does not handle. *)
Definition lets_through (e : exn) : bool :=
  match e with
  | ValueError _ | NoNicLinkFen _ | IndexError => true
  | _ => false
  end.

(** The squares of the diff loop are squares of the board. *)
Definition diff_squares_ok : bool :=
  forallb (fun na =>
             match parse_square (square_name na),
                   square_cords (square_name na) with
             | Ret _, Ret (_, r) => ((0 <=? r) && (r <? 8))%Z
             | _, _ => false
             end) diff_loop_squares.

(** *** Further methods *)

(** [opponent_moved(move)] *)
Definition opponent_moved (move : string) : M unit :=
  put_last_move (Some move) ;;;
  set_move_leds move.

(** Do the two boards hold different pieces on the square [na] of the
    diff loop: [na] is the rank (0 based) and the code of the file
    letter. *)
Definition differs_on (board1 board2 : Board) (na : nat * nat) : bool :=
  match parse_square (square_name na) with
  | Ret sq => piece_ne (piece_at board1 sq) (piece_at board2 sq)
  | Raise _ => false
  end.

(** Is the square named in the last move [lm]. *)
Definition named_in (lm : option string) (na : nat * nat) : bool :=
  match lm with
  | Some m => str_truthy m && py_in (square_name na) m
  | None => false
  end.

(** Does the square hold different pieces and lie outside the last move. *)
Definition differs_at (lm : option string) (board1 board2 : Board)
           (na : nat * nat) : bool :=
  differs_on board1 board2 na && negb (named_in lm na).

(** Does some square the diff loop visits do so. *)
Definition differs_outside_last_move (lm : option string)
           (board1 board2 : Board) : bool :=
  existsb (differs_at lm board1 board2) diff_loop_squares.

(** What the body of the diff loop does to [diff_map] on the square [na]:
    a differing square replaces the row of its rank. *)
Definition diff_map_step (board1 board2 : Board) (na : nat * nat)
           (diff_map : led_map) : led_map :=
  if differs_on board1 board2 na
  then list_set (fst na) (substring 0 8 (one_at (snd na - 97))) diff_map
  else diff_map.

(** The file, among a to g, of the last square of [rank] the diff loop
    finds different: the one on the highest file. *)
Definition last_differing_file (board1 board2 : Board) (rank : nat)
  : option nat :=
  find (fun f => differs_on board1 board2 (rank, 97 + f))
       [6; 5; 4; 3; 2; 1; 0].

(** The squares lit in the diff map: on each rank, that square only. *)
Definition lit_in_diff (board1 board2 : Board) (file rank : nat) : bool :=
  match last_differing_file board1 board2 rank with
  | Some f => file =? f
  | None => false
  end.

(** A led map of eight rows of eight characters, "1" on the squares where
    [on] holds and "0" elsewhere. *)
Definition led_map_shows (on : nat -> nat -> bool) (m : led_map) : Prop :=
  List.length m = 8
  /\ (forall row, In row m -> String.length row = 8)
  /\ (forall file rank, file < 8 -> rank < 8 ->
         led_at m file rank = Some (led_char (on file rank))).

(** What [show_board_diff] hands the board interface, [lm] being the last
    move: the diff map when some square it visits differs outside the
    last move, and otherwise the led map of the last move, or nothing
    when there is no last move. *)
Definition diff_display (lm : option string) (board1 board2 : Board)
           (es : list effect) : Prop :=
  if differs_outside_last_move lm board1 board2
  then exists diff_map,
         es = [SetAllLeds diff_map]
         /\ led_map_shows (lit_in_diff board1 board2) diff_map
  else match lm with
       | Some m =>
           exists move_map,
             es = [SetAllLeds move_map]
             /\ led_map_shows (lit (origin m) (destination m)) move_map
       | None => es = []
       end.

End Manager.

Arguments NicLinkManager {engine}.
Arguments M {engine} A.

End Driver.

(** ** Move submission of a lichess game: [Game] of [lichess/__main__.py] *)
Module Lichess.

(** What [berserk_board_client.make_move] does: it returns, or it raises
    a [ResponseError] whose text is [msg]. *)
Inductive reply : Type :=
| Accepted
| ResponseError (msg : string).

(** The outside of one call of [make_move], round by round of its
    [while] loop: what [nl_inst.game_over.is_set()] answers at the test
    of the round and what the server replies to the submission of the
    round. *)
Record Env : Type := {
  game_over_is_set : nat -> bool;
  server_reply : nat -> reply
}.

Inductive effect : Type :=
| Submit (game_id : string) (move : string)
| Sleep (secs : nat)
| ClockGameOver
| ClockWhiteWon
| ClockBlackWon
| SetGameOver            (* [nl_inst.game_over.set()] *)
| Beep
| GameoverLights
| LightsOut.

Record Game : Type := {
  game_id : string;
  response_error_on_last_attempt : bool;
  chess_clock : bool;          (* is there an external clock *)
  effects : list effect        (* latest first *)
}.

Definition emit (e : effect) (g : Game) : Game :=
  {| game_id := game_id g;
     response_error_on_last_attempt := response_error_on_last_attempt g;
     chess_clock := chess_clock g;
     effects := e :: effects g |}.

Definition set_flag (b : bool) (g : Game) : Game :=
  {| game_id := game_id g;
     response_error_on_last_attempt := b;
     chess_clock := chess_clock g;
     effects := effects g |}.

Definition signal_move (g : Game) : Game := set_flag false g.

(** [game_done(winner)]: always ends by raising [NicLinkGameOver]. *)
Definition game_done (winner : option string) (g : Game) : exn * Game :=
  let g :=
    if chess_clock g then
      match winner with
      | None => emit ClockGameOver g
      | Some w => if String.eqb w "white" then emit ClockWhiteWon g
                  else emit ClockBlackWon g
      end
    else g in
  let g := emit SetGameOver g in
  let g := emit Beep g in
  let g := emit GameoverLights g in
  let g := emit (Sleep 3) g in
  let g := emit LightsOut g in
  (NicLinkGameOver "Game over", g).

Definition not_your_turn : string := "Not your turn, or game already over".

(** How one round of the [while] loop of [make_move] ends. *)
Inductive round_end : Type :=
| Returned           (* [return] *)
| Broke              (* [break] *)
| Continued          (* [continue] *)
| Raised (e : exn).

(** The [try] statement in the loop, given the reply of the server. *)
Definition make_move_round (move : option string) (r : reply) (g : Game)
  : round_end * Game :=
  match move with
  | None => (Broke, g)         (* [IllegalMove("Move is None")], caught *)
  | Some move =>
      let g := emit (Submit (game_id g) move) g in
      match r with
      | Accepted => (Returned, signal_move g)
      | ResponseError err =>
          if Driver.py_in not_your_turn err then (Broke, g)
          else
            let g := emit (Sleep 3) g in
            if response_error_on_last_attempt g then
              let '(e, g) := game_done None (set_flag false g) in
              (Raised e, g)
            else (Continued, set_flag true g)
      end
  end.

(** [make_move], from round [round] on, for at most [fuel] rounds;
    [None] when the loop is still running after them. *)
Fixpoint make_move_loop (env : Env) (fuel round : nat)
         (move : option string) (g : Game)
  : option (result unit * Game) :=
  match fuel with
  | 0 => None
  | S fuel' =>
      if game_over_is_set env round then Some (Ret tt, g)
      else
        match make_move_round move (server_reply env round) g with
        | (Returned, g') => Some (Ret tt, g')
        | (Broke, g') => Some (Ret tt, g')
        | (Continued, g') => make_move_loop env fuel' (S round) move g'
        | (Raised e, g') => Some (Raise e, g')
        end
  end.

Definition make_move (env : Env) (fuel : nat) (move : option string)
           (g : Game) : option (result unit * Game) :=
  make_move_loop env fuel 0 move g.

(** Whether [game_done] ran: it is the only place that sets the
    game-over event. *)
Definition game_done_ran (g : Game) : bool :=
  existsb (fun e => match e with SetGameOver => true | _ => false end)
          (effects g).

(** A rejection other than "not your turn, or game already over". *)
Definition transient (r : reply) : bool :=
  match r with
  | Accepted => false
  | ResponseError err => negb (Driver.py_in not_your_turn err)
  end.

(** The rejection that says so. *)
Definition terminal (r : reply) : bool :=
  match r with
  | Accepted => false
  | ResponseError err => Driver.py_in not_your_turn err
  end.

(** A server that is busy twice, and a server that then says the turn
    has passed. *)
Definition busy : reply := ResponseError "HTTP 429: Too Many Requests".

Definition busy_server : Env :=
  {| game_over_is_set := fun _ => false;
     server_reply := fun _ => busy |}.

Definition busy_then_late_server : Env :=
  {| game_over_is_set := fun _ => false;
     server_reply := fun round =>
       match round with
       | 0 => busy
       | _ => ResponseError ("HTTP 400: " ++ not_your_turn)
       end |}.

(** A game just started, with an external clock. *)
Definition fresh_game : Game :=
  {| game_id := "abcd1234";
     response_error_on_last_attempt := false;
     chess_clock := true;
     effects := [] |}.

(** *** The end of a game *)

(** [d[key]] on a [dict] with [str] keys, given as the list of its items. *)
Fixpoint dict_getitem (d : list (string * string)) (key : string)
  : result string :=
  match d with
  | [] => Raise KeyError
  | (k, v) :: d' => if String.eqb k key then Ret v else dict_getitem d' key
  end.

(** [key in d] *)
Definition dict_contains (d : list (string * string)) (key : string) : bool :=
  existsb (fun kv => String.eqb (fst kv) key) d.

(** The [while True: nl_inst.beep(); time.sleep(1)] loop of
    [check_for_game_over], for [fuel] rounds. *)
Fixpoint beep_forever (fuel : nat) (g : Game) : option (result unit * Game) :=
  match fuel with
  | 0 => None
  | S fuel' => beep_forever fuel' (emit (Sleep 1) (emit Beep g))
  end.

(** [check_for_game_over(game_state)], [over] being what
    [nl_inst.game_over.is_set()] answers; [None] when it is still running
    after [fuel] rounds of its loop. *)
Definition check_for_game_over (fuel : nat) (over : bool)
           (game_state : list (string * string)) (g : Game)
  : option (result unit * Game) :=
  match dict_getitem game_state "status" with
  | Raise e => Some (Raise e, g)
  | Ret status =>
      if String.eqb status "gameFull" then beep_forever fuel g
      else if dict_contains game_state "winner" then
        match dict_getitem game_state "winner" with
        | Raise e => Some (Raise e, g)
        | Ret winner =>
            let '(e, g') := game_done (Some winner) g in Some (Raise e, g')
        end
      else if over then
        match dict_getitem game_state "winner" with
        | Raise e => Some (Raise e, g)
        | Ret winner =>
            let '(e, g') := game_done (Some winner) g in Some (Raise e, g')
        end
      else Some (Ret tt, g)
  end.

(** The submissions among effects, and the signals sent to the clock. *)
Definition submitted (es : list effect) : list string :=
  flat_map (fun e => match e with
                     | Submit _ m => [m]
                     | _ => []
                     end) es.

Definition clock_signals (es : list effect) : list effect :=
  filter (fun e => match e with
                   | ClockGameOver | ClockWhiteWon | ClockBlackWon => true
                   | _ => false
                   end) es.

End Lichess.

(** ** A small rules engine for concrete runs

    An implementation of [ChessEngine] that reads and writes board fens,
    moves pieces between squares, and knows the legal moves of the standard
    starting position and of the position after 1. e4, and one checkmate;
    enough to run the manager on concrete games. *)
Module Book.

(** A piece placement: 64 squares, a1 first, h8 last. *)
Definition placement : Type := list (option Piece).

Definition piece_of_symbol (c : ascii) : option Piece :=
  match c with
  | "P" => Some (mkPiece PAWN true)   | "p" => Some (mkPiece PAWN false)
  | "N" => Some (mkPiece KNIGHT true) | "n" => Some (mkPiece KNIGHT false)
  | "B" => Some (mkPiece BISHOP true) | "b" => Some (mkPiece BISHOP false)
  | "R" => Some (mkPiece ROOK true)   | "r" => Some (mkPiece ROOK false)
  | "Q" => Some (mkPiece QUEEN true)  | "q" => Some (mkPiece QUEEN false)
  | "K" => Some (mkPiece KING true)   | "k" => Some (mkPiece KING false)
  | _ => None
  end%char.

Definition symbol_of_piece (p : Piece) : ascii :=
  match piece_type p, color p with
  | PAWN, true => "P"   | PAWN, false => "p"
  | KNIGHT, true => "N" | KNIGHT, false => "n"
  | BISHOP, true => "B" | BISHOP, false => "b"
  | ROOK, true => "R"   | ROOK, false => "r"
  | QUEEN, true => "Q"  | QUEEN, false => "q"
  | KING, true => "K"   | KING, false => "k"
  end%char.

Fixpoint parse_rank (s : string) : option (list (option Piece)) :=
  match s with
  | EmptyString => Some []
  | String c s' =>
      match parse_rank s' with
      | None => None
      | Some rest =>
          let n := nat_of_ascii c in
          if (49 <=? n) && (n <=? 56) then Some (repeat None (n - 48) ++ rest)%list
          else match piece_of_symbol c with
               | Some p => Some (Some p :: rest)
               | None => None
               end
      end
  end.

Fixpoint parse_ranks (segs : list string) : option (list (list (option Piece))) :=
  match segs with
  | [] => Some []
  | s :: segs' =>
      match parse_rank s, parse_ranks segs' with
      | Some r, Some rs =>
          if List.length r =? 8 then Some (r :: rs) else None
      | _, _ => None
      end
  end.

Definition parse_board_fen (fen : string) : option placement :=
  let segs := Bluetooth.split_on "/"%char "" fen in
  if List.length segs =? 8 then
    match parse_ranks segs with
    | Some ranks => Some (concat (rev ranks))
    | None => None
    end
  else None.

(** One rank, with [c] empty squares pending. *)
Fixpoint render_rank (r : list (option Piece)) (c : nat) : string :=
  match r with
  | [] => if c =? 0 then "" else py_str_nat c
  | None :: r' => render_rank r' (S c)
  | Some p :: r' =>
      (if c =? 0 then "" else py_str_nat c)
      ++ String (symbol_of_piece p) (render_rank r' 0)
  end.

(** The ranks of a placement, rank 8 first. *)
Definition ranks_of (p : placement) : list (list (option Piece)) :=
  map (fun k => firstn 8 (skipn ((7 - k) * 8) p)) (seq 0 8).

Definition render_board_fen (p : placement) : string :=
  String.concat "/" (map (fun r => render_rank r 0) (ranks_of p)).

(** The diagram [str(board)] prints. *)
Definition render_diagram (p : placement) : string :=
  String.concat Driver.newline
    (map (fun r =>
            String.concat " "
              (map (fun sq => match sq with
                              | Some pc => String (symbol_of_piece pc) ""
                              | None => "."
                              end) r))
         (ranks_of p)).

(** A move: its text in coordinate notation. *)
Definition move : Type := string.

Definition square_index (f r : ascii) : nat :=
  (nat_of_ascii r - 49) * 8 + (nat_of_ascii f - 97).

(** Take what stands on the origin to the destination. *)
Definition apply_move (m : move) (p : placement) : placement :=
  match m with
  | String f1 (String r1 (String f2 (String r2 _))) =>
      let src := square_index f1 r1 in
      let dst := square_index f2 r2 in
      Leds.list_set dst (nth src p None) (Leds.list_set src None p)
  | _ => p
  end.

(** A board: the placement and side to move it was set up with, and the
    moves pushed since, latest first. *)
Record board : Type := {
  setup : placement;
  setup_turn : bool;
  stack : list move
}.

Definition position (b : board) : placement :=
  fold_right apply_move (setup b) (stack b).

Definition fen (b : board) : string := render_board_fen (position b).

Definition side_to_move (b : board) : bool :=
  if Nat.even (List.length (stack b)) then setup_turn b
  else negb (setup_turn b).

Definition starting_fen : string :=
  "rnbqkbnr/pppppppp/8/8/8/8/PPPPPPPP/RNBQKBNR".

Definition starting_placement : placement :=
  match parse_board_fen starting_fen with
  | Some p => p
  | None => []
  end.

Definition starting_board : board :=
  {| setup := starting_placement; setup_turn := true; stack := [] |}.

(** The twenty legal moves of the starting position. *)
Definition opening_moves : list move :=
  [ "g1h3"; "g1f3"; "b1c3"; "b1a3";
    "h2h3"; "g2g3"; "f2f3"; "e2e3"; "d2d3"; "c2c3"; "b2b3"; "a2a3";
    "h2h4"; "g2g4"; "f2f4"; "e2e4"; "d2d4"; "c2c4"; "b2b4"; "a2a4" ].

(** The position after 1. e4 and the twenty legal replies to it. *)
Definition after_e2e4_fen : string :=
  "rnbqkbnr/pppppppp/8/8/4P3/8/PPPP1PPP/RNBQKBNR".

Definition replies_to_e2e4 : list move :=
  [ "g8h6"; "g8f6"; "b8c6"; "b8a6";
    "h7h6"; "g7g6"; "f7f6"; "e7e6"; "d7d6"; "c7c6"; "b7b6"; "a7a6";
    "h7h5"; "g7g5"; "f7f5"; "e7e5"; "d7d5"; "c7c5"; "b7b5"; "a7a5" ].

(** The position after 1. f3 e5 2. g4 Qh4, white to move and mated. *)
Definition fools_mate_fen : string :=
  "rnb1kbnr/pppp1ppp/8/4p3/6Pq/5P2/PPPPP2P/RNBQKBNR".

Definition book_legal_moves (b : board) : list move :=
  if String.eqb (fen b) starting_fen && side_to_move b
  then opening_moves
  else if String.eqb (fen b) after_e2e4_fen && negb (side_to_move b)
       then replies_to_e2e4
       else [].

Definition book_is_checkmate (b : board) : bool :=
  String.eqb (fen b) fools_mate_fen && side_to_move b.

Definition read_board (turn : bool) (s : string) : option board :=
  match parse_board_fen s with
  | Some p => Some {| setup := p; setup_turn := turn; stack := [] |}
  | None => None
  end.

Definition book_push (m : move) (b : board) : board :=
  {| setup := setup b; setup_turn := setup_turn b; stack := m :: stack b |}.

Definition book_pop (b : board) : option (move * board) :=
  match stack b with
  | [] => None
  | m :: s =>
      Some (m, {| setup := setup b; setup_turn := setup_turn b; stack := s |})
  end.

#[export] Instance engine : ChessEngine.
Proof.
  refine {|
    Board := board;
    Move := move;
    new_board := starting_board;
    board_of_fen := read_board true;
    set_board_fen := fun b s => read_board (setup_turn b) s;
    board_fen := fen;
    board_str := fun b => render_diagram (position b);
    piece_at := fun b sq => nth sq (position b) None;
    turn := side_to_move;
    legal_moves := book_legal_moves;
    push := book_push;
    pop := book_pop;
    uci := fun m => m;
    is_checkmate := book_is_checkmate;
    is_stalemate := fun _ => false;
    is_insufficient_material := fun _ => false;
    is_fivefold_repetition := fun _ => false;
    is_seventyfive_moves := fun _ => false
  |}.
  - intros m [s t k]. reflexivity.
  - intros [s t k] [s' t' k'] m. unfold book_pop, book_push. simpl.
    destruct k as [|m0 k0]; [discriminate|].
    intros H. inversion H. reflexivity.
Defined.

(** The fen of the starting position after a move of its book. *)
Definition fen_after (m : move) : string :=
  fen (book_push m starting_board).

(** A position no single move gives from the start: both centre pawns
    are on the fourth rank. *)
Definition two_pawns_fen : string :=
  "rnbqkbnr/pppppppp/8/8/3PP3/8/PPP2PPP/RNBQKBNR".

(** The board [set_board_fen] makes of a fen on a new board. *)
Definition board_with (s : string) : board :=
  match read_board true s with
  | Some b => b
  | None => starting_board
  end.

(** The game after 1. e4. *)
Definition after_e2e4 : board := book_push "e2e4" starting_board.

(** A board interface that always hands out the same fen. *)
Definition still_world (fen : option string) (over killed : bool)
  : Driver.World :=
  {| Driver.nl_get_fen := fun _ => fen;
     Driver.game_over_is_set := fun _ => over;
     Driver.kill_switch_is_set := fun _ => killed |}.

(** A manager right after [reset()] and [set_game_board(b)]. *)
Definition manager_on (b : board) (lm : option string)
  : Driver.NicLinkManager :=
  {| Driver.game_board := (b : @Board engine);
     Driver.last_move := lm;
     Driver.now := 0;
     Driver.effects := [] |}.

End Book.

(** * Properties *)

(** ** The bluetooth codec *)
Module BluetoothProofs.
Import Bluetooth.

Lemma column_step_appends_delimiter (data : list Z) (k : nat) (FEN s : string) :
  k < 8 -> column_step data k FEN = Ret s -> exists s', s = s' ++ "/".
Proof.
  intros Hk. unfold column_step.
  destruct (row_loop _ _) as [st|e]; simpl; [|discriminate].
  replace (k =? 8) with false by (symmetry; apply Nat.eqb_neq; lia).
  simpl. intros H. inversion H. eauto.
Qed.

Lemma column_loop_last (data : list Z) (cols : list nat) (k : nat) (FEN s : string) :
  column_loop data (cols ++ [k]) FEN = Ret s ->
  exists FEN', column_step data k FEN' = Ret s.
Proof.
  revert FEN. induction cols as [|c cols IH]; intros FEN; simpl.
  - destruct (column_step data k FEN) as [s0|e] eqn:E; simpl; [|discriminate].
    intros H. inversion H. subst. eauto.
  - destruct (column_step data c FEN) as [s0|e]; simpl; [|discriminate].
    apply IH.
Qed.

(** Whatever the snapshot, the string [board_fen] returns ends with the
    delimiter. *)
Lemma board_fen_ends_with_delimiter (data : list Z) (s : string) :
  board_fen data = Ret s -> exists s', s = s' ++ "/".
Proof.
  unfold board_fen. change (seq 0 8) with (seq 0 7 ++ [7])%list.
  intros H. apply column_loop_last in H. destruct H as [FEN' H].
  apply column_step_appends_delimiter in H; [assumption|lia].
Qed.

Lemma convertDict_returns (s : Z) :
  (0 <= s <= 12)%Z -> exists p, convertDict s = Ret p.
Proof.
  intros H.
  assert (E : (s = 0 \/ s = 1 \/ s = 2 \/ s = 3 \/ s = 4 \/ s = 5 \/ s = 6
               \/ s = 7 \/ s = 8 \/ s = 9 \/ s = 10 \/ s = 11 \/ s = 12)%Z)
    by lia.
  repeat (destruct E as [->|E]; [simpl; eauto|]). subst s. simpl. eauto.
Qed.

Lemma square_step_returns (s : Z) (st : string * nat) :
  (0 <= s <= 12)%Z -> exists st', square_step s st = Ret st'.
Proof.
  intros H. destruct st as [FEN c]. unfold square_step.
  destruct (s =? 0)%Z.
  - destruct (c + 1 =? 8); eauto.
  - unfold fen_constructor.
    destruct (convertDict_returns s H) as [p ->].
    destruct (c =? 0); simpl; eauto.
Qed.

Lemma byte_step_returns (b : Z) (st : string * nat) :
  valid_byte b = true -> exists st', byte_step b st = Ret st'.
Proof.
  unfold valid_byte. intros H.
  apply andb_true_iff in H. destruct H as [H H4].
  apply andb_true_iff in H. destruct H as [H H3].
  apply andb_true_iff in H. destruct H as [H1 H2].
  apply Z.leb_le in H1, H3, H4. apply Z.ltb_lt in H2.
  unfold byte_step.
  destruct (square_step_returns (Z.shiftr b 4) st) as [st1 ->].
  { split; [apply Z.shiftr_nonneg; assumption|assumption]. }
  simpl. apply square_step_returns.
  split; [apply Z.land_nonneg; left; assumption|assumption].
Qed.

Lemma row_loop_returns (row : list Z) :
  forallb valid_byte row = true ->
  forall st, exists st', row_loop row st = Ret st'.
Proof.
  induction row as [|b row IH]; simpl; intros H st; [eauto|].
  apply andb_true_iff in H. destruct H as [Hb Hrow].
  destruct (byte_step_returns b st Hb) as [st1 ->]. simpl.
  apply IH. assumption.
Qed.

Lemma forallb_skipn {A : Type} (f : A -> bool) (n : nat) (l : list A) :
  forallb f l = true -> forallb f (skipn n l) = true.
Proof.
  revert l. induction n as [|n IH]; intros [|x l]; simpl; auto.
  intros H. apply andb_true_iff in H. apply IH. tauto.
Qed.

Lemma forallb_firstn {A : Type} (f : A -> bool) (n : nat) (l : list A) :
  forallb f l = true -> forallb f (firstn n l) = true.
Proof.
  revert l. induction n as [|n IH]; intros [|x l]; simpl; auto.
  intros H. apply andb_true_iff in H. destruct H as [-> H]. simpl.
  apply IH. assumption.
Qed.

Lemma forallb_rev {A : Type} (f : A -> bool) (l : list A) :
  forallb f l = true -> forallb f (rev l) = true.
Proof.
  intros H. apply forallb_forall. intros x Hx.
  rewrite forallb_forall in H. apply H. apply in_rev. assumption.
Qed.

Lemma column_loop_returns (data : list Z) (cols : list nat) :
  forallb valid_byte data = true ->
  forall FEN, exists s, column_loop data cols FEN = Ret s.
Proof.
  intros Hd. induction cols as [|k cols IH]; simpl; intros FEN; [eauto|].
  unfold column_step.
  destruct (row_loop_returns
              (rev (py_slice (k * 4) (k * 4 + 4) data))
              ltac:(apply forallb_rev, forallb_firstn, forallb_skipn; exact Hd)
              (FEN, 0)) as [st ->].
  simpl. destruct (negb (k =? 8)); simpl; apply IH.
Qed.

(** On every valid snapshot [board_fen] returns a string. *)
Lemma board_fen_returns (data : list Z) :
  valid_snapshot data = true -> exists s, board_fen data = Ret s.
Proof.
  unfold valid_snapshot. intros H. apply andb_true_iff in H.
  apply column_loop_returns. tauto.
Qed.

(** So that on every valid snapshot the string returned ends with the
    delimiter. *)
Lemma board_fen_valid_ends_with_delimiter (data : list Z) :
  valid_snapshot data = true -> exists s', board_fen data = Ret (s' ++ "/").
Proof.
  intros H. destruct (board_fen_returns data H) as [s Hs].
  destruct (board_fen_ends_with_delimiter data s Hs) as [s' ->]. eauto.
Qed.

(** C2, on the snapshot the module itself decodes when it is loaded (the
    standard starting position) and on the position after e2e4:
    [board_fen] puts a delimiter after the last rank too, and it drops the
    empty squares that end a rank which is not empty (the fourth rank
    comes out as "4P", five squares), so that neither string has eight
    segments of eight squares. *)
Theorem board_fen_trailing_delimiter_and_dropped_run :
  valid_snapshot module_self_test_data = true
  /\ board_fen module_self_test_data
     = Ret "rnbqkbnr/pppppppp/8/8/8/8/PPPPPPPP/RNBQKBNR/"
  /\ spec_placement_ok "rnbqkbnr/pppppppp/8/8/8/8/PPPPPPPP/RNBQKBNR/" = false
  /\ valid_snapshot after_e2e4_data = true
  /\ board_fen after_e2e4_data
     = Ret "rnbqkbnr/pppppppp/8/8/4P/8/PPPP1PPP/RNBQKBNR/"
  /\ map squares_of_segment
         (split_on "/"%char "" "rnbqkbnr/pppppppp/8/8/4P/8/PPPP1PPP/RNBQKBNR/")
     = [8; 8; 8; 8; 5; 8; 8; 8; 0].
Proof. repeat split. Qed.

End BluetoothProofs.

(** ** The led maps *)
Module LedsProofs.
Import Leds.

Lemma is_file_search (f : ascii) :
  is_file f = true -> file_search f FILES 0 = (true, file_of f).
Proof.
  destruct f as [[] [] [] [] [] [] [] []]; intros H;
    try discriminate H; reflexivity.
Qed.

Lemma is_rank_int (r : ascii) :
  is_rank r = true -> py_int_of_char r = Ret (Z.of_nat (rank_of r) + 1)%Z.
Proof.
  destruct r as [[] [] [] [] [] [] [] []]; intros H;
    try discriminate H; reflexivity.
Qed.

Lemma file_of_bound (f : ascii) : is_file f = true -> file_of f < 8.
Proof.
  unfold is_file, file_of. intros H.
  apply andb_true_iff in H. destruct H as [H1 H2].
  apply Nat.leb_le in H1, H2. lia.
Qed.

Lemma rank_of_bound (r : ascii) : is_rank r = true -> rank_of r < 8.
Proof.
  unfold is_rank, rank_of. intros H.
  apply andb_true_iff in H. destruct H as [H1 H2].
  apply Nat.leb_le in H1, H2. lia.
Qed.

(** [square_cords] reads the first two characters of its argument. *)
Lemma square_cords_of_square (f r : ascii) (rest : string) :
  is_file f = true -> is_rank r = true ->
  square_cords (String f (String r rest))
  = Ret (file_of f, Z.of_nat (rank_of r)).
Proof.
  intros Hf Hr. unfold square_cords, py_getitem.
  cbn [String.get rbind].
  rewrite (is_rank_int r Hr). cbn [rbind].
  rewrite (is_file_search f Hf). cbn [negb].
  f_equal. f_equal. lia.
Qed.

Lemma all_cords_ok_true : all_cords_ok = true.
Proof. vm_compute. reflexivity. Qed.

Lemma led_map_for_cords_ok (f1 r1 f2 r2 : nat) :
  f1 < 8 -> r1 < 8 -> f2 < 8 -> r2 < 8 ->
  exists m, led_map_for_cords (f1, Z.of_nat r1) (f2, Z.of_nat r2) = Ret m
            /\ led_map_ok (f1, r1) (f2, r2) m = true.
Proof.
  intros H1 H2 H3 H4.
  pose proof all_cords_ok_true as H. unfold all_cords_ok in H.
  rewrite forallb_forall in H.
  specialize (H f1 (proj2 (in_seq 8 0 f1) ltac:(lia))).
  rewrite forallb_forall in H.
  specialize (H r1 (proj2 (in_seq 8 0 r1) ltac:(lia))).
  rewrite forallb_forall in H.
  specialize (H f2 (proj2 (in_seq 8 0 f2) ltac:(lia))).
  rewrite forallb_forall in H.
  specialize (H r2 (proj2 (in_seq 8 0 r2) ltac:(lia))).
  destruct (led_map_for_cords _ _) as [m|e]; [eauto|discriminate].
Qed.

Lemma led_map_ok_spec (c1 c2 : nat * nat) (m : led_map) :
  led_map_ok c1 c2 m = true ->
  List.length m = 8
  /\ (forall row, In row m -> String.length row = 8)
  /\ (forall file rank, file < 8 -> rank < 8 ->
        led_at m file rank = Some (led_char (lit c1 c2 file rank))).
Proof.
  unfold led_map_ok. intros H.
  apply andb_true_iff in H. destruct H as [H H3].
  apply andb_true_iff in H. destruct H as [H1 H2].
  split; [apply Nat.eqb_eq; assumption|]. split.
  - rewrite forallb_forall in H2. intros row Hin.
    apply Nat.eqb_eq. apply H2. assumption.
  - intros file rank Hf Hr. rewrite forallb_forall in H3.
    specialize (H3 rank (proj2 (in_seq 8 0 rank) ltac:(lia))).
    rewrite forallb_forall in H3.
    specialize (H3 file (proj2 (in_seq 8 0 file) ltac:(lia))).
    destruct (led_at m file rank) as [c|]; [|discriminate].
    apply Ascii.eqb_eq in H3. congruence.
Qed.

Lemma is_uci_inv (move : string) :
  is_uci move = true ->
  exists f1 r1 f2 r2 promo,
    move = String f1 (String r1 (String f2 (String r2 promo)))
    /\ is_file f1 = true /\ is_rank r1 = true
    /\ is_file f2 = true /\ is_rank r2 = true.
Proof.
  destruct move as [|f1 [|r1 [|f2 [|r2 promo]]]];
    try (intros H; discriminate H).
  unfold is_uci. intros H.
  apply andb_true_iff in H. destruct H as [H _].
  apply andb_true_iff in H. destruct H as [H Hr2].
  apply andb_true_iff in H. destruct H as [H Hf2].
  apply andb_true_iff in H. destruct H as [Hf1 Hr1].
  exists f1, r1, f2, r2, promo. repeat split; assumption.
Qed.

(** The led map of a well-formed move. *)
Lemma build_led_map_for_move_of_uci (move : string) :
  is_uci move = true ->
  exists m,
    build_led_map_for_move move = Ret m
    /\ List.length m = 8
    /\ (forall row, In row m -> String.length row = 8)
    /\ (forall file rank, file < 8 -> rank < 8 ->
          led_at m file rank
          = Some (led_char (lit (origin move) (destination move) file rank))).
Proof.
  intros H. destruct (is_uci_inv move H)
    as (f1 & r1 & f2 & r2 & promo & -> & Hf1 & Hr1 & Hf2 & Hr2).
  unfold build_led_map_for_move, py_prefix, py_suffix. simpl.
  rewrite (square_cords_of_square f1 r1 "" Hf1 Hr1). simpl.
  rewrite (square_cords_of_square f2 r2 _ Hf2 Hr2). simpl.
  destruct (led_map_for_cords_ok (file_of f1) (rank_of r1)
              (file_of f2) (rank_of r2)) as (m & Hm & Hok);
    auto using file_of_bound, rank_of_bound.
  exists m. split; [assumption|].
  apply led_map_ok_spec. assumption.
Qed.

(** C4: for a well-formed move in coordinate notation,
    [build_led_map_for_move] returns eight rows of eight characters in
    which the character of a square is "1" exactly when the square is the
    origin or the destination of the move, and "0" otherwise; this covers
    both the branch for two ranks (one bit in each of the two rows) and
    the branch for a shared rank (the two file bits in that one row). *)
Theorem build_led_map_for_move_lights_the_move (move : string) :
  is_uci move = true ->
  exists m,
    build_led_map_for_move move = Ret m
    /\ List.length m = 8
    /\ (forall row, In row m -> String.length row = 8)
    /\ (forall file rank, file < 8 -> rank < 8 ->
          led_at m file rank
          = Some (led_char (lit (origin move) (destination move) file rank))).
Proof. exact (build_led_map_for_move_of_uci move). Qed.

(** The theorem at the king's pawn opening and at a castling move. *)
Lemma build_led_map_for_move_lights_the_move_witness :
  (exists m, build_led_map_for_move "e2e4" = Ret m
             /\ led_at m 4 1 = Some "1"%char /\ led_at m 4 3 = Some "1"%char
             /\ led_at m 4 2 = Some "0"%char)
  /\ (exists m, build_led_map_for_move "e1g1" = Ret m
                /\ led_at m 4 0 = Some "1"%char /\ led_at m 6 0 = Some "1"%char
                /\ led_at m 5 0 = Some "0"%char).
Proof.
  split.
  - destruct (build_led_map_for_move_lights_the_move "e2e4" eq_refl)
      as (m & Hm & _ & _ & Hbits).
    exists m. split; [exact Hm|].
    repeat split; [apply (Hbits 4 1)|apply (Hbits 4 3)|apply (Hbits 4 2)]; lia.
  - destruct (build_led_map_for_move_lights_the_move "e1g1" eq_refl)
      as (m & Hm & _ & _ & Hbits).
    exists m. split; [exact Hm|].
    repeat split; [apply (Hbits 4 0)|apply (Hbits 6 0)|apply (Hbits 5 0)]; lia.
Defined.

End LedsProofs.

(** ** The board manager *)
Module DriverProofs.
Import Leds Driver.

Section Manager.
Context {engine : ChessEngine}.
Variable world : World.

Local Abbreviation M := (@Driver.M engine).
Local Abbreviation state := (@NicLinkManager engine).

(** *** Computations that read the last move and light leds *)

Lemma extend_nil (st : state) : extend st [] = st.
Proof. destruct st. reflexivity. Qed.

Lemma framed_ret {A : Type} (a : A) : framed (ret a).
Proof. intros st. unfold ret. simpl. rewrite extend_nil. reflexivity. Qed.

Lemma framed_raise {A : Type} (e : exn) : framed (@raise engine A e).
Proof. intros st. unfold raise. simpl. rewrite extend_nil. reflexivity. Qed.

Lemma framed_lift {A : Type} (r : result A) : framed (lift r).
Proof. intros st. unfold lift. simpl. rewrite extend_nil. reflexivity. Qed.

Lemma framed_get_last_move_field : framed get_last_move_field.
Proof.
  intros st. unfold get_last_move_field. simpl.
  rewrite extend_nil. reflexivity.
Qed.

Lemma framed_set_all_leds (m : led_map) : framed (set_all_leds m).
Proof. intros st. reflexivity. Qed.

Lemma framed_bind {A B : Type} (m : M A) (k : A -> M B) :
  framed m -> (forall a, framed (k a)) -> framed (bind m k).
Proof.
  intros Hm Hk st. unfold bind.
  rewrite (Hm st).
  set (lm := last_move st).
  assert (Hb : snd (m (base lm))
               = extend (base lm) (effects (snd (m (base lm))))).
  { rewrite (Hm (base lm)) at 1. reflexivity. }
  destruct (m (base lm)) as [[a|e] sb]; simpl in Hb |- *.
  - assert (Hlm : last_move sb = lm) by (rewrite Hb; reflexivity).
    rewrite (Hk a (extend st (effects sb))).
    rewrite (Hk a sb).
    change (last_move (extend st (effects sb))) with lm.
    rewrite Hlm. simpl.
    f_equal. unfold extend. simpl. f_equal.
    rewrite app_assoc. reflexivity.
  - reflexivity.
Qed.

Lemma framed_square_in_last_move (square : string) :
  framed (square_in_last_move square).
Proof.
  unfold square_in_last_move. apply framed_bind.
  - apply framed_get_last_move_field.
  - intros [lm|]; [destruct (str_truthy lm)|]; apply framed_ret.
Qed.

Lemma framed_set_move_leds (move : string) : framed (set_move_leds move).
Proof.
  unfold set_move_leds. apply framed_bind.
  - apply framed_lift.
  - intros m. apply framed_set_all_leds.
Qed.

Lemma framed_diff_step (b1 b2 : Board) (na : nat * nat)
      (acc : bool * list string * led_map) :
  framed (diff_step b1 b2 na acc).
Proof.
  unfold diff_step. destruct acc as [[diff squares] map].
  apply framed_bind; [apply framed_lift|]. intros sq.
  destruct (piece_ne _ _); [|apply framed_ret].
  apply framed_bind; [apply framed_square_in_last_move|]. intros inl.
  apply framed_bind; [apply framed_lift|]. intros cords.
  apply framed_bind; [apply framed_lift|]. intros map'.
  apply framed_ret.
Qed.

Lemma framed_diff_loop (b1 b2 : Board) (squares : list (nat * nat)) :
  forall acc, framed (diff_loop b1 b2 squares acc).
Proof.
  induction squares as [|na squares IH]; intros acc; simpl.
  - apply framed_ret.
  - apply framed_bind; [apply framed_diff_step|]. intros acc'. apply IH.
Qed.

Lemma framed_show_board_diff (b1 b2 : Board) :
  framed (show_board_diff b1 b2).
Proof.
  unfold show_board_diff.
  apply framed_bind; [apply framed_diff_loop|].
  intros [[diff squares] map].
  apply framed_bind; [|intros; apply framed_ret].
  destruct diff; [apply framed_set_all_leds|].
  apply framed_bind; [apply framed_get_last_move_field|].
  intros [lm|]; [apply framed_set_move_leds|apply framed_ret].
Qed.

(** [show_board_diff] touches nothing but the leds. *)
Lemma show_board_diff_eq (b1 b2 : Board) (st : state) :
  show_board_diff b1 b2 st
  = (fst (diff_outcome (last_move st) b1 b2),
     extend st (snd (diff_outcome (last_move st) b1 b2))).
Proof.
  rewrite (framed_show_board_diff b1 b2 st). unfold diff_outcome.
  destruct (show_board_diff b1 b2 (base (last_move st))). reflexivity.
Qed.

Ltac munfold :=
  cbv beta iota delta
      [bind ret raise lift get_last_move_field get_game_board
       square_in_last_move put_game_board put_last_move set_all_leds
       turn_off_all_leds sleep nl_interface_get_fen game_over_set
       kill_switch_set get_fen put_board_fen_on_board set_move_leds
       get_last_move].

(** *** [show_board_diff] returns, unless the last move is malformed *)

Lemma list_set_length {A : Type} (i : nat) (x : A) (l : list A) :
  List.length (list_set i x l) = List.length l.
Proof.
  revert i. induction l as [|y l IH]; intros [|i]; simpl; auto.
Qed.

Lemma np_setitem_U8_in_range (m : led_map) (r : Z) (s : string) :
  List.length m = 8 -> (0 <= r < 8)%Z ->
  np_setitem_U8 m r s = Ret (list_set (Z.to_nat r) (substring 0 8 s) m).
Proof.
  intros Hm Hr. unfold np_setitem_U8, py_index. rewrite Hm.
  replace ((0 <=? r)%Z && (r <? Z.of_nat 8)%Z) with true; [reflexivity|].
  symmetry. apply andb_true_iff. split; [apply Z.leb_le|apply Z.ltb_lt]; lia.
Qed.

Lemma diff_squares_ok_true : diff_squares_ok = true.
Proof. vm_compute. reflexivity. Qed.

Lemma diff_step_returns (b1 b2 : Board) (na : nat * nat)
      (diff : bool) (squares : list string) (map : led_map) (st : state) :
  In na diff_loop_squares -> List.length map = 8 ->
  exists diff' squares' map',
    diff_step b1 b2 na (diff, squares, map) st
    = (Ret (diff', squares', map'), st)
    /\ List.length map' = 8.
Proof.
  intros Hin Hlen.
  pose proof diff_squares_ok_true as Hok. unfold diff_squares_ok in Hok.
  rewrite forallb_forall in Hok. specialize (Hok na Hin).
  unfold diff_step.
  destruct (parse_square (square_name na)) as [sq|]; [|discriminate].
  destruct (square_cords (square_name na)) as [[f r]|]; [|discriminate].
  apply andb_true_iff in Hok. destruct Hok as [H0 H8].
  apply Z.leb_le in H0. apply Z.ltb_lt in H8.
  munfold. simpl.
  destruct (piece_ne _ _).
  - munfold. rewrite (np_setitem_U8_in_range map r _ Hlen (conj H0 H8)).
    destruct (last_move st) as [lm|]; [destruct (str_truthy lm)|];
      eexists _, _, _; (split; [reflexivity|]);
      rewrite list_set_length; assumption.
  - eexists _, _, _. split; [reflexivity|assumption].
Qed.

Lemma diff_loop_returns (b1 b2 : Board) (todo : list (nat * nat)) :
  (forall na, In na todo -> In na diff_loop_squares) ->
  forall (diff : bool) (squares : list string) (map : led_map) (st : state),
    List.length map = 8 ->
    exists diff' squares' map',
      diff_loop b1 b2 todo (diff, squares, map) st
      = (Ret (diff', squares', map'), st)
      /\ List.length map' = 8.
Proof.
  induction todo as [|na todo IH]; intros Hsub diff squares map st Hlen.
  - simpl. unfold ret. eauto.
  - cbn [diff_loop]. unfold bind.
    destruct (diff_step_returns b1 b2 na diff squares map st)
      as (d1 & s1 & m1 & E1 & L1); [apply Hsub; left; reflexivity|assumption|].
    rewrite E1. apply IH; [|assumption].
    intros na' Hin. apply Hsub. right. assumption.
Qed.

Lemma rbind_raise {A B : Type} (r : result A) (k : A -> result B) (e : exn) :
  rbind r k = Raise e ->
  r = Raise e \/ exists a, r = Ret a /\ k a = Raise e.
Proof.
  destruct r as [a|e']; simpl; intros H;
    [right; eauto|inversion H; left; reflexivity].
Qed.

Lemma square_cords_raises (square : string) (e : exn) :
  square_cords square = Raise e -> lets_through e = true.
Proof.
  unfold square_cords, py_getitem, py_int_of_char. intros H.
  repeat match type of H with
         | context [match ?x with _ => _ end] => destruct x; simpl in H
         end;
    try discriminate H; inversion H; reflexivity.
Qed.

Lemma np_setitem_U8_raises (m : led_map) (i : Z) (s : string) (e : exn) :
  np_setitem_U8 m i s = Raise e -> lets_through e = true.
Proof.
  unfold np_setitem_U8, py_index. intros H.
  repeat match type of H with
         | context [match ?x with _ => _ end] => destruct x; simpl in H
         | context [if ?x then _ else _] => destruct x; simpl in H
         end;
    try discriminate H; inversion H; reflexivity.
Qed.

Lemma py_list_setitem_raises {A : Type} (l : list A) (i : nat) (x : A) (e : exn) :
  py_list_setitem l i x = Raise e -> lets_through e = true.
Proof.
  unfold py_list_setitem. destruct (i <? List.length l); intros H;
    [discriminate H|inversion H; reflexivity].
Qed.

Lemma build_led_map_for_move_raises (move : string) (e : exn) :
  build_led_map_for_move move = Raise e -> lets_through e = true.
Proof.
  unfold build_led_map_for_move, led_map_for_cords. intros H.
  apply rbind_raise in H. destruct H as [H|(c1 & _ & H)];
    [eapply square_cords_raises; eassumption|].
  apply rbind_raise in H. destruct H as [H|(c2 & _ & H)];
    [eapply square_cords_raises; eassumption|].
  destruct (negb _).
  - apply rbind_raise in H. destruct H as [H|(m1 & _ & H)];
      eapply np_setitem_U8_raises; eassumption.
  - apply rbind_raise in H. destruct H as [H|(l1 & _ & H)];
      [eapply py_list_setitem_raises; eassumption|].
    apply rbind_raise in H. destruct H as [H|(l2 & _ & H)];
      [eapply py_list_setitem_raises; eassumption|].
    eapply np_setitem_U8_raises; eassumption.
Qed.

Lemma ZEROS_length : List.length ZEROS = 8.
Proof. reflexivity. Qed.

(** What [show_board_diff] lets out is an error of [build_led_map_for_move]
    on the last move. *)
Lemma diff_outcome_raises (lm : option string) (b1 b2 : Board) (e : exn) :
  fst (diff_outcome lm b1 b2) = Raise e -> lets_through e = true.
Proof.
  unfold diff_outcome, show_board_diff, bind.
  destruct (diff_loop_returns b1 b2 diff_loop_squares (fun _ H => H)
              false [] ZEROS (base lm) ZEROS_length)
    as (d & s & m & E & _).
  rewrite E. destruct d; simpl.
  - discriminate.
  - destruct lm as [lm|]; simpl; [|discriminate].
    unfold set_move_leds, bind, lift.
    destruct (build_led_map_for_move lm) as [mm|e'] eqn:Em; simpl.
    + discriminate.
    + intros H. inversion H. subst.
      eapply build_led_map_for_move_raises; eassumption.
Qed.

Lemma diff_outcome_returns (lm : option string) (b1 b2 : Board) :
  valid_last_move lm = true ->
  exists d, fst (diff_outcome lm b1 b2) = Ret d.
Proof.
  intros Hv. unfold diff_outcome, show_board_diff, bind.
  destruct (diff_loop_returns b1 b2 diff_loop_squares (fun _ H => H)
              false [] ZEROS (base lm) ZEROS_length)
    as (d & s & m & E & _).
  rewrite E. destruct d; simpl; [eauto|].
  destruct lm as [lm|]; simpl; [|eauto].
  unfold set_move_leds, bind, lift.
  destruct (LedsProofs.build_led_map_for_move_of_uci lm Hv)
    as (mm & Hmm & _).
  rewrite Hmm. simpl. eauto.
Qed.

(** *** What [show_board_diff] lights *)

(** The squares of the diff loop, by rank and file. *)
Lemma diff_squares_cords (na : nat * nat) :
  In na diff_loop_squares ->
  (exists sq, parse_square (square_name na) = Ret sq)
  /\ square_cords (square_name na) = Ret (snd na - 97, Z.of_nat (fst na))
  /\ fst na < 8.
Proof.
  intros Hin.
  assert (T : forallb
                (fun na =>
                   match parse_square (square_name na),
                         square_cords (square_name na) with
                   | Ret _, Ret (f, r) =>
                       (f =? snd na - 97) && (r =? Z.of_nat (fst na))%Z
                       && (fst na <? 8)
                   | _, _ => false
                   end) diff_loop_squares = true)
    by (vm_compute; reflexivity).
  rewrite forallb_forall in T. specialize (T na Hin).
  destruct (parse_square (square_name na)) as [sq|]; [|discriminate].
  destruct (square_cords (square_name na)) as [[f r]|]; [|discriminate].
  apply andb_true_iff in T. destruct T as [T T3].
  apply andb_true_iff in T. destruct T as [T1 T2].
  apply Nat.eqb_eq in T1. apply Z.eqb_eq in T2. apply Nat.ltb_lt in T3.
  subst. eauto.
Qed.

Lemma diff_map_step_length (b1 b2 : Board) (na : nat * nat) (m : led_map) :
  List.length (diff_map_step b1 b2 na m) = List.length m.
Proof.
  unfold diff_map_step. destruct (differs_on b1 b2 na); [|reflexivity].
  apply list_set_length.
Qed.

(** One round of the diff loop: the flag and the map after it. *)
Lemma diff_step_eq (b1 b2 : Board) (na : nat * nat)
      (diff : bool) (squares : list string) (map : led_map) (st : state) :
  In na diff_loop_squares -> List.length map = 8 ->
  exists squares',
    diff_step b1 b2 na (diff, squares, map) st
    = (Ret (diff || differs_at (last_move st) b1 b2 na, squares',
            diff_map_step b1 b2 na map), st).
Proof.
  intros Hin Hlen.
  destruct (diff_squares_cords na Hin) as ([sq Hsq] & Hc & Hn).
  unfold diff_step, differs_at, diff_map_step. unfold differs_on, named_in.
  cbv zeta. rewrite Hsq, Hc. munfold. cbn [fst snd].
  destruct (piece_ne (piece_at b1 sq) (piece_at b2 sq)).
  - munfold.
    rewrite (np_setitem_U8_in_range map (Z.of_nat (fst na)) _ Hlen
               ltac:(lia)), Nat2Z.id.
    destruct (last_move st) as [lm|];
      [destruct (str_truthy lm); [destruct (py_in (square_name na) lm)|]|];
      destruct diff; cbn [negb andb orb]; eexists; reflexivity.
  - cbn [andb]. rewrite orb_false_r. eexists. reflexivity.
Qed.

Lemma diff_loop_eq (b1 b2 : Board) (todo : list (nat * nat)) :
  (forall na, In na todo -> In na diff_loop_squares) ->
  forall (diff : bool) (squares : list string) (map : led_map) (st : state),
    List.length map = 8 ->
    exists squares',
      diff_loop b1 b2 todo (diff, squares, map) st
      = (Ret (diff || existsb (differs_at (last_move st) b1 b2) todo,
              squares',
              fold_left (fun m na => diff_map_step b1 b2 na m) todo map),
         st).
Proof.
  induction todo as [|na todo IH]; intros Hsub diff squares map st Hlen.
  - cbn [diff_loop existsb fold_left]. unfold ret.
    rewrite orb_false_r. eauto.
  - cbn [diff_loop existsb fold_left]. unfold bind.
    destruct (diff_step_eq b1 b2 na diff squares map st)
      as (s1 & E1); [apply Hsub; left; reflexivity|assumption|].
    rewrite E1, orb_assoc. apply IH.
    + intros na' Hin. apply Hsub. right. assumption.
    + rewrite diff_map_step_length. assumption.
Qed.

Lemma list_set_twice {A : Type} (i : nat) (x y : A) (l : list A) :
  list_set i x (list_set i y l) = list_set i x l.
Proof.
  revert i. induction l as [|z l IH]; intros [|i]; simpl;
    [reflexivity|reflexivity|reflexivity|rewrite IH; reflexivity].
Qed.

(** The row of a rank in the diff map. *)
Local Abbreviation diff_row b1 b2 :=
  (fun rank =>
     match last_differing_file b1 b2 rank with
     | Some f => substring 0 8 (one_at f)
     | None => zeros
     end).

(** Over the squares of one rank, the loop leaves the row of the last
    differing square. *)
Lemma diff_map_rank (b1 b2 : Board) (n : nat) (m : led_map) :
  fold_left (fun m na => diff_map_step b1 b2 na m)
            (map (fun a => (n, a)) [97; 98; 99; 100; 101; 102; 103]) m
  = match last_differing_file b1 b2 n with
    | Some f => list_set n (substring 0 8 (one_at f)) m
    | None => m
    end.
Proof.
  unfold last_differing_file. cbn [map fold_left find Nat.add].
  unfold diff_map_step. cbn [fst snd Nat.sub].
  destruct (differs_on b1 b2 (n, 103)); destruct (differs_on b1 b2 (n, 102));
    destruct (differs_on b1 b2 (n, 101)); destruct (differs_on b1 b2 (n, 100));
    destruct (differs_on b1 b2 (n, 99)); destruct (differs_on b1 b2 (n, 98));
    destruct (differs_on b1 b2 (n, 97));
    rewrite ?list_set_twice; reflexivity.
Qed.

(** Over all its squares, it leaves one such row for each rank. *)
Lemma diff_map_rows (b1 b2 : Board) :
  fold_left (fun m na => diff_map_step b1 b2 na m) diff_loop_squares ZEROS
  = map (diff_row b1 b2) (seq 0 8).
Proof.
  unfold diff_loop_squares. cbn [list_prod seq Nat.sub].
  rewrite !fold_left_app, !diff_map_rank. cbn [fold_left map].
  destruct (last_differing_file b1 b2 0);
    destruct (last_differing_file b1 b2 1);
    destruct (last_differing_file b1 b2 2);
    destruct (last_differing_file b1 b2 3);
    destruct (last_differing_file b1 b2 4);
    destruct (last_differing_file b1 b2 5);
    destruct (last_differing_file b1 b2 6);
    destruct (last_differing_file b1 b2 7);
    reflexivity.
Qed.

Lemma last_differing_file_bound (b1 b2 : Board) (rank f : nat) :
  last_differing_file b1 b2 rank = Some f -> In f [6; 5; 4; 3; 2; 1; 0].
Proof.
  unfold last_differing_file. intros H. apply find_some in H. apply H.
Qed.

Lemma diff_map_shows (b1 b2 : Board) :
  led_map_shows (lit_in_diff b1 b2) (map (diff_row b1 b2) (seq 0 8)).
Proof.
  split; [reflexivity|]. split.
  - intros row Hin. apply in_map_iff in Hin. destruct Hin as (k & <- & _).
    destruct (last_differing_file b1 b2 k) as [f|] eqn:E; [|reflexivity].
    apply last_differing_file_bound in E.
    repeat (destruct E as [<-|E]; [reflexivity|]). destruct E.
  - intros file rank Hf Hr. unfold led_at, lit_in_diff.
    assert (Hrow : nth_error (map (diff_row b1 b2) (seq 0 8)) rank
                   = Some (diff_row b1 b2 rank)).
    { do 8 (destruct rank as [|rank]; [reflexivity|]). lia. }
    rewrite Hrow. cbv beta.
    destruct (last_differing_file b1 b2 rank) as [f|] eqn:E.
    + apply last_differing_file_bound in E.
      repeat (destruct E as [<-|E];
              [do 8 (destruct file as [|file]; [reflexivity|]); lia|]).
      destruct E.
    + do 8 (destruct file as [|file]; [reflexivity|]). lia.
Qed.

(** What [show_board_diff] returns and lights. *)
Lemma diff_outcome_display (lm : option string) (b1 b2 : Board) :
  valid_last_move lm = true ->
  exists es,
    diff_outcome lm b1 b2 = (Ret (differs_outside_last_move lm b1 b2), es)
    /\ diff_display lm b1 b2 es.
Proof.
  intros Hv. unfold diff_outcome, diff_display, show_board_diff, bind.
  destruct (diff_loop_eq b1 b2 diff_loop_squares (fun _ H => H)
              false [] ZEROS (base lm) ZEROS_length)
    as (s & E).
  rewrite E. cbn [orb base last_move].
  fold (differs_outside_last_move lm b1 b2).
  rewrite diff_map_rows.
  destruct (differs_outside_last_move lm b1 b2).
  - munfold. cbn [effects emit base]. eexists. split; [reflexivity|].
    eexists. split; [reflexivity|]. apply diff_map_shows.
  - munfold. cbn [last_move base]. destruct lm as [lm|].
    + destruct (LedsProofs.build_led_map_for_move_of_uci lm Hv)
        as (mm & Hmm & Hshows).
      rewrite Hmm. cbn [effects emit base]. eexists. split; [reflexivity|].
      exists mm. split; [reflexivity|exact Hshows].
    + eexists. split; reflexivity.
Qed.

(** *** The brute-force search of [find_move_from_fen_change] *)

Lemma find_move_loop_none (moves : list Move) (b : Board) (new_fen : string) :
  (forall m, In m moves -> board_fen (push m b) <> new_fen) ->
  find_move_loop moves b new_fen = Ret None.
Proof.
  induction moves as [|m moves IH]; intros H; simpl; [reflexivity|].
  destruct (String.eqb_spec (board_fen (push m b)) new_fen) as [E|_].
  - exfalso. apply (H m); [left; reflexivity|assumption].
  - rewrite pop_push. apply IH. intros x Hx. apply H. right. assumption.
Qed.

Lemma find_move_loop_first (l1 l2 : list Move) (m : Move) (b : Board)
      (new_fen : string) :
  (forall x, In x l1 -> board_fen (push x b) <> new_fen) ->
  board_fen (push m b) = new_fen ->
  find_move_loop (l1 ++ m :: l2) b new_fen = Ret (Some (uci m)).
Proof.
  induction l1 as [|x l1 IH]; intros Hl1 Hm; simpl.
  - rewrite Hm, String.eqb_refl. reflexivity.
  - destruct (String.eqb_spec (board_fen (push x b)) new_fen) as [E|_].
    + exfalso. apply (Hl1 x); [left; reflexivity|assumption].
    + rewrite pop_push. apply IH; [|assumption].
      intros y Hy. apply Hl1. right. assumption.
Qed.

(** The first of the moves that reproduce a fen. *)
Lemma first_reproducing (moves : list Move) (b : Board) (new_fen : string) :
  (exists m, In m moves /\ board_fen (push m b) = new_fen) ->
  exists l1 m l2,
    moves = (l1 ++ m :: l2)%list
    /\ (forall x, In x l1 -> board_fen (push x b) <> new_fen)
    /\ board_fen (push m b) = new_fen.
Proof.
  induction moves as [|x moves IH]; intros (m & Hin & Hm).
  - destruct Hin.
  - destruct (String.eqb_spec (board_fen (push x b)) new_fen) as [E|N].
    + exists [], x, moves. repeat split; [intros y []|assumption].
    + destruct Hin as [->|Hin]; [contradiction|].
      destruct (IH (ex_intro _ m (conj Hin Hm))) as (l1 & m' & l2 & -> & H1 & H2).
      exists (x :: l1), m', l2. repeat split; [|assumption].
      intros y [<-|Hy]; [assumption|apply H1; assumption].
Qed.

Lemma find_move_loop_sound (moves : list Move) (b : Board) (new_fen : string) :
  match find_move_loop moves b new_fen with
  | Ret (Some u) =>
      exists m, In m moves /\ uci m = u /\ board_fen (push m b) = new_fen
  | Ret None => forall m, In m moves -> board_fen (push m b) <> new_fen
  | Raise _ => False
  end.
Proof.
  induction moves as [|x moves IH]; simpl.
  - intros m [].
  - destruct (String.eqb_spec (board_fen (push x b)) new_fen) as [E|N].
    + exists x. repeat split; [left; reflexivity|assumption].
    + rewrite pop_push.
      destruct (find_move_loop moves b new_fen) as [[u|]|e].
      * destruct IH as (m & Hin & Hu & Hm). exists m.
        repeat split; [right; assumption|assumption|assumption].
      * intros m [<-|Hin]; [assumption|apply IH; assumption].
      * assumption.
Qed.

(** [find_move_from_fen_change], case by case. *)
Lemma find_move_from_fen_change_eq (new_fen : string) (st : state) :
  find_move_from_fen_change world new_fen st
  = let gb := game_board st in
    if String.eqb new_fen (board_fen gb) then
      (Raise (NoMove "No fen difference"), st)
    else
      match nl_get_fen world (now st) with
      | None => (Raise (NoNicLinkFen "No fen got from board"), tick st)
      | Some seen =>
          match set_board_fen new_board seen with
          | None => (Raise (ValueError "invalid fen"), tick st)
          | Some _ =>
              match find_move_loop (legal_moves gb) gb new_fen with
              | Raise e => (Raise e, tick st)
              | Ret (Some move) => (Ret move, tick st)
              | Ret None =>
                  match set_board_fen new_board new_fen with
                  | None => (Raise (ValueError "invalid fen"), tick st)
                  | Some error_board =>
                      match diff_outcome (last_move st) error_board gb with
                      | (Ret _, es) =>
                          (Raise (IllegalMove
                                    (illegal_move_message error_board gb)),
                           extend (tick st) es)
                      | (Raise e, es) => (Raise e, extend (tick st) es)
                      end
                  end
              end
          end
      end.
Proof.
  unfold find_move_from_fen_change, or_ValueError. munfold. simpl.
  destruct (String.eqb new_fen (board_fen (game_board st))); [reflexivity|].
  destruct (nl_get_fen world (now st)) as [seen|]; [|reflexivity].
  destruct (set_board_fen new_board seen) as [shown|]; [|reflexivity].
  destruct (find_move_loop _ _ _) as [[move|]|e]; try reflexivity.
  destruct (set_board_fen new_board new_fen) as [eb|]; [|reflexivity].
  rewrite show_board_diff_eq. simpl.
  destruct (diff_outcome _ _ _) as [[d|e] es]; reflexivity.
Qed.

(** C1, as the code has it.  When the reported fen is the fen of the game
    board, [find_move_from_fen_change] raises [NoMove].  Otherwise it
    first reads the board again for its log; provided that reading is
    there and can be put on a board: if some legal move of the game
    board gives the reported fen, it returns the first such move in
    coordinate notation; if none does (and the reported fen can be put on
    a board, and the last move, if any, is well formed so that its leds
    can be lit), it raises [IllegalMove] with a message made of the
    diagrams of both positions, and leaves the game board and the last
    move as they were. *)
Theorem find_move_from_fen_change_outcome (st : state) (new_fen : string) :
  let gb := game_board st in
  (new_fen = board_fen gb ->
   find_move_from_fen_change world new_fen st
   = (Raise (NoMove "No fen difference"), st))
  /\ (new_fen <> board_fen gb ->
      forall seen shown,
        nl_get_fen world (now st) = Some seen ->
        set_board_fen new_board seen = Some shown ->
        ((exists m, In m (legal_moves gb)
                    /\ board_fen (push m gb) = new_fen) ->
         exists l1 m l2,
           legal_moves gb = (l1 ++ m :: l2)%list
           /\ (forall x, In x l1 -> board_fen (push x gb) <> new_fen)
           /\ board_fen (push m gb) = new_fen
           /\ find_move_from_fen_change world new_fen st
              = (Ret (uci m), tick st))
        /\ ((forall m, In m (legal_moves gb) ->
                       board_fen (push m gb) <> new_fen) ->
            forall error_board,
              set_board_fen new_board new_fen = Some error_board ->
              valid_last_move (last_move st) = true ->
              exists st',
                find_move_from_fen_change world new_fen st
                = (Raise (IllegalMove
                            (illegal_move_message error_board gb)), st')
                /\ game_board st' = gb
                /\ last_move st' = last_move st)).
Proof.
  intros gb. split.
  - intros ->. rewrite find_move_from_fen_change_eq. simpl.
    fold gb. rewrite String.eqb_refl. reflexivity.
  - intros Hne seen shown Hseen Hshown.
    assert (Hneb : String.eqb new_fen (board_fen gb) = false)
      by (apply String.eqb_neq; assumption).
    split.
    + intros Hex.
      destruct (first_reproducing _ _ _ Hex) as (l1 & m & l2 & E & H1 & H2).
      exists l1, m, l2. repeat split; try assumption.
      rewrite find_move_from_fen_change_eq. simpl. fold gb.
      rewrite Hneb, Hseen, Hshown, E.
      rewrite (find_move_loop_first l1 l2 m gb new_fen H1 H2). reflexivity.
    + intros Hnone eb Heb Hvalid.
      rewrite find_move_from_fen_change_eq. simpl. fold gb.
      rewrite Hneb, Hseen, Hshown.
      rewrite (find_move_loop_none _ gb new_fen Hnone), Heb.
      destruct (diff_outcome_returns (last_move st) eb gb Hvalid) as [d Hd].
      destruct (diff_outcome (last_move st) eb gb) as [r es].
      simpl in Hd. subst r.
      eexists. split; [reflexivity|]. split; reflexivity.
Qed.

(** *** [check_for_move], case by case *)

Lemma with_game_board_same (st : state) :
  with_game_board (game_board st) st = st.
Proof. destruct st. reflexivity. Qed.

Lemma debounce_eq (new_fen : string) (st : state) :
  debounce new_fen st
  = match pop (game_board st) with
    | Some (_, gb') =>
        if String.eqb new_fen (board_fen gb')
        then (Ret true, tick (emit (Sleep refresh_delay) st))
        else (Ret false, st)
    | None => (Ret false, st)
    end.
Proof.
  unfold debounce. munfold. simpl.
  destruct (pop (game_board st)) as [[m gb']|] eqn:E; [|reflexivity].
  simpl. rewrite (push_pop _ _ _ E).
  destruct (String.eqb new_fen (board_fen gb')); simpl;
    destruct st; reflexivity.
Qed.

Lemma on_change_eq (new_fen : string) (st : state) :
  on_change world new_fen st
  = if game_over_is_set world (now st) then (Ret PyFalse, tick st)
    else
      match find_move_from_fen_change world new_fen (tick st) with
      | (Ret move, st2) => (Ret (PyStr move), with_last_move (Some move) st2)
      | (Raise (IllegalMove _), st2) =>
          match board_of_fen new_fen with
          | None => (Raise (ValueError "invalid fen"), st2)
          | Some current_board =>
              match diff_outcome (last_move st2) current_board
                                 (game_board st2) with
              | (Ret _, es) =>
                  (Ret PyFalse,
                   tick (emit (Sleep refresh_delay) (extend st2 es)))
              | (Raise e, es) => (Raise e, extend st2 es)
              end
          end
      | (Raise e, st2) => (Raise e, st2)
      end.
Proof.
  unfold on_change, catch_IllegalMove, or_ValueError. munfold. simpl.
  destruct (game_over_is_set world (now st)); [reflexivity|].
  destruct (find_move_from_fen_change world new_fen (tick st))
    as [[move|e] st2]; [reflexivity|].
  destruct e; try reflexivity.
  destruct (board_of_fen new_fen) as [cb|]; [|reflexivity].
  rewrite show_board_diff_eq. simpl.
  destruct (diff_outcome _ _ _) as [[d|e] es]; reflexivity.
Qed.

(** The change test of [check_for_move] never fails. *)
Lemma change_test_is_true (new_fen : string) (gb : Board) :
  py_ne (OpStr new_fen) (OpBoundMethod gb "board_fen") = true.
Proof. reflexivity. Qed.

Lemma check_for_move_eq (st : state) :
  check_for_move world st
  = match nl_get_fen world (now st) with
    | None => (Raise (ValueError "No fen from chessboard"), tick st)
    | Some new_fen =>
        match pop (game_board st) with
        | Some (_, gb') =>
            if String.eqb new_fen (board_fen gb')
            then (Ret PyFalse,
                  tick (emit (Sleep refresh_delay) (tick st)))
            else on_change world new_fen (tick st)
        | None => on_change world new_fen (tick st)
        end
    end.
Proof.
  unfold check_for_move. munfold. simpl.
  destruct (nl_get_fen world (now st)) as [new_fen|]; [|reflexivity].
  rewrite debounce_eq. simpl.
  destruct (pop (game_board st)) as [[m gb']|]; [|reflexivity].
  destruct (String.eqb new_fen (board_fen gb')); reflexivity.
Qed.

(** What every call of [find_move_from_fen_change] keeps and yields. *)
Lemma find_move_from_fen_change_inv (new_fen : string) (st st' : state)
      (r : result string) :
  find_move_from_fen_change world new_fen st = (r, st') ->
  game_board st' = game_board st
  /\ last_move st' = last_move st
  /\ now st <= now st'
  /\ match r with
     | Ret u =>
         exists m, In m (legal_moves (game_board st)) /\ uci m = u
                   /\ board_fen (push m (game_board st)) = new_fen
     | Raise (NoMove _) => new_fen = board_fen (game_board st)
     | Raise (IllegalMove _) =>
         forall m, In m (legal_moves (game_board st)) ->
                   board_fen (push m (game_board st)) <> new_fen
     | Raise e => lets_through e = true
     end.
Proof.
  rewrite find_move_from_fen_change_eq. simpl.
  destruct (String.eqb_spec new_fen (board_fen (game_board st))) as [E|N].
  { intros H. inversion H. subst. repeat split; auto. }
  destruct (nl_get_fen world (now st)) as [seen|];
    [|intros H; inversion H; subst; simpl; repeat split; auto].
  destruct (set_board_fen new_board seen) as [shown|];
    [|intros H; inversion H; subst; simpl; repeat split; auto].
  pose proof (find_move_loop_sound (legal_moves (game_board st))
                (game_board st) new_fen) as Hs.
  destruct (find_move_loop _ _ _) as [[u|]|e]; [| |contradiction].
  { intros H. inversion H. subst. simpl. repeat split; auto. }
  destruct (set_board_fen new_board new_fen) as [eb|];
    [|intros H; inversion H; subst; simpl; repeat split; auto].
  pose proof (diff_outcome_raises (last_move st) eb (game_board st)) as Hr.
  destruct (diff_outcome _ _ _) as [[d|e] es]; simpl in Hr;
    intros H; inversion H; subst; simpl; repeat split; auto.
  specialize (Hr e eq_refl). destruct e; try discriminate Hr; reflexivity.
Qed.

(** What every call of [check_for_move] keeps and yields. *)
Lemma on_change_inv (new_fen : string) (st st' : state)
      (r : result bool_or_str) :
  on_change world new_fen st = (r, st') ->
  game_board st' = game_board st
  /\ now st <= now st'
  /\ match r with
     | Ret PyFalse => last_move st' = last_move st
     | Ret (PyStr u) =>
         last_move st' = Some u
         /\ exists m, In m (legal_moves (game_board st)) /\ uci m = u
                      /\ board_fen (push m (game_board st)) = new_fen
     | Raise (NoMove _) =>
         last_move st' = last_move st
         /\ new_fen = board_fen (game_board st)
     | Raise e => last_move st' = last_move st /\ lets_through e = true
     end.
Proof.
  rewrite on_change_eq.
  destruct (game_over_is_set world (now st)).
  { intros H. inversion H. subst. simpl. repeat split; auto. }
  destruct (find_move_from_fen_change world new_fen (tick st))
    as [r2 st2] eqn:E.
  apply find_move_from_fen_change_inv in E. simpl in E.
  destruct E as (Hgb & Hlm & Hnow & Hr).
  destruct r2 as [u|e].
  { intros H. inversion H. subst. simpl. repeat split; auto; lia. }
  destruct e;
    try (intros H; inversion H; subst; simpl; repeat split; auto; lia).
  destruct (board_of_fen new_fen) as [cb|];
    [|intros H; inversion H; subst; simpl; repeat split; auto; lia].
  pose proof (diff_outcome_raises (last_move st2) cb (game_board st2)) as Hd.
  destruct (diff_outcome _ _ _) as [[d|e] es]; simpl in Hd;
    intros H; inversion H; subst; simpl; repeat split; auto; try lia.
  specialize (Hd e eq_refl).
  destruct e; try discriminate Hd; repeat split; auto.
Qed.

Lemma check_for_move_inv (st st' : state) (r : result bool_or_str) :
  check_for_move world st = (r, st') ->
  game_board st' = game_board st
  /\ now st <= now st'
  /\ match r with
     | Ret PyFalse => last_move st' = last_move st
     | Ret (PyStr u) =>
         last_move st' = Some u
         /\ exists new_fen m,
              nl_get_fen world (now st) = Some new_fen
              /\ In m (legal_moves (game_board st)) /\ uci m = u
              /\ board_fen (push m (game_board st)) = new_fen
     | Raise (NoMove _) =>
         last_move st' = last_move st
         /\ nl_get_fen world (now st) = Some (board_fen (game_board st))
     | Raise e => last_move st' = last_move st /\ lets_through e = true
     end.
Proof.
  rewrite check_for_move_eq.
  destruct (nl_get_fen world (now st)) as [new_fen|];
    [|intros H; inversion H; subst; simpl; repeat split; auto].
  assert (Hon : on_change world new_fen (tick st) = (r, st') ->
                game_board st' = game_board st
                /\ now st <= now st'
                /\ match r with
                   | Ret PyFalse => last_move st' = last_move st
                   | Ret (PyStr u) =>
                       last_move st' = Some u
                       /\ exists new_fen0 m,
                            Some new_fen = Some new_fen0
                            /\ In m (legal_moves (game_board st)) /\ uci m = u
                            /\ board_fen (push m (game_board st)) = new_fen0
                   | Raise (NoMove _) =>
                       last_move st' = last_move st
                       /\ Some new_fen = Some (board_fen (game_board st))
                   | Raise e => last_move st' = last_move st
                                /\ lets_through e = true
                   end).
  { intros H. apply on_change_inv in H. simpl in H.
    destruct H as (Hgb & Hnow & Hr).
    split; [assumption|]. split; [lia|].
    destruct r as [[|u]|e]; auto.
    - destruct Hr as (Hlm & m & Hin & Hu & Hm). split; [assumption|].
      exists new_fen, m. auto.
    - destruct e; auto. destruct Hr as [Hlm ->]. auto. }
  destruct (pop (game_board st)) as [[m gb']|]; [|exact Hon].
  destruct (String.eqb new_fen (board_fen gb')); [|exact Hon].
  intros H. inversion H. subst. simpl. repeat split; auto.
Qed.

(** *** Polling a board that has not changed *)

Lemma check_for_move_unchanged_once (st : state) :
  nl_get_fen world (now st) = Some (board_fen (game_board st)) ->
  game_board (snd (check_for_move world st)) = game_board st
  /\ last_move (snd (check_for_move world st)) = last_move st.
Proof.
  intros Hfen. rewrite check_for_move_eq, Hfen.
  assert (Hon : game_board (snd (on_change world (board_fen (game_board st))
                                           (tick st))) = game_board st
                /\ last_move (snd (on_change world (board_fen (game_board st))
                                             (tick st))) = last_move st).
  { rewrite on_change_eq. simpl.
    destruct (game_over_is_set world (S (now st))); [split; reflexivity|].
    rewrite find_move_from_fen_change_eq. simpl.
    rewrite String.eqb_refl. split; reflexivity. }
  destruct (pop (game_board st)) as [[m gb']|]; [|exact Hon].
  destruct (String.eqb _ _); [split; reflexivity|exact Hon].
Qed.

(** C3: as long as the board interface hands out the fen of the game
    board, any number of calls of [check_for_move] leaves the game board
    (position and move stack) and the stored last move as they were. *)
Theorem check_for_move_unchanged_keeps_game (n : nat) (st : state) :
  (forall t, nl_get_fen world t = Some (board_fen (game_board st))) ->
  game_board (poll world n st) = game_board st
  /\ last_move (poll world n st) = last_move st.
Proof.
  revert st. induction n as [|n IH]; intros st Hfen; simpl.
  - split; reflexivity.
  - destruct (check_for_move_unchanged_once st (Hfen (now st))) as [Hgb Hlm].
    destruct (IH (snd (check_for_move world st))) as [Hgb' Hlm'].
    + intros t. rewrite Hgb. apply Hfen.
    + split; congruence.
Qed.

(** C10, as the code has it: when the board interface hands out the fen
    of the game board, the position before the last move (if there is
    one) has another fen, and the game-over event is not set when
    [check_for_move] tests it, the call raises [NoMove] without lighting
    or sleeping; and the change test, a [str] against a bound method,
    holds whatever the two are. *)
Theorem check_for_move_unchanged_raises_NoMove (st : state) :
  nl_get_fen world (now st) = Some (board_fen (game_board st)) ->
  (forall m gb', pop (game_board st) = Some (m, gb') ->
                 board_fen gb' <> board_fen (game_board st)) ->
  game_over_is_set world (S (now st)) = false ->
  check_for_move world st
  = (Raise (NoMove "No fen difference"), tick (tick st))
  /\ forall (new_fen : string) (gb : Board),
      py_ne (OpStr new_fen) (OpBoundMethod gb "board_fen") = true.
Proof.
  intros Hfen Hdeb Hover. split; [|reflexivity].
  rewrite check_for_move_eq, Hfen.
  assert (Hon : on_change world (board_fen (game_board st)) (tick st)
                = (Raise (NoMove "No fen difference"), tick (tick st))).
  { rewrite on_change_eq. simpl. rewrite Hover.
    rewrite find_move_from_fen_change_eq. simpl.
    rewrite String.eqb_refl. reflexivity. }
  destruct (pop (game_board st)) as [[m gb']|] eqn:E; [|exact Hon].
  destruct (String.eqb_spec (board_fen (game_board st)) (board_fen gb'))
    as [Heq|_]; [|exact Hon].
  exfalso. apply (Hdeb m gb' eq_refl). symmetry. assumption.
Qed.


(** *** The end of the game *)

(** C9: on a game board that is checkmate, [is_game_over] returns over,
    the reason "checkmate" and, as winner, the [turn] of the game board:
    the side to move. *)
Theorem is_game_over_checkmate_names_side_to_move (st : state) :
  is_checkmate (game_board st) = true ->
  is_game_over st
  = (Ret (Over true (turn (game_board st)) "checkmate"), st).
Proof.
  intros H. unfold is_game_over. munfold. rewrite H. reflexivity.
Qed.

(** *** Waiting for a move *)

Lemma str_truthy_nonempty (s : string) : str_truthy s = true -> s <> "".
Proof. unfold str_truthy. intros H ->. discriminate H. Qed.

(** One round of [await_move], case by case. *)
Lemma await_move_round_eq (attempts : nat) (st : state) :
  await_move_round world attempts st
  = if kill_switch_is_set world (now st) then
      (Raise (ExitNicLink
                (exit_message (kill_switch_is_set world (S (now st))))),
       tick (tick st))
    else if game_over_is_set world (S (S (now st))) then
      (Ret (Return None), tick (tick (tick st)))
    else
      match check_for_move world (tick (tick (tick st))) with
      | (Ret moved, st1) =>
          if truthy moved then
            match last_move st1 with
            | Some move =>
                if str_truthy move then (Ret (Return (Some move)), st1)
                else (Ret (Continue attempts), st1)
            | None =>
                (Raise (ValueError "ERROR: last move is None"), st1)
            end
          else (Ret (Continue attempts), st1)
      | (Raise (NoMove _), st1) | (Raise (IllegalMove _), st1) =>
          (Ret (Continue (attempts + 1)),
           tick (emit (Sleep NO_MOVE_DELAY) st1))
      | (Raise e, st1) => (Raise e, st1)
      end.
Proof.
  unfold await_move_round, catch_NoMove_IllegalMove.
  munfold. unfold tick. cbn -[check_for_move].
  destruct (kill_switch_is_set world (now st)); [reflexivity|].
  cbn -[check_for_move].
  destruct (game_over_is_set world (S (S (now st)))); [reflexivity|].
  match goal with
  | |- context [check_for_move world ?s] =>
      destruct (check_for_move world s) as [[moved|e] s1]
  end.
  - destruct (truthy moved); [|reflexivity].
    destruct (last_move s1) as [move|]; [|reflexivity].
    destruct (str_truthy move); reflexivity.
  - destruct e; reflexivity.
Qed.

(** How one round of [await_move] can end. *)
Lemma await_move_round_inv (attempts : nat) (st st' : state)
      (r : result round_end) :
  await_move_round world attempts st = (r, st') ->
  game_board st' = game_board st
  /\ now st <= now st'
  /\ match r with
     | Ret (Return (Some move)) =>
         move <> ""
         /\ last_move st' = Some move
         /\ exists t new_fen m,
              now st <= t
              /\ nl_get_fen world t = Some new_fen
              /\ In m (legal_moves (game_board st))
              /\ board_fen (push m (game_board st)) = new_fen
              /\ uci m = move
     | Ret (Return None) =>
         exists t, now st <= t /\ game_over_is_set world t = true
     | Ret (Continue _) => True
     | Raise (ExitNicLink _) =>
         exists t, now st <= t /\ kill_switch_is_set world t = true
     | Raise e => lets_through e = true
     end.
Proof.
  rewrite await_move_round_eq.
  destruct (kill_switch_is_set world (now st)) eqn:Ekill.
  { intros H. inversion H. subst. simpl.
    repeat split; auto. exists (now st). auto. }
  destruct (game_over_is_set world (S (S (now st)))) eqn:Eover.
  { intros H. inversion H. subst. simpl.
    repeat split; auto. exists (S (S (now st))). auto. }
  destruct (check_for_move world (tick (tick (tick st)))) as [rc sc] eqn:Ec.
  apply check_for_move_inv in Ec. simpl in Ec.
  destruct Ec as (Hgb & Hnow & Hr).
  destruct rc as [[|u]|e]; simpl.
  - intros H. inversion H. subst. simpl. repeat split; auto. lia.
  - destruct Hr as (Hlm & new_fen & m & Hfen & Hin & Hu & Hm).
    rewrite Hlm.
    destruct (str_truthy u) eqn:Et.
    + intros H. inversion H. subst. simpl.
      repeat split; auto; try lia.
      * apply str_truthy_nonempty. assumption.
      * exists (S (S (S (now st)))), (board_fen (push m (game_board st))), m.
        repeat split; auto.
    + intros H. inversion H. subst. simpl. repeat split; auto. lia.
  - destruct e; simpl in Hr; destruct Hr as [Hlm Hr];
      try discriminate Hr;
      intros H; inversion H; subst; simpl; repeat split; auto; lia.
Qed.

Lemma await_move_loop_inv (fuel : nat) :
  forall (attempts : nat) (st st' : state) (r : result (option string)),
    await_move_loop world fuel attempts st = Some (r, st') ->
    match r with
    | Ret (Some move) =>
        move <> ""
        /\ last_move st' = Some move
        /\ exists t new_fen m,
             now st <= t
             /\ nl_get_fen world t = Some new_fen
             /\ In m (legal_moves (game_board st))
             /\ board_fen (push m (game_board st)) = new_fen
             /\ uci m = move
    | Ret None =>
        exists t, now st <= t /\ game_over_is_set world t = true
    | Raise (ExitNicLink _) =>
        exists t, now st <= t /\ kill_switch_is_set world t = true
    | Raise e => lets_through e = true
    end.
Proof.
  induction fuel as [|fuel IH]; intros attempts st st' r; simpl.
  - discriminate.
  - destruct (await_move_round world attempts st) as [rr s1] eqn:E.
    apply await_move_round_inv in E. destruct E as (Hgb & Hnow & Hr).
    destruct rr as [[v|attempts']|e].
    + intros H. inversion H. subst. exact Hr.
    + intros H. apply IH in H. rewrite Hgb in H.
      destruct r as [[move|]|e].
      * destruct H as (H1 & H2 & t & new_fen & m & Ht & H3).
        repeat split; auto. exists t, new_fen, m. split; [lia|assumption].
      * destruct H as (t & Ht & H). exists t. split; [lia|assumption].
      * destruct e; auto.
        destruct H as (t & Ht & H). exists t. split; [lia|assumption].
    + intros H. inversion H. subst. exact Hr.
Qed.

(** C7, as the code has it: when [await_move] ends, it has returned a
    move found on the board (the non-empty coordinate notation of a
    legal move of the game board that gives a fen read from the board,
    stored as last move), or returned [None] after seeing the game-over
    event set, or raised [ExitNicLink] after seeing the kill switch set,
    or let through an error of the board interface or of the rules
    engine ([ValueError], [NoNicLinkFen], [IndexError]); [NoMove] and
    [IllegalMove] never leave it, and it returns nothing else. *)
Theorem await_move_ways_to_end (fuel : nat) (st st' : state)
        (r : result (option string)) :
  await_move world fuel st = Some (r, st') ->
  match r with
  | Ret (Some move) =>
      move <> ""
      /\ last_move st' = Some move
      /\ exists t new_fen m,
           now st <= t
           /\ nl_get_fen world t = Some new_fen
           /\ In m (legal_moves (game_board st))
           /\ board_fen (push m (game_board st)) = new_fen
           /\ uci m = move
  | Ret None =>
      exists t, now st <= t /\ game_over_is_set world t = true
  | Raise (ExitNicLink _) =>
      exists t, now st <= t /\ kill_switch_is_set world t = true
  | Raise e => lets_through e = true
  end.
Proof. apply await_move_loop_inv. Qed.

(** The kill switch ends the wait at the next test of the loop. *)
Lemma await_move_killed (fuel : nat) (st : state) :
  kill_switch_is_set world (now st) = true ->
  exists msg,
    await_move world (S fuel) st
    = Some (Raise (ExitNicLink msg), tick (tick st)).
Proof.
  intros H. unfold await_move. simpl.
  rewrite await_move_round_eq, H. eauto.
Qed.

(** The game-over event ends it at the next round. *)
Lemma await_move_game_over (fuel : nat) (st : state) :
  kill_switch_is_set world (now st) = false ->
  game_over_is_set world (S (S (now st))) = true ->
  await_move world (S fuel) st = Some (Ret None, tick (tick (tick st))).
Proof.
  intros Hk Ho. unfold await_move. simpl.
  rewrite await_move_round_eq, Hk, Ho. reflexivity.
Qed.

End Manager.

(** *** Runs on the book *)

Ltac run := vm_compute; reflexivity.

(** An outcome is known by what was returned and by the fields of the
    manager. *)
Lemma outcome_ext {engine : ChessEngine} {A : Type}
      (p : result A * NicLinkManager) (r : result A) (s : NicLinkManager) :
  fst p = r ->
  game_board (snd p) = game_board s ->
  last_move (snd p) = last_move s ->
  now (snd p) = now s ->
  effects (snd p) = effects s ->
  p = (r, s).
Proof.
  destruct p as [r' [gb lm n es]], s as [gb' lm' n' es']. simpl.
  intros -> -> -> -> ->. reflexivity.
Qed.

Ltac run_outcome := apply outcome_ext; run.

Local Abbreviation start := (Book.starting_board : @Board Book.engine).
Local Abbreviation board_with s := (Book.board_with s : @Board Book.engine).

Lemma book_no_move_gives_two_pawns :
  forall m : @Move Book.engine,
    In m (legal_moves start) ->
    board_fen (push m start) <> Book.two_pawns_fen.
Proof.
  assert (H : forallb (fun m : @Move Book.engine =>
                         negb (String.eqb (board_fen (push m start))
                                          Book.two_pawns_fen))
                      (legal_moves start) = true)
    by (vm_compute; reflexivity).
  rewrite forallb_forall in H. intros m Hin E.
  specialize (H m Hin). rewrite E, String.eqb_refl in H. discriminate H.
Defined.

(** The theorem of C1 on the starting position: nothing moved; the king's
    pawn moved two squares; both centre pawns moved. *)
Lemma find_move_from_fen_change_outcome_witness :
  let st := Book.manager_on Book.starting_board None in
  (forall world,
      find_move_from_fen_change world Book.starting_fen st
      = (Raise (NoMove "No fen difference"), st))
  /\ (exists l1 m l2,
         legal_moves start = (l1 ++ m :: l2)%list
         /\ (forall x, In x l1 ->
                       board_fen (push x start)
                       <> Book.fen_after "e2e4")
         /\ board_fen (push m start) = Book.fen_after "e2e4"
         /\ find_move_from_fen_change
              (Book.still_world (Some (Book.fen_after "e2e4")) false false)
              (Book.fen_after "e2e4") st
            = (Ret (uci m), tick st))
  /\ (exists st',
         find_move_from_fen_change
           (Book.still_world (Some Book.two_pawns_fen) false false)
           Book.two_pawns_fen st
         = (Raise (IllegalMove
                     (illegal_move_message
                        (board_with Book.two_pawns_fen)
                        Book.starting_board)), st')
         /\ game_board st' = Book.starting_board
         /\ last_move st' = None).
Proof.
  intros st. split; [|split].
  - intros world.
    apply (proj1 (find_move_from_fen_change_outcome world st Book.starting_fen)).
    run.
  - apply (proj1 (proj2 (find_move_from_fen_change_outcome
                           (Book.still_world (Some (Book.fen_after "e2e4"))
                                             false false)
                           st (Book.fen_after "e2e4"))
                        ltac:(vm_compute; discriminate)
                        (Book.fen_after "e2e4")
                        (board_with (Book.fen_after "e2e4"))
                        ltac:(run) ltac:(run))).
    exists ("e2e4" : @Move Book.engine). split.
    + vm_compute. tauto.
    + run.
  - apply (proj2 (proj2 (find_move_from_fen_change_outcome
                           (Book.still_world (Some Book.two_pawns_fen)
                                             false false)
                           st Book.two_pawns_fen)
                        ltac:(vm_compute; discriminate)
                        Book.two_pawns_fen
                        (board_with Book.two_pawns_fen)
                        ltac:(run) ltac:(run))
                 book_no_move_gives_two_pawns
                 (board_with Book.two_pawns_fen) ltac:(run) ltac:(run)).
Defined.

(** The move found in the second run is e2e4. *)
Lemma find_move_from_fen_change_finds_e2e4 :
  fst (find_move_from_fen_change
         (Book.still_world (Some (Book.fen_after "e2e4")) false false)
         (Book.fen_after "e2e4")
         (Book.manager_on Book.starting_board None))
  = Ret "e2e4".
Proof. run. Qed.

(** C1 as stated fails when the board cannot be read again: on the
    starting position, with the fen after e2e4 reported (a legal move
    gives it), the call raises [NoNicLinkFen] instead of returning the
    move. *)
Lemma find_move_from_fen_change_needs_the_board :
  let st := Book.manager_on Book.starting_board None in
  let world := Book.still_world None false false in
  let new_fen := Book.fen_after "e2e4" in
  In ("e2e4" : @Move Book.engine) (legal_moves start)
  /\ board_fen (push ("e2e4" : @Move Book.engine) start) = new_fen
  /\ new_fen <> board_fen (game_board st)
  /\ find_move_from_fen_change world new_fen st
     = (Raise (NoNicLinkFen "No fen got from board"), tick st).
Proof.
  intros st world new_fen. split; [|split; [|split]].
  - vm_compute. tauto.
  - run.
  - vm_compute. discriminate.
  - run_outcome.
Qed.

(** Nor does the call return the move when what is read again cannot be
    put on a board. *)
Lemma find_move_from_fen_change_needs_a_readable_board :
  let st := Book.manager_on Book.starting_board None in
  let world := Book.still_world (Some "") false false in
  fst (find_move_from_fen_change world (Book.fen_after "e2e4") st)
  = Raise (ValueError "invalid fen").
Proof. intros st world. run. Qed.

(** The theorem of C3 after 1. e4, the board showing that position, for
    three calls. *)
Lemma check_for_move_unchanged_keeps_game_witness :
  let st := Book.manager_on Book.after_e2e4 (Some "e2e4") in
  let world := Book.still_world (Some (Book.fen_after "e2e4")) false false in
  game_board (poll world 3 st) = Book.after_e2e4
  /\ last_move (poll world 3 st) = Some "e2e4".
Proof.
  intros st world.
  apply (check_for_move_unchanged_keeps_game world 3 st).
  intros t. run.
Defined.

(** The theorem of C10 in the same situation. *)
Lemma check_for_move_unchanged_raises_NoMove_witness :
  let st := Book.manager_on Book.after_e2e4 (Some "e2e4") in
  let world := Book.still_world (Some (Book.fen_after "e2e4")) false false in
  check_for_move world st
  = (Raise (NoMove "No fen difference"), tick (tick st)).
Proof.
  intros st world.
  apply (proj1 (check_for_move_unchanged_raises_NoMove world st ltac:(run)
                  ltac:(intros m gb' H; vm_compute in H; inversion H;
                        vm_compute; discriminate)
                  ltac:(run))).
Defined.

(** C10 as stated fails when the game-over event is set: the board shows
    the starting position, the game board is the starting position with
    no move made, and [check_for_move] returns [False]. *)
Lemma check_for_move_unchanged_returns_False_when_game_over :
  let st := Book.manager_on Book.starting_board None in
  let world := Book.still_world (Some Book.starting_fen) true false in
  nl_get_fen world (now st) = Some (board_fen (game_board st))
  /\ pop (game_board st) = None
  /\ check_for_move world st = (Ret PyFalse, tick (tick st)).
Proof. intros st world. split; [run|split; [run|run_outcome]]. Qed.

(** The led map with e2 and e4 lit. *)
Local Abbreviation e2_e4_lit :=
  ["00000000"; "00001000"; "00000000"; "00001000";
   "00000000"; "00000000"; "00000000"; "00000000"].



(** Nor is a diff shown in the debounce case: after 1. e4 was pushed on the
    game board, with the board still showing the starting position (which no
    reply to 1. e4 gives), [check_for_move] sleeps and returns [False]. *)
Lemma check_for_move_debounce_shows_no_diff :
  let st := Book.manager_on Book.after_e2e4 (Some "e2e4") in
  let world := Book.still_world (Some Book.starting_fen) false false in
  forallb (fun m : @Move Book.engine =>
             negb (String.eqb (board_fen (push m (game_board st)))
                              Book.starting_fen))
          (legal_moves (game_board st)) = true
  /\ List.length (legal_moves (game_board st)) = 20
  /\ fst (check_for_move world st) = Ret PyFalse
  /\ effects (snd (check_for_move world st)) = [Sleep refresh_delay].
Proof. intros st world. repeat split; run. Qed.

(** The theorem of C7 on the starting position, the board showing the
    position after e2e4: the first round returns the move. *)
Lemma await_move_ways_to_end_witness :
  let st := Book.manager_on Book.starting_board None in
  let world := Book.still_world (Some (Book.fen_after "e2e4")) false false in
  exists st',
    await_move world 1 st = Some (Ret (Some "e2e4"), st')
    /\ last_move st' = Some "e2e4".
Proof.
  intros st world.
  assert (Hr : option_map fst (await_move world 1 st)
               = Some (Ret (Some "e2e4"))) by run.
  destruct (await_move world 1 st) as [[r st']|] eqn:E;
    [|discriminate Hr].
  pose proof (await_move_ways_to_end world 1 st st' r E) as H.
  simpl in Hr. inversion Hr. subst r.
  exists st'. split; [reflexivity|].
  destruct H as (_ & H & _). exact H.
Defined.

(** C7 as stated fails when the board interface hands out no fen: with
    neither event ever set, [await_move] ends by raising [ValueError]. *)
Lemma await_move_lets_ValueError_through :
  let st := Book.manager_on Book.starting_board None in
  let world := Book.still_world None false false in
  (forall t, kill_switch_is_set world t = false)
  /\ (forall t, game_over_is_set world t = false)
  /\ option_map fst (await_move world 1 st)
     = Some (Raise (ValueError "No fen from chessboard")).
Proof. intros st world. split; [|split]; try (intros t); run. Qed.

(** The theorem of C9 on the position after 1. f3 e5 2. g4 Qh4, white to
    move: the winner named is white. *)
Lemma is_game_over_checkmate_names_side_to_move_witness :
  let st := Book.manager_on (board_with Book.fools_mate_fen) None in
  turn (game_board st) = true
  /\ is_game_over st = (Ret (Over true true "checkmate"), st).
Proof.
  intros st. split; [run|].
  change (Over true true "checkmate")
    with (Over true (turn (game_board st)) "checkmate").
  apply (is_game_over_checkmate_names_side_to_move st). run.
Defined.

(** C5, on the starting position against the position after h2h3, with no
    last move: the pieces on h2 and h3 differ, yet [show_board_diff]
    returns [False] and lights nothing, as its loop over the files stops
    before the h file.  Against the position with both centre pawns on the
    fourth rank, the pieces on d2, e2, d4 and e4 differ, yet it lights e2
    and e4 only, as each differing square replaces the row of its rank; and
    it lights these two even when they are the squares of the last move. *)
Theorem show_board_diff_misses_differing_squares :
  let st := Book.manager_on Book.starting_board None in
  let st' := Book.manager_on Book.starting_board (Some "e2e4") in
  let h3 : @Board Book.engine := Book.book_push "h2h3" Book.starting_board in
  let centre : @Board Book.engine := Book.board_with Book.two_pawns_fen in
  piece_ne (piece_at start 15) (piece_at h3 15) = true
  /\ piece_ne (piece_at start 23) (piece_at h3 23) = true
  /\ show_board_diff start h3 st = (Ret false, st)
  /\ map (fun sq => piece_ne (piece_at start sq) (piece_at centre sq))
         [11; 12; 27; 28]
     = [true; true; true; true]
  /\ show_board_diff start centre st
     = (Ret true, emit (SetAllLeds e2_e4_lit) st)
  /\ show_board_diff start centre st'
     = (Ret true, emit (SetAllLeds e2_e4_lit) st').
Proof.
  intros st st' h3 centre.
  split; [run|]. split; [run|]. split; [run_outcome|].
  split; [run|]. split; run_outcome.
Qed.

End DriverProofs.

(** ** Move submission *)
Module LichessProofs.
Import Lichess.

Lemma reply_cases (r : reply) :
  r = Accepted \/ terminal r = true \/ transient r = true.
Proof.
  destruct r as [|err]; [left; reflexivity|right].
  unfold terminal, transient. destruct (Driver.py_in not_your_turn err); auto.
Qed.

Lemma terminal_not_transient (r : reply) :
  terminal r = true -> transient r = false.
Proof.
  destruct r as [|err]; simpl; [discriminate|]. intros ->. reflexivity.
Qed.

(** A round that meets a terminal rejection breaks out of the loop after
    the one submission. *)
Lemma round_terminal (move : string) (r : reply) (g : Game) :
  terminal r = true ->
  make_move_round (Some move) r g = (Broke, emit (Submit (game_id g) move) g).
Proof.
  destruct r as [|err]; simpl; [discriminate|]. intros ->. reflexivity.
Qed.

Lemma round_accepted (move : string) (g : Game) :
  make_move_round (Some move) Accepted g
  = (Returned, signal_move (emit (Submit (game_id g) move) g)).
Proof. reflexivity. Qed.

(** A round that meets another rejection sleeps three seconds; it goes to
    the next round when no rejection is pending, and calls [game_done]
    when one is. *)
Lemma round_transient (move : string) (r : reply) (g : Game) :
  transient r = true ->
  make_move_round (Some move) r g
  = let g' := emit (Sleep 3) (emit (Submit (game_id g) move) g) in
    if response_error_on_last_attempt g
    then (Raised (fst (game_done None (set_flag false g'))),
          snd (game_done None (set_flag false g')))
    else (Continued, set_flag true g').
Proof.
  destruct r as [|err]; simpl; [discriminate|]. intros H.
  apply negb_true_iff in H. rewrite H.
  destruct (response_error_on_last_attempt g); reflexivity.
Qed.

(** Two rounds always end the loop. *)
Lemma make_move_two_rounds_suffice (env : Env) (move : option string)
      (g : Game) (fuel : nat) :
  exists out, make_move env (S (S fuel)) move g = Some out.
Proof.
  unfold make_move. cbn [make_move_loop].
  destruct (game_over_is_set env 0); [eauto|].
  destruct move as [move|]; [|cbn; eauto].
  destruct (reply_cases (server_reply env 0)) as [E|[E|E]].
  - rewrite E, round_accepted. cbn [make_move_loop]. eauto.
  - rewrite (round_terminal move _ g E). cbn [make_move_loop]. eauto.
  - rewrite (round_transient move _ g E).
    destruct (response_error_on_last_attempt g);
      cbn [make_move_loop]; [eauto|].
    destruct (game_over_is_set env 1); [eauto|].
    destruct (reply_cases (server_reply env 1)) as [E1|[E1|E1]].
    + rewrite E1, round_accepted. cbn [make_move_loop]. eauto.
    + rewrite (round_terminal move _ _ E1). cbn [make_move_loop]. eauto.
    + rewrite (round_transient move _ _ E1).
      cbn [make_move_loop response_error_on_last_attempt set_flag]. eauto.
Qed.

(** C6, as the code has it: a submission that starts with no rejection
    pending, while the game is not over.  A "not your turn, or game already over" rejection
    ends [make_move] after that one submission, at the first round or at
    the second.  Any other rejection at the first round is followed by a
    sleep of three seconds and, the game still not being over, by a second
    submission of the same move, without [game_done] having run.  A second
    rejection of that kind at this second submission is followed by the
    same sleep and by [game_done], which raises [NicLinkGameOver].  And
    [make_move] ends with [NicLinkGameOver] in that case only. *)
Theorem make_move_retry_policy (env : Env) (move : string) (g : Game) :
  response_error_on_last_attempt g = false ->
  game_over_is_set env 0 = false ->
  let r0 := server_reply env 0 in
  let r1 := server_reply env 1 in
  let g1 := emit (Submit (game_id g) move) g in
  let g2 := emit (Submit (game_id g) move)
                 (set_flag true (emit (Sleep 3) g1)) in
  (terminal r0 = true ->
   forall fuel, make_move env (S fuel) (Some move) g = Some (Ret tt, g1))
  /\ (transient r0 = true -> game_over_is_set env 1 = false ->
      game_done_ran g2 = game_done_ran g
      /\ (r1 = Accepted ->
          forall fuel,
            make_move env (S (S fuel)) (Some move) g
            = Some (Ret tt, signal_move g2))
      /\ (terminal r1 = true ->
          forall fuel,
            make_move env (S (S fuel)) (Some move) g = Some (Ret tt, g2))
      /\ (transient r1 = true ->
          forall fuel,
            make_move env (S (S fuel)) (Some move) g
            = Some (Raise (NicLinkGameOver "Game over"),
                    snd (game_done None (set_flag false (emit (Sleep 3) g2))))))
  /\ (forall fuel r g',
         make_move env fuel (Some move) g = Some (r, g') ->
         (exists e, r = Raise e)
         <-> (transient r0 = true /\ game_over_is_set env 1 = false
              /\ transient r1 = true)).
Proof.
  intros Hflag Hover r0 r1 g1 g2. split; [|split].
  - intros Ht fuel. unfold make_move. cbn [make_move_loop]. rewrite Hover.
    fold r0. rewrite (round_terminal move r0 g Ht). reflexivity.
  - intros Ht Hover1.
    assert (Hround : make_move_round (Some move) r0 g
                     = (Continued, set_flag true (emit (Sleep 3) g1))).
    { rewrite (round_transient move r0 g Ht), Hflag. reflexivity. }
    split; [reflexivity|]. split; [|split].
    + intros E fuel. unfold make_move. cbn [make_move_loop]. rewrite Hover.
      fold r0. rewrite Hround, Hover1. fold r1. rewrite E. reflexivity.
    + intros E fuel. unfold make_move. cbn [make_move_loop]. rewrite Hover.
      fold r0. rewrite Hround, Hover1. fold r1.
      rewrite (round_terminal move r1 _ E). reflexivity.
    + intros E fuel. unfold make_move. cbn [make_move_loop]. rewrite Hover.
      fold r0. rewrite Hround, Hover1. fold r1.
      rewrite (round_transient move r1 _ E). reflexivity.
  - intros fuel r g'. unfold make_move.
    destruct fuel as [|fuel]; cbn [make_move_loop]; [discriminate|].
    rewrite Hover. fold r0.
    destruct (reply_cases r0) as [E|[E|E]].
    + rewrite E, round_accepted. intros Hrun. inversion Hrun. split.
      * intros [e He]. discriminate He.
      * intros (Ha & _). discriminate Ha.
    + rewrite (round_terminal move r0 g E). intros Hrun. inversion Hrun. split.
      * intros [e He]. discriminate He.
      * intros (Ha & _). rewrite (terminal_not_transient r0 E) in Ha.
        discriminate Ha.
    + rewrite (round_transient move r0 g E), Hflag. cbn [make_move_loop].
      destruct fuel as [|fuel]; cbn [make_move_loop]; [discriminate|].
      destruct (game_over_is_set env 1) eqn:Hover1.
      { intros Hrun. inversion Hrun. split.
        - intros [e He]. discriminate He.
        - intros (_ & Hb & _). discriminate Hb. }
      fold r1. destruct (reply_cases r1) as [E1|[E1|E1]].
      * rewrite E1, round_accepted. intros Hrun. inversion Hrun. split.
        -- intros [e He]. discriminate He.
        -- intros (_ & _ & Hc). discriminate Hc.
      * rewrite (round_terminal move r1 _ E1). intros Hrun. inversion Hrun.
        split.
        -- intros [e He]. discriminate He.
        -- intros (_ & _ & Hc).
           rewrite (terminal_not_transient r1 E1) in Hc. discriminate Hc.
      * rewrite (round_transient move r1 _ E1).
        cbn [make_move_loop response_error_on_last_attempt set_flag].
        intros Hrun. inversion Hrun. split; [auto|]. intros _. eauto.
Qed.

(** With a rejection pending from an earlier call (one that ended on a
    terminal rejection after a first rejection of the other kind, which
    leaves the flag set), the next rejection of that kind calls
    [game_done]. *)
Lemma make_move_with_rejection_pending (env : Env) (move : string) (g : Game)
      (fuel : nat) :
  response_error_on_last_attempt g = true ->
  game_over_is_set env 0 = false ->
  transient (server_reply env 0) = true ->
  make_move env (S fuel) (Some move) g
  = Some (Raise (NicLinkGameOver "Game over"),
          snd (game_done None
                 (set_flag false
                    (emit (Sleep 3) (emit (Submit (game_id g) move) g))))).
Proof.
  intros Hflag Hover Ht. unfold make_move. cbn [make_move_loop].
  rewrite Hover, (round_transient move _ g Ht), Hflag. reflexivity.
Qed.

(** The theorem against a server that is busy twice, and against one that
    is busy and then says the turn has passed. *)
Lemma make_move_retry_policy_witness :
  make_move busy_server 2 (Some "e2e4") fresh_game
  = Some (Raise (NicLinkGameOver "Game over"),
          {| game_id := "abcd1234";
             response_error_on_last_attempt := false;
             chess_clock := true;
             effects := [LightsOut; Sleep 3; GameoverLights; Beep;
                         SetGameOver; ClockGameOver;
                         Sleep 3; Submit "abcd1234" "e2e4";
                         Sleep 3; Submit "abcd1234" "e2e4"] |})
  /\ make_move busy_then_late_server 2 (Some "e2e4") fresh_game
     = Some (Ret tt,
             {| game_id := "abcd1234";
                response_error_on_last_attempt := true;
                chess_clock := true;
                effects := [Submit "abcd1234" "e2e4"; Sleep 3;
                            Submit "abcd1234" "e2e4"] |}).
Proof.
  split.
  - apply (proj1 (proj2 (make_move_retry_policy busy_server "e2e4" fresh_game
                           eq_refl eq_refl))); reflexivity.
  - apply (proj1 (proj2 (make_move_retry_policy busy_then_late_server "e2e4"
                           fresh_game eq_refl eq_refl))); reflexivity.
Defined.

(** C6 as stated fails from one submission to the next: against a server
    that is busy and then says the turn has passed, [make_move] returns
    with the flag of the rejection still set; the next submission, against
    a busy server, calls [game_done] at its first rejection, after one
    submission. *)
Lemma make_move_first_rejection_fatal_after_a_break :
  let g1 :=
    {| game_id := "abcd1234";
       response_error_on_last_attempt := true;
       chess_clock := true;
       effects := [Submit "abcd1234" "e2e4"; Sleep 3;
                   Submit "abcd1234" "e2e4"] |} in
  make_move busy_then_late_server 2 (Some "e2e4") fresh_game
  = Some (Ret tt, g1)
  /\ transient (server_reply busy_server 0) = true
  /\ make_move busy_server 1 (Some "g1f3") g1
     = Some (Raise (NicLinkGameOver "Game over"),
             {| game_id := "abcd1234";
                response_error_on_last_attempt := false;
                chess_clock := true;
                effects := [LightsOut; Sleep 3; GameoverLights; Beep;
                            SetGameOver; ClockGameOver;
                            Sleep 3; Submit "abcd1234" "g1f3";
                            Submit "abcd1234" "e2e4"; Sleep 3;
                            Submit "abcd1234" "e2e4"] |}).
Proof. repeat split. Qed.

End LichessProofs.

(** * Further properties *)

(** ** The bluetooth codec, further *)
Module BluetoothMore.
Import Bluetooth.

Lemma nibble_cases (s : Z) :
  (0 <= s <= 15)%Z ->
  (s = 0 \/ s = 1 \/ s = 2 \/ s = 3 \/ s = 4 \/ s = 5 \/ s = 6 \/ s = 7
   \/ s = 8 \/ s = 9 \/ s = 10 \/ s = 11 \/ s = 12 \/ s = 13 \/ s = 14
   \/ s = 15)%Z.
Proof. lia. Qed.

Lemma byte_nibbles (b : Z) :
  (0 <= b < 256)%Z ->
  (0 <= Z.shiftr b 4 <= 15)%Z /\ (0 <= Z.land b MASKLOW <= 15)%Z.
Proof.
  intros H. split.
  - rewrite Z.shiftr_div_pow2 by lia. change (2 ^ 4)%Z with 16%Z.
    split; [apply Z.div_pos; lia|].
    assert (b / 16 < 16)%Z by (apply Z.div_lt_upper_bound; lia). lia.
  - change MASKLOW with (Z.ones 4). rewrite Z.land_ones by lia.
    change (2 ^ 4)%Z with 16%Z.
    pose proof (Z.mod_pos_bound b 16 ltac:(lia)). lia.
Qed.

(** A square either extends the string or raises [KeyError]. *)
Lemma square_step_cases (s : Z) (st : string * nat) :
  (0 <= s <= 15)%Z ->
  if (s <=? 12)%Z then exists st', square_step s st = Ret st'
  else square_step s st = Raise KeyError.
Proof.
  intros H. destruct st as [FEN c]. unfold square_step, fen_constructor.
  destruct (nibble_cases s H) as
      [->|[->|[->|[->|[->|[->|[->|[->|[->|[->|[->|[->|[->|[->|[->| ->]]]]]]]]]]]]]]];
    simpl; try (destruct (c + 1 =? 8); eauto; fail);
    destruct (c =? 0); simpl; eauto.
Qed.

Lemma byte_step_cases (b : Z) (st : string * nat) :
  (0 <= b < 256)%Z ->
  if decodable b then exists st', byte_step b st = Ret st'
  else byte_step b st = Raise KeyError.
Proof.
  intros Hb. destruct (byte_nibbles b Hb) as [Hhi Hlo].
  unfold decodable, byte_step.
  replace (0 <=? Z.shiftr b 4)%Z with true
    by (symmetry; apply Z.leb_le; lia).
  simpl.
  pose proof (square_step_cases (Z.shiftr b 4) st Hhi) as H1.
  destruct (Z.shiftr b 4 <=? 12)%Z; simpl.
  - destruct H1 as [st1 ->]. simpl.
    pose proof (square_step_cases (Z.land b MASKLOW) st1 Hlo) as H2.
    destruct (Z.land b MASKLOW <=? 12)%Z; assumption.
  - rewrite H1. reflexivity.
Qed.

Lemma row_loop_cases (row : list Z) :
  is_bytes row = true ->
  forall st,
    if forallb decodable row then exists st', row_loop row st = Ret st'
    else row_loop row st = Raise KeyError.
Proof.
  induction row as [|b row IH]; simpl; intros Hb st; [eauto|].
  apply andb_true_iff in Hb. destruct Hb as [Hb Hrow].
  apply andb_true_iff in Hb. destruct Hb as [H0 H256].
  apply Z.leb_le in H0. apply Z.ltb_lt in H256.
  pose proof (byte_step_cases b st (conj H0 H256)) as H1.
  destruct (decodable b); simpl.
  - destruct H1 as [st1 ->]. simpl. apply IH. assumption.
  - rewrite H1. reflexivity.
Qed.

Lemma is_bytes_slice (data : list Z) (i j : nat) :
  is_bytes data = true -> is_bytes (rev (py_slice i j data)) = true.
Proof.
  intros H. unfold is_bytes, py_slice.
  apply BluetoothProofs.forallb_rev, BluetoothProofs.forallb_firstn,
    BluetoothProofs.forallb_skipn. exact H.
Qed.

Lemma forallb_rev_eq {A : Type} (f : A -> bool) (l : list A) :
  forallb f (rev l) = forallb f l.
Proof.
  induction l as [|x l IH]; simpl; [reflexivity|].
  rewrite forallb_app, IH. simpl. rewrite andb_true_r. apply andb_comm.
Qed.

Lemma column_loop_cases (data : list Z) (cols : list nat) :
  is_bytes data = true ->
  forall FEN,
    if forallb (fun k => forallb decodable (py_slice (k * 4) (k * 4 + 4) data))
               cols
    then exists s, column_loop data cols FEN = Ret s
    else column_loop data cols FEN = Raise KeyError.
Proof.
  intros Hb. induction cols as [|k cols IH]; simpl; intros FEN; [eauto|].
  unfold column_step.
  pose proof (row_loop_cases (rev (py_slice (k * 4) (k * 4 + 4) data))
                (is_bytes_slice data _ _ Hb) (FEN, 0)) as H1.
  rewrite forallb_rev_eq in H1.
  destruct (forallb decodable (py_slice (k * 4) (k * 4 + 4) data)); simpl.
  - destruct H1 as [st1 ->]. simpl. destruct (negb (k =? 8)); apply IH.
  - rewrite H1. reflexivity.
Qed.

Lemma firstn_add {A : Type} (n m : nat) (l : list A) :
  firstn (n + m) l = (firstn n l ++ firstn m (skipn n l))%list.
Proof.
  revert l. induction n as [|n IH]; intros l; simpl; [reflexivity|].
  destruct l as [|x l]; simpl.
  - destruct m; reflexivity.
  - rewrite IH. reflexivity.
Qed.

(** The eight slices of [board_fen] cover the first 32 bytes. *)
Lemma slices_cover (f : Z -> bool) (data : list Z) :
  forallb (fun k => forallb f (py_slice (k * 4) (k * 4 + 4) data)) (seq 0 8)
  = forallb f (firstn 32 data).
Proof.
  unfold py_slice. cbn [seq forallb Nat.mul Nat.add Nat.sub].
  change (firstn 32 data) with (firstn (4 + 28) data).
  rewrite firstn_add.
  change (firstn 28) with (@firstn Z (4 + 24)). rewrite firstn_add.
  change (firstn 24) with (@firstn Z (4 + 20)). rewrite firstn_add.
  change (firstn 20) with (@firstn Z (4 + 16)). rewrite firstn_add.
  change (firstn 16) with (@firstn Z (4 + 12)). rewrite firstn_add.
  change (firstn 12) with (@firstn Z (4 + 8)). rewrite firstn_add.
  change (firstn 8) with (@firstn Z (4 + 4)). rewrite firstn_add.
  rewrite !forallb_app, !skipn_skipn.
  cbn [Nat.add]. rewrite andb_true_r. reflexivity.
Qed.

(** X1: on a [bytes] object of any length, [board_fen] returns a string
    when every nibble of the first 32 bytes is a piece value (0 to 12), and
    raises [KeyError] otherwise; the length is never checked. *)
Theorem board_fen_returns_or_KeyError (data : list Z) :
  is_bytes data = true ->
  if forallb decodable (firstn 32 data)
  then exists s, board_fen data = Ret s
  else board_fen data = Raise KeyError.
Proof.
  intros Hb. rewrite <- slices_cover. apply column_loop_cases. exact Hb.
Qed.

(** The theorem on the empty snapshot and on a snapshot with the value 13
    on a1. *)
Lemma board_fen_returns_or_KeyError_witness :
  (exists s, board_fen [] = Ret s)
  /\ board_fen (repeat 0%Z 31 ++ [208%Z]) = Raise KeyError.
Proof.
  split.
  - apply (board_fen_returns_or_KeyError [] eq_refl).
  - apply (board_fen_returns_or_KeyError (repeat 0%Z 31 ++ [208%Z]) eq_refl).
Defined.

Lemma row_loop_squares (row : list Z) (st : string * nat) :
  row_loop row st = squares_loop (flat_map nibbles row) st.
Proof.
  revert st. induction row as [|b row IH]; intros st; simpl; [reflexivity|].
  unfold byte_step.
  destruct (square_step (Z.shiftr b 4) st) as [st1|e]; simpl; [|reflexivity].
  destruct (square_step (Z.land b MASKLOW) st1) as [st2|e]; simpl;
    [apply IH|reflexivity].
Qed.

Lemma append_assoc (a b c : string) : (a ++ b) ++ c = a ++ (b ++ c).
Proof. induction a as [|x a IH]; simpl; [reflexivity|]. rewrite IH. reflexivity. Qed.

Lemma append_empty_r (a : string) : a ++ "" = a.
Proof. induction a as [|x a IH]; simpl; [reflexivity|]. rewrite IH. reflexivity. Qed.

Lemma symbol_of_piece_value (s : Z) :
  (1 <= s <= 12)%Z -> convertDict s = Ret (symbol s).
Proof.
  intros H.
  assert (E : (s = 1 \/ s = 2 \/ s = 3 \/ s = 4 \/ s = 5 \/ s = 6 \/ s = 7
               \/ s = 8 \/ s = 9 \/ s = 10 \/ s = 11 \/ s = 12)%Z) by lia.
  repeat (destruct E as [->|E]; [reflexivity|]). subst s. reflexivity.
Qed.

(** What the squares that are left of a rank add to the string, [c] empty
    squares being pending: "8" when the whole rank turns out empty, else
    their run-length encoding without the last run of empty squares. *)
Lemma squares_loop_rle (squares : list Z) :
  forall (FEN : string) (c : nat),
    forallb (fun s => ((0 <=? s) && (s <=? 12))%Z) squares = true ->
    c + List.length squares <= 8 -> c < 8 ->
    exists c',
      squares_loop squares (FEN, c)
      = Ret (FEN ++ (if forallb (fun s => (s =? 0)%Z) squares
                        && (c + List.length squares =? 8)
                     then "8" else rle squares c), c').
Proof.
  induction squares as [|s squares IH]; intros FEN c Hok Hlen Hc.
  - simpl. replace (c + 0 =? 8) with false
      by (symmetry; apply Nat.eqb_neq; lia).
    rewrite append_empty_r. eauto.
  - simpl in Hok, Hlen. apply andb_true_iff in Hok. destruct Hok as [Hs Hok].
    apply andb_true_iff in Hs. destruct Hs as [Hs0 Hs12].
    apply Z.leb_le in Hs0, Hs12.
    cbn [squares_loop forallb rle List.length]. unfold square_step.
    destruct (Z.eqb_spec s 0) as [->|Hne].
    + cbn [andb]. destruct (Nat.eqb_spec (c + 1) 8) as [E8|N8].
      * assert (squares = []) by (destruct squares; simpl in Hlen; [reflexivity|lia]).
        subst squares. simpl.
        replace (c + 1 =? 8) with true by (symmetry; apply Nat.eqb_eq; lia).
        eauto.
      * cbn [rbind].
        destruct (IH FEN (c + 1) Hok ltac:(lia) ltac:(lia)) as [c' E].
        rewrite E. exists c'.
        replace (c + 1 + List.length squares) with (c + S (List.length squares))
          by lia.
        reflexivity.
    + replace (s =? 0)%Z with false by (symmetry; apply Z.eqb_neq; assumption).
      cbn [andb]. unfold fen_constructor.
      rewrite (symbol_of_piece_value s ltac:(lia)).
      destruct (c =? 0); cbn [rbind].
      * destruct (IH (FEN ++ symbol s) 0 Hok ltac:(lia) ltac:(lia)) as [c' E].
        exists c'. rewrite E.
        replace (0 + List.length squares =? 8) with false
          by (symmetry; apply Nat.eqb_neq; lia).
        rewrite andb_false_r, !append_assoc. reflexivity.
      * destruct (IH (FEN ++ py_str_nat c ++ symbol s) 0 Hok
                     ltac:(lia) ltac:(lia)) as [c' E].
        exists c'. rewrite E.
        replace (0 + List.length squares =? 8) with false
          by (symmetry; apply Nat.eqb_neq; lia).
        rewrite andb_false_r, !append_assoc. reflexivity.
Qed.

Lemma valid_byte_nibbles (b : Z) :
  valid_byte b = true ->
  forallb (fun s => ((0 <=? s) && (s <=? 12))%Z) (nibbles b) = true.
Proof.
  unfold valid_byte. intros H.
  apply andb_true_iff in H. destruct H as [H H4].
  apply andb_true_iff in H. destruct H as [H H3].
  apply andb_true_iff in H. destruct H as [H1 H2].
  apply Z.leb_le in H1. apply Z.ltb_lt in H2.
  destruct (byte_nibbles b (conj H1 H2)) as [Hhi Hlo].
  simpl. rewrite H3, H4.
  replace (0 <=? Z.shiftr b 4)%Z with true by (symmetry; apply Z.leb_le; lia).
  replace (0 <=? Z.land b MASKLOW)%Z with true by (symmetry; apply Z.leb_le; lia).
  reflexivity.
Qed.

Lemma valid_row_squares (row : list Z) :
  forallb valid_byte row = true ->
  forallb (fun s => ((0 <=? s) && (s <=? 12))%Z) (flat_map nibbles row) = true.
Proof.
  induction row as [|b row IH]; simpl; intros H; [reflexivity|].
  apply andb_true_iff in H. destruct H as [Hb Hrow].
  pose proof (valid_byte_nibbles b Hb) as Hn. simpl in Hn.
  apply andb_true_iff in Hn. destruct Hn as [-> Hn].
  apply andb_true_iff in Hn. destruct Hn as [-> _].
  simpl. apply IH. assumption.
Qed.

(** The squares [board_fen] goes through for a rank are the squares of the
    rank from file a to file h. *)
Lemma slice_squares (data : list Z) (k : nat) :
  List.length data = 32 -> k < 8 ->
  flat_map nibbles (rev (py_slice (k * 4) (k * 4 + 4) data))
  = rank_squares data k.
Proof.
  intros Hlen Hk.
  do 32 (destruct data as [|? data]; [discriminate Hlen|]).
  destruct data; [|discriminate Hlen].
  do 8 (destruct k as [|k]; [reflexivity|]). lia.
Qed.

Lemma column_step_rank (data : list Z) (k : nat) (FEN : string) :
  valid_snapshot data = true -> k < 8 ->
  column_step data k FEN
  = Ret (FEN ++ encode_rank (rank_squares data k) ++ "/").
Proof.
  unfold valid_snapshot. intros H Hk.
  apply andb_true_iff in H. destruct H as [Hlen Hvalid].
  apply Nat.eqb_eq in Hlen.
  unfold column_step. rewrite row_loop_squares.
  assert (Hsq : forallb (fun s => ((0 <=? s) && (s <=? 12))%Z)
                        (flat_map nibbles
                                  (rev (py_slice (k * 4) (k * 4 + 4) data)))
                = true).
  { apply valid_row_squares. unfold py_slice.
    apply BluetoothProofs.forallb_rev, BluetoothProofs.forallb_firstn,
      BluetoothProofs.forallb_skipn. exact Hvalid. }
  rewrite (slice_squares data k Hlen Hk) in Hsq |- *.
  assert (L8 : List.length (rank_squares data k) = 8) by reflexivity.
  destruct (squares_loop_rle (rank_squares data k) FEN 0 Hsq
              ltac:(rewrite L8; lia) ltac:(lia)) as [c' E].
  rewrite E, L8. cbn [rbind fst Nat.add Nat.eqb].
  replace (k =? 8) with false by (symmetry; apply Nat.eqb_neq; lia).
  cbn [negb]. unfold encode_rank. rewrite andb_true_r, append_assoc.
  reflexivity.
Qed.

(** X2: on a valid snapshot, [board_fen] returns the segments of the eight
    ranks, rank 8 first, joined by "/" and followed by one more "/"; the
    segment of a rank is "8" when the rank is empty, and otherwise the
    letters of its pieces from file a to file h, each preceded by the
    number of empty squares before it, the empty squares after the last
    piece being left out. *)
Theorem board_fen_encodes_ranks (data : list Z) :
  valid_snapshot data = true ->
  board_fen data
  = Ret (String.concat "/" (map (fun k => encode_rank (rank_squares data k))
                                (seq 0 8)) ++ "/").
Proof.
  intros H. unfold board_fen. cbn [seq column_loop].
  rewrite (column_step_rank data 0 _ H ltac:(lia)). cbn [rbind].
  rewrite (column_step_rank data 1 _ H ltac:(lia)). cbn [rbind].
  rewrite (column_step_rank data 2 _ H ltac:(lia)). cbn [rbind].
  rewrite (column_step_rank data 3 _ H ltac:(lia)). cbn [rbind].
  rewrite (column_step_rank data 4 _ H ltac:(lia)). cbn [rbind].
  rewrite (column_step_rank data 5 _ H ltac:(lia)). cbn [rbind].
  rewrite (column_step_rank data 6 _ H ltac:(lia)). cbn [rbind].
  rewrite (column_step_rank data 7 _ H ltac:(lia)). cbn [rbind].
  cbn [map String.concat]. rewrite !append_assoc. reflexivity.
Qed.

(** The theorem on the two snapshots of the codec. *)
Lemma board_fen_encodes_ranks_witness :
  board_fen module_self_test_data
  = Ret (String.concat "/"
           (map (fun k => encode_rank (rank_squares module_self_test_data k))
                (seq 0 8)) ++ "/")
  /\ map (fun k => encode_rank (rank_squares after_e2e4_data k)) (seq 0 8)
     = ["rnbqkbnr"; "pppppppp"; "8"; "8"; "4P"; "8"; "PPPP1PPP"; "RNBQKBNR"].
Proof.
  split.
  - apply (board_fen_encodes_ranks module_self_test_data). reflexivity.
  - reflexivity.
Defined.

(** *** The frame of [leds] *)

Lemma testbit_set_bit (v : Z) (i j : nat) :
  Z.testbit (set_bit v i true) (Z.of_nat j) = Z.testbit v (Z.of_nat j) || (i =? j).
Proof.
  unfold set_bit.
  rewrite Z.lor_spec, Z.land_spec, Z.lnot_spec by lia.
  rewrite Z.shiftl_1_l, Z.pow2_bits_eqb by lia.
  replace (Z.of_nat i =? Z.of_nat j)%Z with (i =? j).
  - destruct (Z.testbit v (Z.of_nat j)), (i =? j); reflexivity.
  - destruct (Nat.eqb_spec i j) as [->|N]; symmetry;
      [apply Z.eqb_eq; reflexivity|apply Z.eqb_neq; lia].
Qed.

Lemma testbit_light (v : Z) (i j : nat) (piece : bool) :
  Z.testbit (light v i piece) (Z.of_nat j)
  = Z.testbit v (Z.of_nat j) || (piece && (i =? j)).
Proof.
  unfold light. destruct piece; simpl;
    [apply testbit_set_bit|rewrite orb_false_r; reflexivity].
Qed.

Lemma set_bit_table :
  forallb (fun n =>
             forallb (fun i =>
                        let v' := set_bit (Z.of_nat n) i true in
                        ((0 <=? v') && (v' <? 256))%Z)
                     (seq 0 8))
          (seq 0 256) = true.
Proof. vm_compute. reflexivity. Qed.

Lemma set_bit_range (v : Z) (i : nat) :
  (0 <= v < 256)%Z -> i < 8 -> (0 <= set_bit v i true < 256)%Z.
Proof.
  intros Hv Hi. pose proof set_bit_table as T.
  rewrite forallb_forall in T.
  assert (Hn : In (Z.to_nat v) (seq 0 256)) by (apply in_seq; lia).
  assert (Hin : In i (seq 0 8)) by (apply in_seq; lia).
  specialize (T (Z.to_nat v) Hn).
  rewrite forallb_forall in T.
  specialize (T i Hin).
  rewrite Z2Nat.id in T by lia. cbv zeta in T.
  apply andb_true_iff in T. destruct T as [T1 T2].
  apply Z.leb_le in T1. apply Z.ltb_lt in T2. lia.
Qed.

Lemma light_range (v : Z) (i : nat) (piece : bool) :
  (0 <= v < 256)%Z -> i < 8 -> (0 <= light v i piece < 256)%Z.
Proof.
  intros Hv Hi. unfold light. destruct piece; [apply set_bit_range|]; assumption.
Qed.

Lemma replace_at_length {A : Type} (i : nat) (x : A) (l : list A) :
  List.length (replace_at i x l) = List.length l.
Proof. revert i. induction l as [|y l IH]; intros [|i]; simpl; auto. Qed.

Lemma replace_at_same {A : Type} (i : nat) (x : A) (l : list A) :
  nth_error l i = Some x -> replace_at i x l = l.
Proof.
  revert i. induction l as [|y l IH]; intros [|i]; simpl; try discriminate.
  - intros H. inversion H. reflexivity.
  - intros H. rewrite (IH i H). reflexivity.
Qed.

Lemma replace_at_twice {A : Type} (i : nat) (x y : A) (l : list A) :
  replace_at i y (replace_at i x l) = replace_at i y l.
Proof.
  revert i. induction l as [|z l IH]; intros [|i]; simpl; auto.
  rewrite IH. reflexivity.
Qed.

Lemma nth_error_replace_at {A : Type} (i : nat) (x : A) (l : list A) :
  i < List.length l -> nth_error (replace_at i x l) i = Some x.
Proof.
  revert i. induction l as [|z l IH]; intros [|i]; simpl; intros H;
    try lia; [reflexivity|apply IH; lia].
Qed.

(** The letters of the pieces are alphanumeric, the blank of an empty
    square is not. *)
Lemma isalnum_of_value (s : Z) :
  (0 <= s <= 12)%Z ->
  exists n, convertDict s = Ret n /\ isalnum n = negb (s =? 0)%Z.
Proof.
  intros H.
  assert (E : (s = 0 \/ s = 1 \/ s = 2 \/ s = 3 \/ s = 4 \/ s = 5 \/ s = 6
               \/ s = 7 \/ s = 8 \/ s = 9 \/ s = 10 \/ s = 11 \/ s = 12)%Z)
    by lia.
  repeat (destruct E as [->|E]; [eexists; split; reflexivity|]).
  subst s. eexists; split; reflexivity.
Qed.

Lemma light_if_piece_spec (k index : nat) (s : Z) (n : string)
      (v : Z) (led : list Z) :
  isalnum n = negb (s =? 0)%Z ->
  k + 2 < List.length led -> (0 <= v < 256)%Z -> index < 8 ->
  nth_error led (k + 2) = Some v ->
  light_if_piece k index n (v, led)
  = Ret (light v index (negb (s =? 0)%Z),
         replace_at (k + 2) (light v index (negb (s =? 0)%Z)) led).
Proof.
  intros Hn Hk Hv Hi Hnth. unfold light_if_piece, light. rewrite Hn.
  destruct (negb (s =? 0)%Z).
  - unfold bytearray_setitem.
    replace (k + 2 <? List.length led) with true
      by (symmetry; apply Nat.ltb_lt; assumption).
    pose proof (set_bit_range v index Hv Hi) as R.
    replace ((0 <=? set_bit v index true)%Z) with true
      by (symmetry; apply Z.leb_le; lia).
    replace ((set_bit v index true <? 256)%Z) with true
      by (symmetry; apply Z.ltb_lt; lia).
    reflexivity.
  - rewrite (replace_at_same _ _ _ Hnth). reflexivity.
Qed.

Lemma leds_byte_spec (k counter : nat) (b v : Z) (led : list Z) :
  valid_byte b = true ->
  k + 2 < List.length led -> (0 <= v < 256)%Z -> counter < 4 ->
  nth_error led (k + 2) = Some v ->
  leds_byte k counter b led
  = Ret (replace_at (k + 2) (row_value v counter [b]) led).
Proof.
  intros Hb Hk Hv Hc Hnth.
  pose proof (valid_byte_nibbles b Hb) as Hn. simpl in Hn.
  apply andb_true_iff in Hn. destruct Hn as [Hhi Hn].
  apply andb_true_iff in Hn. destruct Hn as [Hlo _].
  apply andb_true_iff in Hhi, Hlo.
  destruct Hhi as [Hhi0 Hhi12], Hlo as [Hlo0 Hlo12].
  apply Z.leb_le in Hhi0, Hhi12, Hlo0, Hlo12.
  destruct (isalnum_of_value (Z.land b MASKLOW) (conj Hlo0 Hlo12))
    as (n1 & E1 & A1).
  destruct (isalnum_of_value (Z.shiftr b 4) (conj Hhi0 Hhi12))
    as (n2 & E2 & A2).
  unfold leds_byte, bytearray_getitem. rewrite Hnth. cbn [rbind].
  rewrite E1. cbn [rbind].
  rewrite (light_if_piece_spec k (counter * 2) _ n1 v led A1 Hk Hv
             ltac:(lia) Hnth).
  cbn [rbind]. rewrite E2. cbn [rbind].
  rewrite (light_if_piece_spec k (counter * 2 + 1) _ n2 _ _ A2
             ltac:(rewrite replace_at_length; exact Hk)
             (light_range v (counter * 2) _ Hv ltac:(lia))
             ltac:(lia)
             (nth_error_replace_at _ _ _ Hk)).
  cbn [rbind snd row_value]. rewrite replace_at_twice. reflexivity.
Qed.

Lemma row_value_range (row : list Z) :
  forall v counter,
    (0 <= v < 256)%Z -> counter + List.length row <= 4 ->
    (0 <= row_value v counter row < 256)%Z.
Proof.
  induction row as [|b row IH]; intros v counter Hv Hc; simpl; [assumption|].
  simpl in Hc. apply IH; [|lia].
  apply light_range; [apply light_range; [assumption|lia]|lia].
Qed.

Lemma leds_row_spec (k : nat) (row : list Z) :
  forall counter v led,
    forallb valid_byte row = true ->
    k + 2 < List.length led -> (0 <= v < 256)%Z ->
    counter + List.length row <= 4 ->
    nth_error led (k + 2) = Some v ->
    leds_row k counter row led
    = Ret (replace_at (k + 2) (row_value v counter row) led).
Proof.
  induction row as [|b row IH]; intros counter v led Hrow Hk Hv Hc Hnth.
  - simpl. rewrite (replace_at_same _ _ _ Hnth). reflexivity.
  - simpl in Hrow, Hc. apply andb_true_iff in Hrow. destruct Hrow as [Hb Hrow].
    cbn [leds_row].
    rewrite (leds_byte_spec k counter b v led Hb Hk Hv ltac:(lia) Hnth).
    cbn [rbind].
    rewrite (IH (S counter) (row_value v counter [b]) _ Hrow
               ltac:(rewrite replace_at_length; exact Hk)
               (row_value_range [b] v counter Hv ltac:(simpl; lia))
               ltac:(lia)
               (nth_error_replace_at _ _ _ Hk)).
    rewrite replace_at_twice. reflexivity.
Qed.

Lemma valid_slice (data : list Z) (i j : nat) :
  forallb valid_byte data = true ->
  forallb valid_byte (py_slice i j data) = true.
Proof.
  intros H. unfold py_slice.
  apply BluetoothProofs.forallb_firstn, BluetoothProofs.forallb_skipn. exact H.
Qed.

Lemma slice_length (data : list Z) (k : nat) :
  0 + List.length (py_slice (k * 4) (k * 4 + 4) data) <= 4.
Proof.
  unfold py_slice. replace (k * 4 + 4 - k * 4) with 4 by lia.
  rewrite length_firstn. lia.
Qed.

Ltac row_step k v :=
  match goal with
  | |- context [leds_row k 0 ?row ?led] =>
      rewrite (leds_row_spec k row 0 v led);
      [ cbn [rbind replace_at Nat.add leds_columns]
      | apply valid_slice; assumption
      | simpl; lia
      | lia
      | apply slice_length
      | reflexivity ]
  end.

(** The frame of [leds]: the two control bytes and, row by row, the byte
    [row_value] builds; the byte of the first row starts from 1. *)
Lemma leds_frame (data : list Z) :
  forallb valid_byte data = true ->
  leds data
  = Ret (10 :: 8 :: row_value 1 0 (py_slice 0 4 data)
            :: map (fun k => row_value 0 0 (py_slice (k * 4) (k * 4 + 4) data))
                   (seq 1 7))%Z.
Proof.
  intros H. unfold leds. cbn [seq leds_columns map].
  row_step 0 1%Z. row_step 1 0%Z. row_step 2 0%Z. row_step 3 0%Z.
  row_step 4 0%Z. row_step 5 0%Z. row_step 6 0%Z. row_step 7 0%Z.
  reflexivity.
Qed.

Lemma row_value_bits (b0 b1 b2 b3 v : Z) (k : nat) :
  k < 8 ->
  Z.testbit (row_value v 0 [b0; b1; b2; b3]) (Z.of_nat k)
  = Z.testbit v (Z.of_nat k) || occupied [b0; b1; b2; b3] k.
Proof.
  intros Hk. cbn [row_value]. rewrite !testbit_light.
  do 8 (destruct k as [|k];
        [unfold occupied, square_code; cbn [Nat.mul Nat.add Nat.eqb];
         simpl (nth _ _ _); simpl (Nat.even _);
         rewrite ?andb_false_r, ?andb_true_r, ?orb_false_r; reflexivity|]).
  lia.
Qed.

Lemma occupied_slice (data : list Z) (c k : nat) :
  List.length data = 32 -> c < 8 -> k < 8 ->
  occupied (py_slice (c * 4) (c * 4 + 4) data) k = occupied data (8 * c + k).
Proof.
  intros Hlen Hc Hk.
  do 32 (destruct data as [|? data]; [discriminate Hlen|]).
  destruct data; [|discriminate Hlen].
  do 8 (destruct c as [|c];
        [do 8 (destruct k as [|k]; [reflexivity|]); lia|]).
  lia.
Qed.

Lemma slice_four (data : list Z) (c : nat) :
  List.length data = 32 -> c < 8 ->
  exists b0 b1 b2 b3, py_slice (c * 4) (c * 4 + 4) data = [b0; b1; b2; b3].
Proof.
  intros Hlen Hc.
  do 32 (destruct data as [|? data]; [discriminate Hlen|]).
  destruct data; [|discriminate Hlen].
  do 8 (destruct c as [|c]; [do 4 eexists; reflexivity|]). lia.
Qed.

Lemma testbit_one (k : nat) : Z.testbit 1 (Z.of_nat k) = (k =? 0).
Proof.
  destruct k as [|k]; [reflexivity|].
  rewrite Nat2Z.inj_succ. change 1%Z with (2 ^ 0)%Z.
  rewrite Z.pow2_bits_eqb by lia.
  apply Z.eqb_neq. lia.
Qed.

(** The bits of the byte a row of the frame gets, from the value [v] the
    byte starts with. *)
Lemma frame_row_bits (data : list Z) (c k : nat) (v : Z) :
  List.length data = 32 -> c < 8 -> k < 8 ->
  Z.testbit (row_value v 0 (py_slice (c * 4) (c * 4 + 4) data)) (Z.of_nat k)
  = Z.testbit v (Z.of_nat k) || occupied data (8 * c + k).
Proof.
  intros Hlen Hc Hk.
  rewrite <- (occupied_slice data c k Hlen Hc Hk).
  destruct (slice_four data c Hlen Hc) as (b0 & b1 & b2 & b3 & ->).
  apply row_value_bits. exact Hk.
Qed.

(** X3: on a valid snapshot, [leds] builds a frame of ten bytes: the two
    control bytes 0x0A and 0x08, then one byte for each row of the board,
    the row of rank 8 first.  Bit [k] of the byte of row [c] is set exactly
    when a piece stands on square number [8 * c + k] of the snapshot (h8 is
    number 0), except that bit 0 of the first row (h8) is always set,
    the frame being started with 0x01 in that byte. *)
Theorem leds_lights_the_occupied_squares (data : list Z) :
  valid_snapshot data = true ->
  exists rows,
    leds data = Ret (10 :: 8 :: rows)%Z
    /\ List.length rows = 8
    /\ forall c k, c < 8 -> k < 8 ->
         (0 <= nth c rows 0 < 256)%Z
         /\ Z.testbit (nth c rows 0%Z) (Z.of_nat k)
            = occupied data (8 * c + k) || ((c =? 0) && (k =? 0)).
Proof.
  unfold valid_snapshot. intros H.
  apply andb_true_iff in H. destruct H as [Hlen Hvalid].
  apply Nat.eqb_eq in Hlen.
  eexists. split; [apply leds_frame; exact Hvalid|].
  split; [reflexivity|].
  intros c k Hc Hk.
  assert (E : exists v,
             nth c (row_value 1 0 (py_slice 0 4 data)
                      :: map (fun k => row_value 0 0
                                         (py_slice (k * 4) (k * 4 + 4) data))
                             (seq 1 7)) 0%Z
             = row_value v 0 (py_slice (c * 4) (c * 4 + 4) data)
             /\ (0 <= v < 256)%Z
             /\ Z.testbit v (Z.of_nat k) = (c =? 0) && (k =? 0)).
  { destruct c as [|c].
    - exists 1%Z. split; [reflexivity|]. split; [lia|]. apply testbit_one.
    - exists 0%Z. split; [|split; [lia|apply Z.bits_0]].
      do 7 (destruct c as [|c]; [reflexivity|]). lia. }
  destruct E as (v & -> & Hv & Hbit). split.
  - apply row_value_range; [exact Hv|]. apply slice_length.
  - rewrite (frame_row_bits data c k v Hlen Hc Hk), Hbit. apply orb_comm.
Qed.

(** The theorem on the snapshot of the module's self test: the frame, and
    the bits of the row of rank 8, all set. *)
Lemma leds_lights_the_occupied_squares_witness :
  (exists rows,
      leds module_self_test_data = Ret (10 :: 8 :: rows)%Z
      /\ List.length rows = 8
      /\ forall c k, c < 8 -> k < 8 ->
           (0 <= nth c rows 0 < 256)%Z
           /\ Z.testbit (nth c rows 0%Z) (Z.of_nat k)
              = occupied module_self_test_data (8 * c + k)
                || ((c =? 0) && (k =? 0)))
  /\ leds module_self_test_data
     = Ret [10; 8; 255; 255; 0; 0; 0; 0; 255; 255]%Z.
Proof.
  split.
  - apply (leds_lights_the_occupied_squares module_self_test_data). reflexivity.
  - reflexivity.
Defined.
End BluetoothMore.

(** ** Squares and leds, further *)

Module LedsMore.
Import Leds.

(** The file search finds the letters a to h and nothing else. *)
Lemma file_search_FILES (letter : ascii) :
  file_search letter FILES 0
  = if is_file letter then (true, file_of letter) else (false, 8).
Proof.
  destruct letter as [[] [] [] [] [] [] [] []]; reflexivity.
Qed.

Lemma square_cords_eq (square : string) :
  square_cords square
  = match square with
    | String f (String r _) =>
        if is_digit r then
          if is_file f
          then Ret (file_of f, Z.of_nat (nat_of_ascii r - 48) - 1)%Z
          else Raise (ValueError (String f " is not a valid file"))
        else Raise (ValueError "invalid literal for int() with base 10")
    | _ => Raise IndexError
    end.
Proof.
  destruct square as [|f [|r rest]]; try reflexivity.
  unfold square_cords, py_getitem, py_int_of_char, is_digit.
  cbn [String.get rbind Nat.eqb].
  destruct ((48 <=? nat_of_ascii r) && (nat_of_ascii r <=? 57));
    [|reflexivity].
  cbn [rbind]. rewrite file_search_FILES.
  destruct (is_file f); reflexivity.
Qed.

(** X4: [square_cords] looks at the first two characters of its argument
    only.  It raises [IndexError] when there are fewer than two,
    [ValueError] from [int] when the second is not a decimal digit, and
    [ValueError] naming the first character when that is not one of a to
    h.  Otherwise it returns the file and the digit less one: the digit
    is not checked to be a rank of the board, so that 0 gives rank -1 and
    9 gives rank 8. *)
Theorem square_cords_outcome (square : string) :
  square_cords square
  = match square with
    | String f (String r _) =>
        if is_digit r then
          if is_file f
          then Ret (file_of f, Z.of_nat (nat_of_ascii r - 48) - 1)%Z
          else Raise (ValueError (String f " is not a valid file"))
        else Raise (ValueError "invalid literal for int() with base 10")
    | _ => Raise IndexError
    end.
Proof. exact (square_cords_eq square). Qed.

Lemma nat_of_ascii_small (n : nat) :
  n < 256 -> nat_of_ascii (ascii_of_nat n) = n.
Proof. intros H. apply nat_ascii_embedding. exact H. Qed.

Lemma square_of_file (file : nat) :
  file < 8 ->
  is_file (ascii_of_nat (97 + file)) = true
  /\ file_of (ascii_of_nat (97 + file)) = file.
Proof.
  intros H. do 8 (destruct file as [|file]; [split; reflexivity|]). lia.
Qed.

Lemma square_of_rank (rank : nat) :
  rank < 8 ->
  is_digit (ascii_of_nat (49 + rank)) = true
  /\ nat_of_ascii (ascii_of_nat (49 + rank)) - 48 = rank + 1.
Proof.
  intros H. do 8 (destruct rank as [|rank]; [split; reflexivity|]). lia.
Qed.

(** X5: the coordinates of the square named after a file and a rank of
    the board are that file and that rank, a1 being (0, 0); and two
    squares of the board with the same coordinates have the same name. *)
Theorem square_cords_of_square_of (file rank : nat) :
  file < 8 -> rank < 8 ->
  square_cords (square_of file rank) = Ret (file, Z.of_nat rank)
  /\ forall file' rank',
       file' < 8 -> rank' < 8 ->
       square_cords (square_of file' rank')
       = square_cords (square_of file rank) ->
       square_of file' rank' = square_of file rank.
Proof.
  intros Hf Hr.
  assert (E : forall f r, f < 8 -> r < 8 ->
                square_cords (square_of f r) = Ret (f, Z.of_nat r)).
  { intros f r Hf' Hr'. rewrite square_cords_eq. unfold square_of.
    destruct (square_of_file f Hf') as [-> ->].
    destruct (square_of_rank r Hr') as [-> ->].
    f_equal. f_equal. lia. }
  split; [apply E; assumption|].
  intros file' rank' Hf' Hr' H.
  rewrite (E file rank Hf Hr), (E file' rank' Hf' Hr') in H.
  inversion H. apply Nat2Z.inj in H2. subst. reflexivity.
Qed.

Lemma square_cords_of_square_of_witness :
  square_cords (square_of 4 1) = Ret (4, 1%Z)
  /\ square_of 4 1 = "e2".
Proof.
  destruct (square_cords_of_square_of 4 1 ltac:(lia) ltac:(lia)) as [H1 _].
  split; [exact H1|reflexivity].
Defined.

(** X6: [set_led] asks the board interface for the led at row [7 - rank]
    and column [7 - file], counted from h8, with the status given.  It
    raises [IndexError] on fewer than two characters and [ValueError]
    from [int] when the second is not a decimal digit; when the first is
    not one of a to h, the [ValueError] it raises names the second
    character, not the first. *)
Theorem set_led_outcome (square : string) (status : bool) :
  set_led square status
  = match square with
    | String f (String r _) =>
        if is_digit r then
          if is_file f
          then Ret (SetLed (7 - (Z.of_nat (nat_of_ascii r - 48) - 1))
                           (7 - Z.of_nat (file_of f)) status)
          else Raise (ValueError (String r " is not a valid file"))
        else Raise (ValueError "invalid literal for int() with base 10")
    | _ => Raise IndexError
    end.
Proof.
  destruct square as [|f [|r rest]]; try reflexivity.
  - unfold set_led, py_getitem. cbn [String.get rbind].
    destruct (file_search f FILES 0). reflexivity.
  - unfold set_led, py_getitem, py_int_of_char, is_digit.
    cbn [String.get rbind Nat.eqb]. rewrite file_search_FILES.
    destruct (is_file f);
      destruct ((48 <=? nat_of_ascii r) && (nat_of_ascii r <=? 57));
      reflexivity.
Qed.

(** X7: a move whose origin has the digit 9 for its rank makes
    [build_led_map_for_move] raise [IndexError]; one whose origin has the
    digit 0 gets the led map of the move from rank 8 instead, when its
    destination is on another rank than the eighth. *)
Theorem build_led_map_for_move_rank_off_the_board
        (f1 f2 r2 : ascii) (promo : string) :
  is_file f1 = true -> is_file f2 = true -> is_rank r2 = true ->
  build_led_map_for_move
    (String f1 (String "9" (String f2 (String r2 promo))))
  = Raise IndexError
  /\ (r2 <> "8"%char ->
      build_led_map_for_move
        (String f1 (String "0" (String f2 (String r2 promo))))
      = build_led_map_for_move
          (String f1 (String "8" (String f2 (String r2 promo))))).
Proof.
  intros H1 H2 Hr.
  assert (R : exists k, k < 8 /\ forall rest,
                square_cords (String f2 (String r2 rest))
                = Ret (file_of f2, Z.of_nat k)
                /\ (r2 <> "8"%char -> k <> 7)).
  { exists (rank_of r2). split; [apply LedsProofs.rank_of_bound; exact Hr|].
    intros rest. split.
    - apply LedsProofs.square_cords_of_square; assumption.
    - intros Hne Hk. apply Hne.
      destruct r2 as [[] [] [] [] [] [] [] []];
        try discriminate Hr; try discriminate Hk; reflexivity. }
  destruct R as (k & Hk & R).
  assert (O : forall d n rest,
             is_digit d = true ->
             (Z.of_nat (nat_of_ascii d - 48) - 1)%Z = n ->
             square_cords (String f1 (String d rest)) = Ret (file_of f1, n)).
  { intros d n rest Hd Hn. rewrite square_cords_eq, Hd, H1, Hn. reflexivity. }
  unfold build_led_map_for_move.
  change (py_prefix 2 (String f1 (String "9" (String f2 (String r2 promo)))))
    with (String f1 (String "9" "")).
  change (py_prefix 2 (String f1 (String "0" (String f2 (String r2 promo)))))
    with (String f1 (String "0" "")).
  change (py_prefix 2 (String f1 (String "8" (String f2 (String r2 promo)))))
    with (String f1 (String "8" "")).
  unfold py_suffix. cbn [String.length Nat.sub substring].
  rewrite (O "9"%char 8%Z "" eq_refl eq_refl).
  rewrite (O "0"%char (-1)%Z "" eq_refl eq_refl).
  rewrite (O "8"%char 7%Z "" eq_refl eq_refl).
  rewrite (proj1 (R _)). cbn [rbind].
  unfold led_map_for_cords. cbn [fst snd]. split.
  - replace (8 =? Z.of_nat k)%Z with false
      by (symmetry; apply Z.eqb_neq; lia).
    reflexivity.
  - intros Hne. pose proof (proj2 (R "") Hne) as Hk7.
    replace (-1 =? Z.of_nat k)%Z with false
      by (symmetry; apply Z.eqb_neq; lia).
    replace (7 =? Z.of_nat k)%Z with false
      by (symmetry; apply Z.eqb_neq; lia).
    reflexivity.
Qed.

Lemma build_led_map_for_move_rank_off_the_board_witness :
  build_led_map_for_move "e9e4" = Raise IndexError
  /\ build_led_map_for_move "e0e4" = build_led_map_for_move "e8e4"
  /\ build_led_map_for_move "e0e4"
     = Ret ["00000000"; "00000000"; "00000000"; "00001000";
            "00000000"; "00000000"; "00000000"; "00001000"].
Proof.
  destruct (build_led_map_for_move_rank_off_the_board
              "e" "e" "4" "" eq_refl eq_refl eq_refl) as [H9 H0].
  split; [exact H9|]. split; [apply H0; discriminate|reflexivity].
Defined.

End LedsMore.

(** ** The manager, further *)

Module DriverMore.
Import Leds Driver.

Section Manager.
Context {engine : ChessEngine}.
Variable world : World.

Local Abbreviation state := (@NicLinkManager engine).

Ltac munfold :=
  cbv beta iota delta
      [bind ret raise lift get_last_move_field get_game_board
       square_in_last_move put_game_board put_last_move set_all_leds
       turn_off_all_leds sleep nl_interface_get_fen game_over_set
       kill_switch_set get_fen put_board_fen_on_board set_move_leds
       get_last_move].

(** X8: whatever the board shows and however it ends, [check_for_move]
    leaves the game board as it was: a move it finds is not made on the
    game board.  When it returns a move, the move is the coordinate
    notation of a legal move of the game board that gives the fen read,
    and it is stored as last move; in every other case the last move is
    as it was. *)
Theorem check_for_move_keeps_the_game_board (st : state) :
  game_board (snd (check_for_move world st)) = game_board st
  /\ match fst (check_for_move world st) with
     | Ret (PyStr u) =>
         last_move (snd (check_for_move world st)) = Some u
         /\ exists new_fen m,
              nl_get_fen world (now st) = Some new_fen
              /\ In m (legal_moves (game_board st)) /\ uci m = u
              /\ board_fen (push m (game_board st)) = new_fen
     | _ => last_move (snd (check_for_move world st)) = last_move st
     end.
Proof.
  destruct (check_for_move world st) as [r st'] eqn:E.
  apply DriverProofs.check_for_move_inv in E.
  destruct E as (Hgb & _ & Hr). cbn [fst snd].
  split; [exact Hgb|].
  destruct r as [[|u]|e]; [exact Hr|exact Hr|].
  destruct e; destruct Hr as [Hr _]; exact Hr.
Qed.

(** X9: the board shows a position that is neither the game board's nor
    the one before its last move, the game-over event is not set, the
    board can be read again and what is read can be put on a board, and
    some legal move of the game board gives the fen shown.  Then
    [check_for_move] returns the first such move in coordinate notation
    and stores it as last move; it lights no led, does not sleep, and
    leaves the game board as it was. *)
Theorem check_for_move_reports_the_move
        (st : state) (new_fen seen : string) (shown : Board) :
  let gb := game_board st in
  nl_get_fen world (now st) = Some new_fen ->
  (forall m gb', pop gb = Some (m, gb') -> board_fen gb' <> new_fen) ->
  game_over_is_set world (S (now st)) = false ->
  new_fen <> board_fen gb ->
  nl_get_fen world (S (S (now st))) = Some seen ->
  set_board_fen new_board seen = Some shown ->
  (exists m, In m (legal_moves gb) /\ board_fen (push m gb) = new_fen) ->
  exists l1 m l2,
    legal_moves gb = (l1 ++ m :: l2)%list
    /\ (forall x, In x l1 -> board_fen (push x gb) <> new_fen)
    /\ board_fen (push m gb) = new_fen
    /\ check_for_move world st
       = (Ret (PyStr (uci m)),
          with_last_move (Some (uci m)) (tick (tick (tick st)))).
Proof.
  intros gb Hfen Hdeb Hover Hne Hseen Hshown Hex.
  destruct (DriverProofs.first_reproducing _ _ _ Hex)
    as (l1 & m & l2 & E & H1 & H2).
  exists l1, m, l2. repeat split; try assumption.
  assert (Hon : on_change world new_fen (tick st)
                = (Ret (PyStr (uci m)),
                   with_last_move (Some (uci m)) (tick (tick (tick st))))).
  { rewrite DriverProofs.on_change_eq. cbn [now tick]. rewrite Hover.
    rewrite DriverProofs.find_move_from_fen_change_eq.
    cbn [now tick game_board]. fold gb.
    replace (String.eqb new_fen (board_fen gb)) with false
      by (symmetry; apply String.eqb_neq; assumption).
    rewrite Hseen, Hshown, E.
    rewrite (DriverProofs.find_move_loop_first l1 l2 m gb new_fen H1 H2).
    reflexivity. }
  rewrite DriverProofs.check_for_move_eq, Hfen. fold gb.
  destruct (pop gb) as [[m' gb']|] eqn:Epop; [|exact Hon].
  destruct (String.eqb_spec new_fen (board_fen gb')) as [Heq|_]; [|exact Hon].
  exfalso. apply (Hdeb m' gb' eq_refl). symmetry. assumption.
Qed.

(** X10: when the board shows the position before the last move of the
    game board (the piece was put back, or is not yet put down),
    [check_for_move] sleeps the refresh delay and returns [False]: it
    looks for no move, lights no led and does not test the game-over
    event; the game board and the last move are as they were. *)
Theorem check_for_move_waits_on_the_position_before
        (st : state) (m : Move) (gb' : Board) :
  pop (game_board st) = Some (m, gb') ->
  nl_get_fen world (now st) = Some (board_fen gb') ->
  check_for_move world st
  = (Ret PyFalse, tick (emit (Sleep refresh_delay) (tick st))).
Proof.
  intros Hpop Hfen.
  rewrite DriverProofs.check_for_move_eq, Hfen, Hpop, String.eqb_refl.
  reflexivity.
Qed.

Lemma await_move_loop_keeps_the_game_board (fuel : nat) :
  forall (attempts : nat) (st : state),
    match await_move_loop world fuel attempts st with
    | Some (_, st') => game_board st' = game_board st
    | None => True
    end.
Proof.
  induction fuel as [|fuel IH]; intros attempts st; cbn [await_move_loop].
  - exact I.
  - destruct (await_move_round world attempts st) as [rr s1] eqn:E.
    apply DriverProofs.await_move_round_inv in E. destruct E as (Hgb & _).
    destruct rr as [[v|attempts']|e]; [exact Hgb| |exact Hgb].
    specialize (IH attempts' s1).
    destruct (await_move_loop world fuel attempts' s1) as [[r s2]|];
      [congruence|exact I].
Qed.

(** X11: however [await_move] ends, the game board is as it was when it
    was called: the move it returns has not been made on the game
    board. *)
Theorem await_move_keeps_the_game_board (fuel : nat) (st : state) :
  match await_move world fuel st with
  | Some (_, st') => game_board st' = game_board st
  | None => True
  end.
Proof. apply await_move_loop_keeps_the_game_board. Qed.

Lemma await_move_round_unchanged (gb : Board) (attempts : nat) (s : state) :
  (forall t, nl_get_fen world t = Some (board_fen gb)) ->
  (forall t, kill_switch_is_set world t = false) ->
  (forall t, game_over_is_set world t = false) ->
  game_board s = gb ->
  exists attempts' s',
    await_move_round world attempts s = (Ret (Continue attempts'), s')
    /\ game_board s' = gb.
Proof.
  intros Hfen Hkill Hover Hs.
  rewrite DriverProofs.await_move_round_eq, Hkill, Hover.
  rewrite DriverProofs.check_for_move_eq, Hfen.
  cbn [game_board tick]. rewrite Hs.
  assert (Hon : forall s0 : state,
             game_board s0 = gb ->
             on_change world (board_fen gb) s0
             = (Raise (NoMove "No fen difference"), tick s0)).
  { intros s0 Hs0. rewrite DriverProofs.on_change_eq, Hover.
    rewrite DriverProofs.find_move_from_fen_change_eq.
    cbn [game_board tick]. rewrite Hs0, String.eqb_refl. reflexivity. }
  destruct (pop gb) as [[m gb']|].
  - destruct (String.eqb (board_fen gb) (board_fen gb')).
    + cbn [truthy]. eexists _, _. split; [reflexivity|exact Hs].
    + rewrite Hon by exact Hs.
      eexists _, _. split; [reflexivity|exact Hs].
  - rewrite Hon by exact Hs.
    eexists _, _. split; [reflexivity|exact Hs].
Qed.

(** X12: as long as the board shows the position of the game board and
    neither the kill switch nor the game-over event is set, [await_move]
    goes on polling: no number of rounds ends it. *)
Theorem await_move_polls_while_nothing_changes (st : state) :
  (forall t, nl_get_fen world t = Some (board_fen (game_board st))) ->
  (forall t, kill_switch_is_set world t = false) ->
  (forall t, game_over_is_set world t = false) ->
  forall fuel, await_move world fuel st = None.
Proof.
  intros Hfen Hkill Hover fuel. unfold await_move.
  generalize 0 as attempts.
  assert (Hs : game_board st = game_board st) by reflexivity.
  revert Hs. generalize st at 1 3 as s.
  induction fuel as [|fuel IH]; intros s Hs attempts;
    cbn [await_move_loop]; [reflexivity|].
  destruct (await_move_round_unchanged (game_board st) attempts s
              Hfen Hkill Hover Hs) as (a' & s' & E & Hs').
  rewrite E. apply IH. exact Hs'.
Qed.

(** X13: the two events end [await_move] at the next test of its loop,
    before the board is read and with no led changed.  The kill switch
    comes first: when it is set, [await_move] raises [ExitNicLink] even
    if the game-over event is set as well, with a message that gives a
    second reading of the switch.  When the kill switch is not set and
    the game-over event is, it returns [None]. *)
Theorem await_move_stops_on_the_events (fuel : nat) (st : state) :
  (kill_switch_is_set world (now st) = true ->
   await_move world (S fuel) st
   = Some (Raise (ExitNicLink
                    (exit_message (kill_switch_is_set world (S (now st))))),
           tick (tick st)))
  /\ (kill_switch_is_set world (now st) = false ->
      game_over_is_set world (S (S (now st))) = true ->
      await_move world (S fuel) st
      = Some (Ret None, tick (tick (tick st)))).
Proof.
  split.
  - intros Hk. unfold await_move. cbn [await_move_loop].
    rewrite DriverProofs.await_move_round_eq, Hk. reflexivity.
  - intros Hk Ho. unfold await_move. cbn [await_move_loop].
    rewrite DriverProofs.await_move_round_eq, Hk, Ho. reflexivity.
Qed.

(** *** The squares of the last move *)

Lemma is_file_in_FILES (f : ascii) : is_file f = true -> In f FILES.
Proof.
  destruct f as [[] [] [] [] [] [] [] []]; intros H;
    try discriminate H; simpl; tauto.
Qed.

Lemma is_rank_in_ranks (r : ascii) :
  is_rank r = true -> In r ["1"; "2"; "3"; "4"; "5"; "6"; "7"; "8"]%char.
Proof.
  destruct r as [[] [] [] [] [] [] [] []]; intros H;
    try discriminate H; simpl; tauto.
Qed.

Lemma is_promotion_in_pieces (promo : string) :
  is_promotion promo = true -> In promo [""; "q"; "r"; "b"; "n"].
Proof.
  destruct promo as [|c [|c' promo]].
  - simpl. tauto.
  - destruct c as [[] [] [] [] [] [] [] []]; intros H;
      try discriminate H; simpl; tauto.
  - destruct c as [[] [] [] [] [] [] [] []]; intros H; discriminate H.
Qed.

(** The substring test, one position of the text after the other. *)
Lemma py_in_cons (sub : string) (c : ascii) (rest : string) :
  py_in sub (String c rest) = prefix sub (String c rest) || py_in sub rest.
Proof.
  unfold py_in. cbn [index].
  destruct (prefix sub (String c rest)); [reflexivity|].
  destruct (index 0 sub rest); reflexivity.
Qed.

Lemma prefix_two (a b x y : ascii) (rest : string) :
  prefix (String a (String b "")) (String x (String y rest))
  = Ascii.eqb a x && Ascii.eqb b y.
Proof.
  cbn [prefix]. destruct (ascii_dec a x) as [->|N].
  - rewrite Ascii.eqb_refl. destruct (ascii_dec b y) as [->|N'].
    + rewrite Ascii.eqb_refl. destruct rest; reflexivity.
    + apply Ascii.eqb_neq in N'. rewrite N'. reflexivity.
  - apply Ascii.eqb_neq in N. rewrite N. reflexivity.
Qed.

(** The letter of a file is the letter of no rank, and names its file;
    the digit of a rank names its rank. *)
Lemma square_letters_table :
  forallb (fun file =>
    forallb (fun r => negb (Ascii.eqb (ascii_of_nat (97 + file)) r))
            ["1"; "2"; "3"; "4"; "5"; "6"; "7"; "8"]%char
    && forallb (fun f => Bool.eqb (Ascii.eqb (ascii_of_nat (97 + file)) f)
                                  (file =? file_of f)) FILES
    && forallb (fun r => Bool.eqb (Ascii.eqb (ascii_of_nat (49 + file)) r)
                                  (file =? rank_of r))
               ["1"; "2"; "3"; "4"; "5"; "6"; "7"; "8"]%char)
    (seq 0 8) = true.
Proof. vm_compute. reflexivity. Qed.

(** No square is named from the last digit of a move on. *)
Lemma py_in_tail_table :
  forallb (fun file => forallb (fun rank => forallb (fun r2 =>
  forallb (fun promo =>
    negb (py_in (square_of file rank) (String r2 promo)))
    [""; "q"; "r"; "b"; "n"])
    ["1"; "2"; "3"; "4"; "5"; "6"; "7"; "8"]%char) (seq 0 8)) (seq 0 8)
  = true.
Proof. vm_compute. reflexivity. Qed.

Lemma square_letters (n : nat) :
  n < 8 ->
  (forall r, is_rank r = true -> Ascii.eqb (ascii_of_nat (97 + n)) r = false)
  /\ (forall f, is_file f = true ->
                Ascii.eqb (ascii_of_nat (97 + n)) f = (n =? file_of f))
  /\ (forall r, is_rank r = true ->
                Ascii.eqb (ascii_of_nat (49 + n)) r = (n =? rank_of r)).
Proof.
  intros Hn. pose proof square_letters_table as T.
  rewrite forallb_forall in T.
  specialize (T n (proj2 (in_seq 8 0 n) ltac:(lia))).
  apply andb_true_iff in T. destruct T as [T T3].
  apply andb_true_iff in T. destruct T as [T1 T2].
  rewrite forallb_forall in T1, T2, T3.
  split; [|split].
  - intros r Hr. apply negb_true_iff. apply T1, is_rank_in_ranks, Hr.
  - intros f Hf. apply Bool.eqb_prop. apply T2, is_file_in_FILES, Hf.
  - intros r Hr. apply Bool.eqb_prop. apply T3, is_rank_in_ranks, Hr.
Qed.

(** The substring test, on every well-formed move and every square. *)
Lemma py_in_move (f1 r1 f2 r2 : ascii) (promo : string) (file rank : nat) :
  is_file f1 = true -> is_rank r1 = true ->
  is_file f2 = true -> is_rank r2 = true -> is_promotion promo = true ->
  file < 8 -> rank < 8 ->
  let move := String f1 (String r1 (String f2 (String r2 promo))) in
  py_in (square_of file rank) move
  = lit (origin move) (destination move) file rank.
Proof.
  intros Hf1 Hr1 Hf2 Hr2 Hp Hf Hr move.
  assert (Htail : py_in (square_of file rank) (String r2 promo) = false).
  { pose proof py_in_tail_table as T.
    rewrite forallb_forall in T.
    specialize (T file (proj2 (in_seq 8 0 file) ltac:(lia))).
    rewrite forallb_forall in T.
    specialize (T rank (proj2 (in_seq 8 0 rank) ltac:(lia))).
    rewrite forallb_forall in T. specialize (T r2 (is_rank_in_ranks r2 Hr2)).
    rewrite forallb_forall in T.
    specialize (T promo (is_promotion_in_pieces promo Hp)).
    apply negb_true_iff in T. exact T. }
  destruct (square_letters file Hf) as (Hfr & Hff & _).
  destruct (square_letters rank Hr) as (_ & _ & Hrr).
  unfold move.
  rewrite (py_in_cons _ f1), (py_in_cons _ r1), (py_in_cons _ f2), Htail.
  unfold square_of. rewrite !prefix_two.
  rewrite (Hfr r1 Hr1), (Hff f1 Hf1), (Hff f2 Hf2), (Hrr r1 Hr1), (Hrr r2 Hr2).
  unfold lit, origin, destination. cbn [fst snd andb orb].
  rewrite orb_false_r. reflexivity.
Qed.

(** X14: when the last move is a well-formed move, [square_in_last_move]
    holds of a square of the board exactly when the square is the origin
    or the destination of that move: no other square is named inside the
    text of the move. *)
Theorem square_in_last_move_is_origin_or_destination
        (move : string) (file rank : nat) (st : state) :
  is_uci move = true -> last_move st = Some move ->
  file < 8 -> rank < 8 ->
  square_in_last_move (square_of file rank) st
  = (Ret (lit (origin move) (destination move) file rank), st).
Proof.
  intros Hu Hlm Hf Hr.
  destruct move as [|f1 [|r1 [|f2 [|r2 promo]]]]; try discriminate Hu.
  unfold is_uci in Hu.
  apply andb_true_iff in Hu. destruct Hu as [Hu Hp].
  apply andb_true_iff in Hu. destruct Hu as [Hu Hr2].
  apply andb_true_iff in Hu. destruct Hu as [Hu Hf2].
  apply andb_true_iff in Hu. destruct Hu as [Hf1 Hr1].
  pose proof (py_in_move f1 r1 f2 r2 promo file rank
                Hf1 Hr1 Hf2 Hr2 Hp Hf Hr) as T.
  cbv zeta in T.
  unfold square_in_last_move. munfold. rewrite Hlm.
  change (str_truthy (String f1 (String r1 (String f2 (String r2 promo)))))
    with true.
  cbv iota. rewrite T. reflexivity.
Qed.

(** *** What [show_board_diff] returns *)

(** X15: [show_board_diff] returns whether some square it visits (the
    files a to g of every rank) holds different pieces on the two boards
    and is not named in the last move.  When it returns [True] it hands
    the board interface one led map of eight rows of eight characters in
    which, on each rank, the differing square on the highest of the files
    a to g is lit and no other square is, be it in the last move or not.
    When it returns [False] it hands it the led map of the last move, its
    origin and its destination lit, or nothing when there is no last
    move.  It leaves the game board and the last move as they were.  (The
    last move, if any, is taken to be well formed.) *)
Theorem show_board_diff_tells_a_change_outside_the_last_move
        (b1 b2 : Board) (st : state) :
  valid_last_move (last_move st) = true ->
  exists es,
    show_board_diff b1 b2 st
    = (Ret (differs_outside_last_move (last_move st) b1 b2), extend st es)
    /\ if differs_outside_last_move (last_move st) b1 b2
       then exists diff_map,
              es = [SetAllLeds diff_map]
              /\ List.length diff_map = 8
              /\ (forall row, In row diff_map -> String.length row = 8)
              /\ (forall file rank, file < 8 -> rank < 8 ->
                     led_at diff_map file rank
                     = Some (led_char (lit_in_diff b1 b2 file rank)))
       else match last_move st with
            | Some lm =>
                exists move_map,
                  es = [SetAllLeds move_map]
                  /\ List.length move_map = 8
                  /\ (forall row, In row move_map -> String.length row = 8)
                  /\ (forall file rank, file < 8 -> rank < 8 ->
                         led_at move_map file rank
                         = Some (led_char (lit (origin lm) (destination lm)
                                               file rank)))
            | None => es = []
            end.
Proof.
  intros Hv.
  destruct (DriverProofs.diff_outcome_display (last_move st) b1 b2 Hv)
    as (es & E & D).
  exists es. rewrite DriverProofs.show_board_diff_eq, E.
  split; [reflexivity|exact D].
Qed.

(** X16: [opponent_moved] stores the move as last move before it lights
    anything.  For a well-formed move it then hands the board interface
    the led map with the origin and the destination lit; when the led map
    cannot be built, the error leaves the method with the move already
    stored as last move. *)
Theorem opponent_moved_stores_then_lights (move : string) (st : state) :
  (is_uci move = true ->
   exists m,
     opponent_moved move st
     = (Ret tt, emit (SetAllLeds m) (with_last_move (Some move) st))
     /\ forall file rank, file < 8 -> rank < 8 ->
          led_at m file rank
          = Some (led_char (lit (origin move) (destination move) file rank)))
  /\ (forall e,
         build_led_map_for_move move = Raise e ->
         opponent_moved move st = (Raise e, with_last_move (Some move) st)).
Proof.
  split.
  - intros Hu.
    destruct (LedsProofs.build_led_map_for_move_of_uci move Hu)
      as (m & Hm & _ & _ & Hbits).
    exists m. split; [|exact Hbits].
    unfold opponent_moved. munfold. rewrite Hm. reflexivity.
  - intros e He. unfold opponent_moved. munfold. rewrite He. reflexivity.
Qed.

End Manager.

(** *** The theorems on the book positions *)

Ltac run := vm_compute; reflexivity.

Local Abbreviation start := (Book.starting_board : @Board Book.engine).
Local Abbreviation after_e2e4 := (Book.after_e2e4 : @Board Book.engine).

(** The board shows the position after e2e4, the game board is the
    starting position. *)
Lemma check_for_move_reports_the_move_witness :
  let st := Book.manager_on Book.starting_board None in
  let world := Book.still_world (Some (Book.fen_after "e2e4")) false false in
  exists l1 m l2,
    legal_moves start = (l1 ++ m :: l2)%list
    /\ (forall x, In x l1 ->
                  board_fen (push x start) <> Book.fen_after "e2e4")
    /\ board_fen (push m start) = Book.fen_after "e2e4"
    /\ check_for_move world st
       = (Ret (PyStr (uci m)),
          with_last_move (Some (uci m)) (tick (tick (tick st)))).
Proof.
  intros st world.
  apply (check_for_move_reports_the_move
           world st (Book.fen_after "e2e4") (Book.fen_after "e2e4")
           (Book.board_with (Book.fen_after "e2e4") : @Board Book.engine)
           ltac:(run)
           ltac:(intros m gb' H; vm_compute in H; discriminate H)
           ltac:(run) ltac:(vm_compute; discriminate)
           ltac:(run) ltac:(run)).
  exists ("e2e4" : @Move Book.engine). split.
  - vm_compute. tauto.
  - run.
Defined.

(** After 1. e4 was made on the game board, the board still shows the
    starting position. *)
Lemma check_for_move_waits_on_the_position_before_witness :
  let st := Book.manager_on Book.after_e2e4 (Some "e2e4") in
  let world := Book.still_world (Some Book.starting_fen) false false in
  check_for_move world st
  = (Ret PyFalse, tick (emit (Sleep refresh_delay) (tick st))).
Proof.
  intros st world.
  apply (check_for_move_waits_on_the_position_before
           world st ("e2e4" : @Move Book.engine) start
           ltac:(run) ltac:(run)).
Defined.

(** The board shows the starting position, which is the game board: a
    thousand rounds do not end the wait. *)
Lemma await_move_polls_while_nothing_changes_witness :
  let st := Book.manager_on Book.starting_board None in
  let world := Book.still_world (Some Book.starting_fen) false false in
  await_move world 1000 st = None.
Proof.
  intros st world.
  apply (await_move_polls_while_nothing_changes world st);
    intros t; run.
Defined.

(** Both events set; the game-over event alone. *)
Lemma await_move_stops_on_the_events_witness :
  let st := Book.manager_on Book.starting_board None in
  await_move (Book.still_world (Some Book.starting_fen) true true) 1 st
  = Some (Raise (ExitNicLink (exit_message true)), tick (tick st))
  /\ await_move (Book.still_world (Some Book.starting_fen) true false) 1 st
     = Some (Ret None, tick (tick (tick st))).
Proof.
  intros st. split.
  - apply (proj1 (await_move_stops_on_the_events
                    (Book.still_world (Some Book.starting_fen) true true)
                    0 st)).
    run.
  - apply (proj2 (await_move_stops_on_the_events
                    (Book.still_world (Some Book.starting_fen) true false)
                    0 st)); run.
Defined.

(** The starting position against the position with both centre pawns
    on the fourth rank, e2e4 being the last move: d2 and d4 differ
    outside it, and the map lit has e2 and e4 lit, not d2. *)
Lemma show_board_diff_tells_a_change_outside_the_last_move_witness :
  let st := Book.manager_on Book.starting_board (Some "e2e4") in
  let centre : @Board Book.engine := Book.board_with Book.two_pawns_fen in
  exists diff_map,
    show_board_diff start centre st
    = (Ret true, extend st [SetAllLeds diff_map])
    /\ led_at diff_map 4 1 = Some "1"%char
    /\ led_at diff_map 4 3 = Some "1"%char
    /\ led_at diff_map 3 1 = Some "0"%char.
Proof.
  intros st centre.
  destruct (show_board_diff_tells_a_change_outside_the_last_move
              start centre st ltac:(run)) as (es & Hrun & Hshown).
  replace (differs_outside_last_move (last_move st) start centre)
    with true in Hrun, Hshown by run.
  destruct Hshown as (diff_map & -> & _ & _ & Hbits).
  exists diff_map. split; [exact Hrun|].
  rewrite (Hbits 4 1), (Hbits 4 3), (Hbits 3 1) by lia.
  repeat split; run.
Defined.

(** The squares e2, e4 and e3 after e2e4. *)
Lemma square_in_last_move_is_origin_or_destination_witness :
  let st := Book.manager_on Book.after_e2e4 (Some "e2e4") in
  square_in_last_move "e2" st = (Ret true, st)
  /\ square_in_last_move "e4" st = (Ret true, st)
  /\ square_in_last_move "e3" st = (Ret false, st).
Proof.
  intros st. split; [|split].
  - apply (square_in_last_move_is_origin_or_destination "e2e4" 4 1 st);
      [reflexivity|reflexivity|lia|lia].
  - apply (square_in_last_move_is_origin_or_destination "e2e4" 4 3 st);
      [reflexivity|reflexivity|lia|lia].
  - apply (square_in_last_move_is_origin_or_destination "e2e4" 4 2 st);
      [reflexivity|reflexivity|lia|lia].
Defined.

(** The reply e7e5, and a move that names no square. *)
Lemma opponent_moved_stores_then_lights_witness :
  let st := Book.manager_on Book.after_e2e4 (Some "e2e4") in
  (exists m,
      opponent_moved "e7e5" st
      = (Ret tt, emit (SetAllLeds m) (with_last_move (Some "e7e5") st))
      /\ led_at m 4 6 = Some "1"%char /\ led_at m 4 4 = Some "1"%char
      /\ led_at m 4 5 = Some "0"%char)
  /\ opponent_moved "0000" st
     = (Raise (ValueError "0 is not a valid file"),
        with_last_move (Some "0000") st).
Proof.
  intros st. split.
  - destruct (proj1 (opponent_moved_stores_then_lights "e7e5" st) eq_refl)
      as (m & Hm & Hbits).
    exists m. split; [exact Hm|].
    repeat split; [apply (Hbits 4 6)|apply (Hbits 4 4)|apply (Hbits 4 5)]; lia.
  - apply (proj2 (opponent_moved_stores_then_lights "0000" st)). run.
Defined.

End DriverMore.

(** ** The lichess client, further *)

Module LichessMore.
Import Lichess.

(** Splitting what was done from what had been done before. *)
Ltac split_effects :=
  match goal with
  | |- ?l = (?es ++ ?t)%list =>
      let rec go l :=
        match l with
        | t => constr:(@nil effect)
        | ?x :: ?l' => let r := go l' in constr:(x :: r)
        end in
      let p := go l in
      unify es p; reflexivity
  end.

(** What one round of [make_move] does: one submission of the move when
    there is a move, and no round goes on with the flag clear. *)
Lemma make_move_round_effects (move : option string) (r : reply) (g : Game) :
  exists es,
    effects (snd (make_move_round move r g)) = (es ++ effects g)%list
    /\ submitted es = match move with Some m => [m] | None => [] end
    /\ (fst (make_move_round move r g) = Continued ->
        response_error_on_last_attempt g = false
        /\ response_error_on_last_attempt (snd (make_move_round move r g))
           = true).
Proof.
  destruct move as [m|]; [|exists []; repeat split; discriminate].
  destruct r as [|err]; cbn [make_move_round].
  - eexists. split; [cbn; split_effects|]. split; [reflexivity|discriminate].
  - destruct (Driver.py_in not_your_turn err).
    + eexists. split; [cbn; split_effects|].
      split; [reflexivity|discriminate].
    + cbn [emit response_error_on_last_attempt].
      destruct (response_error_on_last_attempt g) eqn:Eflag.
      * unfold game_done. cbn [set_flag emit chess_clock].
        destruct (chess_clock g);
          (eexists; split; [cbn; split_effects|];
           split; [reflexivity|discriminate]).
      * eexists. split; [cbn; split_effects|].
        split; [reflexivity|]. intros _. split; reflexivity.
Qed.

Lemma submitted_app (es1 es2 : list effect) :
  submitted (es1 ++ es2) = (submitted es1 ++ submitted es2)%list.
Proof. unfold submitted. apply flat_map_app. Qed.

(** With the flag set, the loop ends at its next round. *)
Lemma make_move_loop_flag_set (env : Env) (fuel round : nat)
      (move : option string) (g : Game) :
  response_error_on_last_attempt g = true ->
  exists r g' es,
    make_move_loop env (S fuel) round move g = Some (r, g')
    /\ effects g' = (es ++ effects g)%list
    /\ (submitted es = [] \/ exists m, move = Some m /\ submitted es = [m]).
Proof.
  intros Hflag. cbn [make_move_loop].
  destruct (game_over_is_set env round).
  { exists (Ret tt), g, []. split; [reflexivity|]. split; [reflexivity|].
    left. reflexivity. }
  destruct (make_move_round_effects move (server_reply env round) g)
    as (es & Hes & Hsub & Hcont).
  assert (Hcases : submitted es = []
                   \/ exists m, move = Some m /\ submitted es = [m]).
  { destruct move as [m|]; [right; exists m; auto|left; exact Hsub]. }
  destruct (make_move_round move (server_reply env round) g) as [e g1].
  cbn [fst snd] in Hes, Hcont.
  destruct e as [| | |e].
  - exists (Ret tt), g1, es. auto.
  - exists (Ret tt), g1, es. auto.
  - destruct (Hcont eq_refl) as [Hf _]. congruence.
  - exists (Raise e), g1, es. auto.
Qed.

(** X18: [make_move] ends within two rounds of its loop, and it submits
    the move to the server at most twice in one call; it submits nothing
    else, and nothing at all when the move is [None]. *)
Theorem make_move_submits_at_most_twice
        (env : Env) (fuel : nat) (move : option string) (g : Game) :
  exists r g' es,
    make_move env (S (S fuel)) move g = Some (r, g')
    /\ effects g' = (es ++ effects g)%list
    /\ List.length (submitted es) <= 2
    /\ (forall m, In m (submitted es) -> move = Some m)
    /\ (move = None -> es = []).
Proof.
  unfold make_move. cbn [make_move_loop].
  destruct (game_over_is_set env 0).
  { exists (Ret tt), g, []. split; [reflexivity|]. split; [reflexivity|].
    split; [simpl; lia|]. split; [intros m []|reflexivity]. }
  destruct move as [m|].
  2:{ exists (Ret tt), g, []. split; [reflexivity|]. split; [reflexivity|].
      split; [simpl; lia|]. split; [intros m []|reflexivity]. }
  destruct (make_move_round_effects (Some m) (server_reply env 0) g)
    as (es & Hes & Hsub & Hcont).
  destruct (make_move_round (Some m) (server_reply env 0) g) as [e g1].
  cbn [fst snd] in Hes, Hcont.
  assert (Hone : List.length (submitted es) <= 2
                 /\ (forall m0, In m0 (submitted es) -> Some m = Some m0)
                 /\ (Some m = @None string -> es = [])).
  { rewrite Hsub. split; [simpl; lia|]. split; [|discriminate].
    intros m0 [<-|[]]. reflexivity. }
  destruct e as [| | |e].
  - exists (Ret tt), g1, es. auto.
  - exists (Ret tt), g1, es. auto.
  - destruct (Hcont eq_refl) as [_ Hf].
    destruct (make_move_loop_flag_set env fuel 1 (Some m) g1 Hf)
      as (r & g2 & es2 & Hrun & Hes2 & Hsub2).
    exists r, g2, (es2 ++ es)%list. split; [exact Hrun|].
    split; [rewrite Hes2, Hes; apply app_assoc|].
    rewrite submitted_app, Hsub.
    split; [|split; [|discriminate]].
    + destruct Hsub2 as [->|(m0 & _ & ->)]; simpl; lia.
    + destruct Hsub2 as [->|(m0 & Hm0 & ->)]; simpl.
      * intros x [<-|[]]. reflexivity.
      * inversion Hm0. subst m0. intros x [<-|[<-|[]]]; reflexivity.
  - exists (Raise e), g1, es. auto.
Qed.

Lemma dict_getitem_missing (d : list (string * string)) (key : string) :
  dict_contains d key = false -> dict_getitem d key = Raise KeyError.
Proof.
  induction d as [|[k v] d IH]; cbn [dict_contains existsb dict_getitem fst];
    [reflexivity|].
  destruct (String.eqb k key); [discriminate|exact IH].
Qed.

Lemma dict_getitem_present (d : list (string * string)) (key : string) :
  dict_contains d key = true -> exists v, dict_getitem d key = Ret v.
Proof.
  induction d as [|[k v] d IH]; cbn [dict_contains existsb dict_getitem fst];
    [discriminate|].
  destruct (String.eqb k key); [eauto|exact IH].
Qed.

(** X19: on a game state with a status other than "gameFull" and without
    a winner, [check_for_game_over] never reaches [game_done]: when the
    game-over event is not set it returns, and when the event is set it
    raises [KeyError], looking up the winner that is not there.  In both
    cases nothing is signalled. *)
Theorem check_for_game_over_without_winner
        (fuel : nat) (over : bool) (game_state : list (string * string))
        (status : string) (g : Game) :
  dict_getitem game_state "status" = Ret status ->
  status <> "gameFull" ->
  dict_contains game_state "winner" = false ->
  check_for_game_over fuel over game_state g
  = Some (if over then Raise KeyError else Ret tt, g).
Proof.
  intros Hs Hne Hw. unfold check_for_game_over. rewrite Hs.
  replace (String.eqb status "gameFull") with false
    by (symmetry; apply String.eqb_neq; exact Hne).
  rewrite Hw, (dict_getitem_missing _ _ Hw).
  destruct over; reflexivity.
Qed.

Lemma check_for_game_over_without_winner_witness :
  check_for_game_over 0 true [("status", "started")] fresh_game
  = Some (Raise KeyError, fresh_game)
  /\ check_for_game_over 0 false [("status", "started")] fresh_game
     = Some (Ret tt, fresh_game).
Proof.
  split.
  - apply (check_for_game_over_without_winner
             0 true [("status", "started")] "started" fresh_game eq_refl);
      [discriminate|reflexivity].
  - apply (check_for_game_over_without_winner
             0 false [("status", "started")] "started" fresh_game eq_refl);
      [discriminate|reflexivity].
Defined.

(** X20: on a game state with a status other than "gameFull" and with a
    winner, [check_for_game_over] ends the game through [game_done] and
    raises [NicLinkGameOver], whether the game-over event is set or not;
    with an external clock, the clock is told that white won when the
    winner is "white" and that black won for any other value. *)
Theorem check_for_game_over_with_winner
        (fuel : nat) (over : bool) (game_state : list (string * string))
        (status : string) (g : Game) :
  dict_getitem game_state "status" = Ret status ->
  status <> "gameFull" ->
  dict_contains game_state "winner" = true ->
  exists winner g',
    dict_getitem game_state "winner" = Ret winner
    /\ check_for_game_over fuel over game_state g
       = Some (Raise (NicLinkGameOver "Game over"), g')
    /\ effects g'
       = ([LightsOut; Sleep 3; GameoverLights; Beep; SetGameOver]
            ++ (if chess_clock g
                then [if String.eqb winner "white"
                      then ClockWhiteWon else ClockBlackWon]
                else [])
            ++ effects g)%list.
Proof.
  intros Hs Hne Hw. unfold check_for_game_over. rewrite Hs.
  replace (String.eqb status "gameFull") with false
    by (symmetry; apply String.eqb_neq; exact Hne).
  rewrite Hw. destruct (dict_getitem_present _ _ Hw) as [winner Hwin].
  rewrite Hwin. exists winner. unfold game_done.
  destruct (chess_clock g); destruct (String.eqb winner "white");
    eexists; (split; [reflexivity|]); split; reflexivity.
Qed.

Lemma check_for_game_over_with_winner_witness :
  exists g',
    check_for_game_over 0 false
      [("status", "resign"); ("winner", "white")] fresh_game
    = Some (Raise (NicLinkGameOver "Game over"), g')
    /\ effects g'
       = [LightsOut; Sleep 3; GameoverLights; Beep; SetGameOver;
          ClockWhiteWon].
Proof.
  destruct (check_for_game_over_with_winner
              0 false [("status", "resign"); ("winner", "white")]
              "resign" fresh_game eq_refl
              ltac:(discriminate) eq_refl)
    as (winner & g' & Hwin & Hrun & Heff).
  exists g'. split; [exact Hrun|].
  inversion Hwin. subst winner. exact Heff.
Defined.

(** X21: on a game state whose status is "gameFull",
    [check_for_game_over] beeps and sleeps a second over and over: it
    never returns and never reaches the call of [game_done] that follows
    its loop. *)
Theorem check_for_game_over_gameFull_never_returns
        (over : bool) (game_state : list (string * string)) (g : Game) :
  dict_getitem game_state "status" = Ret "gameFull" ->
  forall fuel, check_for_game_over fuel over game_state g = None.
Proof.
  intros Hs fuel. unfold check_for_game_over.
  rewrite Hs, String.eqb_refl. revert g. induction fuel as [|fuel IH]; intros g; cbn [beep_forever];
    [reflexivity|apply IH].
Qed.

Lemma check_for_game_over_gameFull_never_returns_witness :
  check_for_game_over 1000 false [("status", "gameFull")] fresh_game = None.
Proof.
  apply (check_for_game_over_gameFull_never_returns
           false [("status", "gameFull")] fresh_game eq_refl 1000).
Defined.

End LichessMore.
